(** * xeometry viewer: identifier resolution, transforms and bookmarks

    A shallow embedding of [src/js/viewer.js] (the [xeometry.Viewer]
    facade over the xeogl scene graph) and the properties of its
    identifier-resolution engine, transform composer and bookmark codec.

    Conventions of the embedding.
    - A JavaScript object used as a map is an insertion-ordered association
      list ([dict]): [Object.keys] and [for .. in] enumerate it in the order
      in which keys were first written.  Keys are taken to be ordinary
      identifiers: none is a canonical array index.  [Dict.get] finds own
      keys only.  Under a name that an object literal inherits from
      [Object.prototype] ([inherited]) the source finds the inherited
      member: [Literal.getObjects], [Literal.setType] and [destroy_outcome]
      are the embeddings with these lookups, and the theorems on what a
      model or an array resolves to, on the errors and the results of
      [getObjects], on [setType] moving an object, and on [destroy] of a
      model or of a string that names nothing are about them.  The other
      functions are the source for calls without an inherited name; the
      theorems on the transforms have [inherited] among their hypotheses.
    - Numbers are exact rationals ([Q]).  The vectors that the engine keeps
      in single-precision typed arrays are read back as they were given,
      which is so for the numbers of [single]; the round trips of the
      transforms and of the camera have it among their hypotheses.  The
      rounding of [vecToArray] to five decimals is part of the embedding.
    - Components of the engine are stored by value in the map that the
      viewer keeps for their kind; other maps that hold references to the
      same component (type buckets, the entity table of a model,
      [objectModels]) hold its ID.  [scene.components] is the union of the
      viewer's maps, which is what it contains for the IDs a caller assigns.
    - Engine transform components live in an arena; a handle is an index
      into it and plays the role of the component's [id].
    - [console.error] and the callbacks handed to the viewer are events
      appended to a log carried by the state.
    - A [TypeError] thrown by the source and the exhaustion of the
      recursion budget are both the result [None]; [destroy_outcome] tells
      the two apart for [destroy]. *)

From Stdlib Require Import String Ascii List Bool Arith QArith Qround Lia.
Import ListNotations.
Local Open Scope string_scope.
Local Open Scope list_scope.

Set Implicit Arguments.
Set Warnings "-register-all".

(** ** Insertion-ordered maps *)

Module Dict.
Section Defs.
Variable V : Type.

Definition t := list (string * V).

Definition empty : t := [].

(** [d[k]] *)
Fixpoint get (k : string) (d : t) : option V :=
  match d with
  | [] => None
  | (k', v) :: r => if String.eqb k k' then Some v else get k r
  end.

(** [d[k] = v]: an existing key keeps its place, a new one goes last. *)
Fixpoint set (k : string) (v : V) (d : t) : t :=
  match d with
  | [] => [(k, v)]
  | (k', v') :: r =>
      if String.eqb k k' then (k, v) :: r else (k', v') :: set k v r
  end.

(** [delete d[k]] *)
Fixpoint del (k : string) (d : t) : t :=
  match d with
  | [] => []
  | (k', v') :: r =>
      if String.eqb k k' then del k r else (k', v') :: del k r
  end.

(** [Object.keys(d)] *)
Definition keys (d : t) : list string := map fst d.

Definition mem (k : string) (d : t) : bool :=
  match get k d with Some _ => true | None => false end.
End Defs.

Arguments empty {V}.
End Dict.

Abbreviation dict := Dict.t.

(** The names that every object literal of the source inherits from
    [Object.prototype]: a lookup [d[k]] in such a map finds something
    under these names although [d] has no such key.  The maps of the
    embedding hold own keys only, so what is proved for a name of this
    list says nothing of the source. *)
Definition prototype_names : list string :=
  ["constructor"; "hasOwnProperty"; "isPrototypeOf"; "propertyIsEnumerable";
   "toLocaleString"; "toString"; "valueOf"; "__proto__"; "__defineGetter__";
   "__defineSetter__"; "__lookupGetter__"; "__lookupSetter__"].

Definition inherited (k : string) : bool :=
  existsb (String.eqb k) prototype_names.

(** ** Values *)

Definition vec3 : Type := Q * Q * Q.
Definition aabb6 : Type := Q * Q * Q * Q * Q * Q.

Definition vec3_eq (a b : vec3) : Prop :=
  let '(a0, a1, a2) := a in
  let '(b0, b1, b2) := b in
  a0 == b0 /\ a1 == b1 /\ a2 == b2.

(** [math.subVec3], [math.mulVec3Scalar] *)
Definition subVec3 (a b : vec3) : vec3 :=
  let '(a0, a1, a2) := a in
  let '(b0, b1, b2) := b in
  (a0 - b0, a1 - b1, a2 - b2).

Definition mulVec3Scalar (a : vec3) (s : Q) : vec3 :=
  let '(a0, a1, a2) := a in (a0 * s, a1 * s, a2 * s).

Definition mulVec3 (a b : vec3) : vec3 :=
  let '(a0, a1, a2) := a in
  let '(b0, b1, b2) := b in
  (a0 * b0, a1 * b1, a2 * b2).

(** A quaternion is kept as the expression that produced it: the engine's
    default, or [math.eulerToQuaternion(xyz, "XYZ")]. *)
Inductive quat : Type :=
| QuatIdentity
| QuatOfEuler (xyz : vec3).

(** A 4x4 matrix is kept as the formal product of the local matrices that
    were multiplied into it ([math.identityMat4] is the empty product and
    [math.mulMat4] appends). *)
Inductive factor : Type :=
| FTranslate (xyz : vec3)
| FScale (xyz : vec3)
| FQuaternion (q : quat).

Definition mat4 : Type := list factor.
Definition identityMat4 : mat4 := [].
Definition mulMat4 (a b : mat4) : mat4 := a ++ b.

(** ** Engine components *)

(** [xeogl.Translate], [xeogl.Scale], [xeogl.Quaternion], [xeogl.Transform] *)
Inductive tkind : Type :=
| TTranslate (xyz : vec3)
| TScale (xyz : vec3)
| TQuaternion (xyzw : quat)
| TTransform (matrix : mat4).

Record tnode : Type := mkNode {
  t_kind : tkind;
  t_parent : option nat
}.

(** [transform.matrix] *)
Definition node_matrix (n : tnode) : mat4 :=
  match t_kind n with
  | TTranslate v => [FTranslate v]
  | TScale v => [FScale v]
  | TQuaternion q => [FQuaternion q]
  | TTransform m => m
  end.

(** A [xeogl.Entity] as the viewer sees it. *)
Record Object : Type := mkObject {
  o_metaType : option string;      (* object.meta.type *)
  o_visible : bool;
  o_alphaMode : string;            (* object.material.alphaMode *)
  o_alpha : Q;                     (* object.material.alpha *)
  o_diffuse : option vec3;         (* object.material.diffuse *)
  o_baseColor : option vec3;       (* object.material.baseColor *)
  o_clippable : bool;
  o_pickable : bool;
  o_outlined : bool;
  o_transform : nat;               (* object.transform *)
  o_center : vec3;                 (* object.worldBoundary.center *)
  o_aabb : aabb6                   (* object.worldBoundary.aabb *)
}.

(** The locator a model was loaded from: a file path or an opaque datum. *)
Inductive Src : Type :=
| SrcPath (path : string)
| SrcData (data : string).

Definition Src_eqb (a b : Src) : bool :=
  match a, b with
  | SrcPath x, SrcPath y => String.eqb x y
  | SrcData x, SrcData y => String.eqb x y
  | _, _ => false
  end.

(** A [xeogl.GLTFModel]. [m_entities] is [model.types["xeogl.Entity"]],
    absent until the model holds an entity; [m_graft] is the transform
    that the engine keeps between the chains of the model's entities and
    [model.transform]. *)
Record Model : Type := mkModel {
  m_src : option Src;              (* model.src *)
  m_entities : option (list string);
  m_transform : nat;               (* model.transform *)
  m_graft : nat;
  m_center : vec3;                 (* model.worldBoundary.center *)
  m_aabb : aabb6                   (* model.worldBoundary.aabb *)
}.

Inductive LightType : Type := Ambient | Dir | Point.

Record Light : Type := mkLight {
  l_type : LightType;
  l_color : option vec3;
  l_intensity : option Q;
  l_pos : option vec3;
  l_dir : option vec3;
  l_space : option string
}.

Record Clip : Type := mkClip {
  c_pos : option vec3;
  c_dir : option vec3;
  c_active : option bool
}.

Record Annotation : Type := mkAnnotation {
  a_entity : option string;        (* annotation.entity.id *)
  a_primIndex : nat;
  a_bary : option vec3;
  a_eye : option vec3;
  a_look : option vec3;
  a_up : option vec3;
  a_occludable : option bool;
  a_glyph : option string;
  a_title : option string;
  a_desc : option string;
  a_pinShown : option bool;
  a_labelShown : option bool
}.

(** Camera, projection, view-fit and outline settings. *)
Record Camera : Type := mkCamera {
  eye : vec3;
  look : vec3;
  up : vec3;
  gimbalLockY : bool;
  projectionType : string;
  perspectiveFOV : Q;
  perspectiveNear : Q;
  perspectiveFar : Q;
  orthoScale : Q;
  orthoNear : Q;
  orthoFar : Q;
  fitFOV : Q;                      (* cameraFlight.fitFOV *)
  viewFitFOV : option Q;           (* cameraFlight.viewFitFOV *)
  viewFitDuration : Q;             (* cameraFlight.duration *)
  outlineThickness : Q;
  outlineColor : vec3
}.

Inductive Event : Type :=
| EError (msg : string)            (* error(msg) *)
| EOk (arg : option string)        (* the [ok] callback of the caller *)
| ELoadedModel (id : string)       (* cfg.loadedModel(id, src, ..) *)
| EUnloadedModel (id : string).    (* cfg.unloadedModel(id) *)

(** Which of the optional callbacks [cfg.loadModel], [cfg.loadedModel] and
    [cfg.unloadedModel] the viewer was built with. *)
Record Hooks : Type := mkHooks {
  hook_loadModel : bool;
  hook_loadedModel : bool;
  hook_unloadedModel : bool
}.

(** ** The state of a viewer

    One field per variable of the closure of [xeometry.Viewer]
    (viewer.js:72-92), followed by the engine state the viewer reads. *)

Record State : Type := mkState {
  types : dict (dict unit);   (* types[type][objectId] *)
  models : dict Model;
  modelSrcs : dict Src;
  objects : dict Object;
  annotations : dict Annotation;
  objectAnnotations : dict (dict unit);
  eulerAngles : dict vec3;
  rotations : dict nat;   (* handle of the xeogl.Quaternion *)
  translations : dict nat;   (* handle of the xeogl.Translate *)
  scales : dict nat;   (* handle of the xeogl.Scale *)
  objectModels : dict string;   (* ID of the owning model *)
  transformable : dict unit;
  clips : dict Clip;
  clipHelpers : dict bool;   (* clipHelper.visible *)
  clipsDirty : bool;
  lights : dict Light;
  lightHelpers : dict bool;   (* lightHelper.visible *)
  lightsDirty : bool;
  arena : list tnode;   (* the engine's transform components *)
  sceneCenter : vec3;   (* scene.worldBoundary.center *)
  sceneAABB : aabb6;   (* scene.worldBoundary.aabb *)
  sceneDestroyed : bool;   (* scene.destroy() was called *)
  camera : Camera;
  hooks : Hooks;   (* the callbacks of cfg *)
  log : list Event
}.

(** Field updates. *)
Definition set_types (v : dict (dict unit)) (s : State) : State :=
  mkState v (models s) (modelSrcs s) (objects s) (annotations s)
    (objectAnnotations s) (eulerAngles s) (rotations s) (translations s)
    (scales s) (objectModels s) (transformable s) (clips s) (clipHelpers s)
    (clipsDirty s) (lights s) (lightHelpers s) (lightsDirty s) (arena s)
    (sceneCenter s) (sceneAABB s) (sceneDestroyed s) (camera s) (hooks s)
    (log s).

Definition set_models (v : dict Model) (s : State) : State :=
  mkState (types s) v (modelSrcs s) (objects s) (annotations s)
    (objectAnnotations s) (eulerAngles s) (rotations s) (translations s)
    (scales s) (objectModels s) (transformable s) (clips s) (clipHelpers s)
    (clipsDirty s) (lights s) (lightHelpers s) (lightsDirty s) (arena s)
    (sceneCenter s) (sceneAABB s) (sceneDestroyed s) (camera s) (hooks s)
    (log s).

Definition set_modelSrcs (v : dict Src) (s : State) : State :=
  mkState (types s) (models s) v (objects s) (annotations s)
    (objectAnnotations s) (eulerAngles s) (rotations s) (translations s)
    (scales s) (objectModels s) (transformable s) (clips s) (clipHelpers s)
    (clipsDirty s) (lights s) (lightHelpers s) (lightsDirty s) (arena s)
    (sceneCenter s) (sceneAABB s) (sceneDestroyed s) (camera s) (hooks s)
    (log s).

Definition set_objects (v : dict Object) (s : State) : State :=
  mkState (types s) (models s) (modelSrcs s) v (annotations s)
    (objectAnnotations s) (eulerAngles s) (rotations s) (translations s)
    (scales s) (objectModels s) (transformable s) (clips s) (clipHelpers s)
    (clipsDirty s) (lights s) (lightHelpers s) (lightsDirty s) (arena s)
    (sceneCenter s) (sceneAABB s) (sceneDestroyed s) (camera s) (hooks s)
    (log s).

Definition set_annotations (v : dict Annotation) (s : State) : State :=
  mkState (types s) (models s) (modelSrcs s) (objects s) v
    (objectAnnotations s) (eulerAngles s) (rotations s) (translations s)
    (scales s) (objectModels s) (transformable s) (clips s) (clipHelpers s)
    (clipsDirty s) (lights s) (lightHelpers s) (lightsDirty s) (arena s)
    (sceneCenter s) (sceneAABB s) (sceneDestroyed s) (camera s) (hooks s)
    (log s).

Definition set_objectAnnotations (v : dict (dict unit)) (s : State) : State :=
  mkState (types s) (models s) (modelSrcs s) (objects s) (annotations s) v
    (eulerAngles s) (rotations s) (translations s) (scales s) (objectModels
    s) (transformable s) (clips s) (clipHelpers s) (clipsDirty s) (lights s)
    (lightHelpers s) (lightsDirty s) (arena s) (sceneCenter s) (sceneAABB s)
    (sceneDestroyed s) (camera s) (hooks s) (log s).

Definition set_eulerAngles (v : dict vec3) (s : State) : State :=
  mkState (types s) (models s) (modelSrcs s) (objects s) (annotations s)
    (objectAnnotations s) v (rotations s) (translations s) (scales s)
    (objectModels s) (transformable s) (clips s) (clipHelpers s) (clipsDirty
    s) (lights s) (lightHelpers s) (lightsDirty s) (arena s) (sceneCenter s)
    (sceneAABB s) (sceneDestroyed s) (camera s) (hooks s) (log s).

Definition set_rotations (v : dict nat) (s : State) : State :=
  mkState (types s) (models s) (modelSrcs s) (objects s) (annotations s)
    (objectAnnotations s) (eulerAngles s) v (translations s) (scales s)
    (objectModels s) (transformable s) (clips s) (clipHelpers s) (clipsDirty
    s) (lights s) (lightHelpers s) (lightsDirty s) (arena s) (sceneCenter s)
    (sceneAABB s) (sceneDestroyed s) (camera s) (hooks s) (log s).

Definition set_translations (v : dict nat) (s : State) : State :=
  mkState (types s) (models s) (modelSrcs s) (objects s) (annotations s)
    (objectAnnotations s) (eulerAngles s) (rotations s) v (scales s)
    (objectModels s) (transformable s) (clips s) (clipHelpers s) (clipsDirty
    s) (lights s) (lightHelpers s) (lightsDirty s) (arena s) (sceneCenter s)
    (sceneAABB s) (sceneDestroyed s) (camera s) (hooks s) (log s).

Definition set_scales (v : dict nat) (s : State) : State :=
  mkState (types s) (models s) (modelSrcs s) (objects s) (annotations s)
    (objectAnnotations s) (eulerAngles s) (rotations s) (translations s) v
    (objectModels s) (transformable s) (clips s) (clipHelpers s) (clipsDirty
    s) (lights s) (lightHelpers s) (lightsDirty s) (arena s) (sceneCenter s)
    (sceneAABB s) (sceneDestroyed s) (camera s) (hooks s) (log s).

Definition set_objectModels (v : dict string) (s : State) : State :=
  mkState (types s) (models s) (modelSrcs s) (objects s) (annotations s)
    (objectAnnotations s) (eulerAngles s) (rotations s) (translations s)
    (scales s) v (transformable s) (clips s) (clipHelpers s) (clipsDirty s)
    (lights s) (lightHelpers s) (lightsDirty s) (arena s) (sceneCenter s)
    (sceneAABB s) (sceneDestroyed s) (camera s) (hooks s) (log s).

Definition set_transformable (v : dict unit) (s : State) : State :=
  mkState (types s) (models s) (modelSrcs s) (objects s) (annotations s)
    (objectAnnotations s) (eulerAngles s) (rotations s) (translations s)
    (scales s) (objectModels s) v (clips s) (clipHelpers s) (clipsDirty s)
    (lights s) (lightHelpers s) (lightsDirty s) (arena s) (sceneCenter s)
    (sceneAABB s) (sceneDestroyed s) (camera s) (hooks s) (log s).

Definition set_clips (v : dict Clip) (s : State) : State :=
  mkState (types s) (models s) (modelSrcs s) (objects s) (annotations s)
    (objectAnnotations s) (eulerAngles s) (rotations s) (translations s)
    (scales s) (objectModels s) (transformable s) v (clipHelpers s)
    (clipsDirty s) (lights s) (lightHelpers s) (lightsDirty s) (arena s)
    (sceneCenter s) (sceneAABB s) (sceneDestroyed s) (camera s) (hooks s)
    (log s).

Definition set_clipHelpers (v : dict bool) (s : State) : State :=
  mkState (types s) (models s) (modelSrcs s) (objects s) (annotations s)
    (objectAnnotations s) (eulerAngles s) (rotations s) (translations s)
    (scales s) (objectModels s) (transformable s) (clips s) v (clipsDirty s)
    (lights s) (lightHelpers s) (lightsDirty s) (arena s) (sceneCenter s)
    (sceneAABB s) (sceneDestroyed s) (camera s) (hooks s) (log s).

Definition set_clipsDirty (v : bool) (s : State) : State :=
  mkState (types s) (models s) (modelSrcs s) (objects s) (annotations s)
    (objectAnnotations s) (eulerAngles s) (rotations s) (translations s)
    (scales s) (objectModels s) (transformable s) (clips s) (clipHelpers s)
    v (lights s) (lightHelpers s) (lightsDirty s) (arena s) (sceneCenter s)
    (sceneAABB s) (sceneDestroyed s) (camera s) (hooks s) (log s).

Definition set_lights (v : dict Light) (s : State) : State :=
  mkState (types s) (models s) (modelSrcs s) (objects s) (annotations s)
    (objectAnnotations s) (eulerAngles s) (rotations s) (translations s)
    (scales s) (objectModels s) (transformable s) (clips s) (clipHelpers s)
    (clipsDirty s) v (lightHelpers s) (lightsDirty s) (arena s) (sceneCenter
    s) (sceneAABB s) (sceneDestroyed s) (camera s) (hooks s) (log s).

Definition set_lightHelpers (v : dict bool) (s : State) : State :=
  mkState (types s) (models s) (modelSrcs s) (objects s) (annotations s)
    (objectAnnotations s) (eulerAngles s) (rotations s) (translations s)
    (scales s) (objectModels s) (transformable s) (clips s) (clipHelpers s)
    (clipsDirty s) (lights s) v (lightsDirty s) (arena s) (sceneCenter s)
    (sceneAABB s) (sceneDestroyed s) (camera s) (hooks s) (log s).

Definition set_lightsDirty (v : bool) (s : State) : State :=
  mkState (types s) (models s) (modelSrcs s) (objects s) (annotations s)
    (objectAnnotations s) (eulerAngles s) (rotations s) (translations s)
    (scales s) (objectModels s) (transformable s) (clips s) (clipHelpers s)
    (clipsDirty s) (lights s) (lightHelpers s) v (arena s) (sceneCenter s)
    (sceneAABB s) (sceneDestroyed s) (camera s) (hooks s) (log s).

Definition set_arena (v : list tnode) (s : State) : State :=
  mkState (types s) (models s) (modelSrcs s) (objects s) (annotations s)
    (objectAnnotations s) (eulerAngles s) (rotations s) (translations s)
    (scales s) (objectModels s) (transformable s) (clips s) (clipHelpers s)
    (clipsDirty s) (lights s) (lightHelpers s) (lightsDirty s) v
    (sceneCenter s) (sceneAABB s) (sceneDestroyed s) (camera s) (hooks s)
    (log s).

Definition set_sceneCenter (v : vec3) (s : State) : State :=
  mkState (types s) (models s) (modelSrcs s) (objects s) (annotations s)
    (objectAnnotations s) (eulerAngles s) (rotations s) (translations s)
    (scales s) (objectModels s) (transformable s) (clips s) (clipHelpers s)
    (clipsDirty s) (lights s) (lightHelpers s) (lightsDirty s) (arena s) v
    (sceneAABB s) (sceneDestroyed s) (camera s) (hooks s) (log s).

Definition set_sceneAABB (v : aabb6) (s : State) : State :=
  mkState (types s) (models s) (modelSrcs s) (objects s) (annotations s)
    (objectAnnotations s) (eulerAngles s) (rotations s) (translations s)
    (scales s) (objectModels s) (transformable s) (clips s) (clipHelpers s)
    (clipsDirty s) (lights s) (lightHelpers s) (lightsDirty s) (arena s)
    (sceneCenter s) v (sceneDestroyed s) (camera s) (hooks s) (log s).

Definition set_sceneDestroyed (v : bool) (s : State) : State :=
  mkState (types s) (models s) (modelSrcs s) (objects s) (annotations s)
    (objectAnnotations s) (eulerAngles s) (rotations s) (translations s)
    (scales s) (objectModels s) (transformable s) (clips s) (clipHelpers s)
    (clipsDirty s) (lights s) (lightHelpers s) (lightsDirty s) (arena s)
    (sceneCenter s) (sceneAABB s) v (camera s) (hooks s) (log s).

Definition set_camera (v : Camera) (s : State) : State :=
  mkState (types s) (models s) (modelSrcs s) (objects s) (annotations s)
    (objectAnnotations s) (eulerAngles s) (rotations s) (translations s)
    (scales s) (objectModels s) (transformable s) (clips s) (clipHelpers s)
    (clipsDirty s) (lights s) (lightHelpers s) (lightsDirty s) (arena s)
    (sceneCenter s) (sceneAABB s) (sceneDestroyed s) v (hooks s) (log s).

Definition set_hooks (v : Hooks) (s : State) : State :=
  mkState (types s) (models s) (modelSrcs s) (objects s) (annotations s)
    (objectAnnotations s) (eulerAngles s) (rotations s) (translations s)
    (scales s) (objectModels s) (transformable s) (clips s) (clipHelpers s)
    (clipsDirty s) (lights s) (lightHelpers s) (lightsDirty s) (arena s)
    (sceneCenter s) (sceneAABB s) (sceneDestroyed s) (camera s) v (log s).

Definition set_log (v : list Event) (s : State) : State :=
  mkState (types s) (models s) (modelSrcs s) (objects s) (annotations s)
    (objectAnnotations s) (eulerAngles s) (rotations s) (translations s)
    (scales s) (objectModels s) (transformable s) (clips s) (clipHelpers s)
    (clipsDirty s) (lights s) (lightHelpers s) (lightsDirty s) (arena s)
    (sceneCenter s) (sceneAABB s) (sceneDestroyed s) (camera s) (hooks s) v.
Definition default (A : Type) (d : A) (v : option A) : A :=
  match v with Some x => x | None => d end.

(** [error(msg)] (viewer.js:3901) *)
Definition error (msg : string) (s : State) : State :=
  set_log (log s ++ [EError msg]) s.

Definition fire (e : Event) (s : State) : State :=
  set_log (log s ++ [e]) s.

(** Updates of an object in place. *)
Definition with_metaType (v : option string) (o : Object) : Object :=
  mkObject v (o_visible o) (o_alphaMode o) (o_alpha o) (o_diffuse o)
    (o_baseColor o) (o_clippable o) (o_pickable o) (o_outlined o)
    (o_transform o) (o_center o) (o_aabb o).

Definition with_visible (v : bool) (o : Object) : Object :=
  mkObject (o_metaType o) v (o_alphaMode o) (o_alpha o) (o_diffuse o)
    (o_baseColor o) (o_clippable o) (o_pickable o) (o_outlined o)
    (o_transform o) (o_center o) (o_aabb o).

Definition with_alpha (mode : string) (v : Q) (o : Object) : Object :=
  mkObject (o_metaType o) (o_visible o) mode v (o_diffuse o)
    (o_baseColor o) (o_clippable o) (o_pickable o) (o_outlined o)
    (o_transform o) (o_center o) (o_aabb o).

Definition with_diffuse (v : option vec3) (o : Object) : Object :=
  mkObject (o_metaType o) (o_visible o) (o_alphaMode o) (o_alpha o) v
    (o_baseColor o) (o_clippable o) (o_pickable o) (o_outlined o)
    (o_transform o) (o_center o) (o_aabb o).

Definition with_baseColor (v : option vec3) (o : Object) : Object :=
  mkObject (o_metaType o) (o_visible o) (o_alphaMode o) (o_alpha o)
    (o_diffuse o) v (o_clippable o) (o_pickable o) (o_outlined o)
    (o_transform o) (o_center o) (o_aabb o).

Definition with_clippable (v : bool) (o : Object) : Object :=
  mkObject (o_metaType o) (o_visible o) (o_alphaMode o) (o_alpha o)
    (o_diffuse o) (o_baseColor o) v (o_pickable o) (o_outlined o)
    (o_transform o) (o_center o) (o_aabb o).

Definition with_pickable (v : bool) (o : Object) : Object :=
  mkObject (o_metaType o) (o_visible o) (o_alphaMode o) (o_alpha o)
    (o_diffuse o) (o_baseColor o) (o_clippable o) v (o_outlined o)
    (o_transform o) (o_center o) (o_aabb o).

Definition with_outlined (v : bool) (o : Object) : Object :=
  mkObject (o_metaType o) (o_visible o) (o_alphaMode o) (o_alpha o)
    (o_diffuse o) (o_baseColor o) (o_clippable o) (o_pickable o) v
    (o_transform o) (o_center o) (o_aabb o).

Definition with_transform (v : nat) (o : Object) : Object :=
  mkObject (o_metaType o) (o_visible o) (o_alphaMode o) (o_alpha o)
    (o_diffuse o) (o_baseColor o) (o_clippable o) (o_pickable o)
    (o_outlined o) v (o_center o) (o_aabb o).

(** ** Arguments that name entities

    The ID-keyed operations take [undefined], one ID, or an array whose
    elements are again such arguments. *)
Inductive Ids : Type :=
| IUndefined
| IStr (id : string)
| IArr (ids : list Ids).

Definition strs (l : list string) : Ids := IArr (map IStr l).

(** Induction on an argument, with the elements of an array covered. *)
Section IdsInduction.
Variable P : Ids -> Prop.
Hypothesis case_undefined : P IUndefined.
Hypothesis case_string : forall id, P (IStr id).
Hypothesis case_array : forall l, Forall P l -> P (IArr l).

Fixpoint Ids_nested_ind (i : Ids) : P i :=
  match i with
  | IUndefined => case_undefined
  | IStr id => case_string id
  | IArr l =>
      case_array
        ((fix all (l : list Ids) : Forall P l :=
            match l with
            | [] => Forall_nil P
            | x :: rest => Forall_cons x (Ids_nested_ind x) (all rest)
            end) l)
  end.
End IdsInduction.

(** The option monad of the operations that can throw or diverge. *)
Notation "'do' x <- c ; k" :=
  (match c with Some x => k | None => None end)
  (at level 10, x name, c at level 100, k at level 200).

(** [for (i = 0; i < l.length; i++) step(l[i])] *)
Section Each.
Variable A : Type.
Variable step : A -> State -> option State.

Fixpoint each (l : list A) (s : State) : option State :=
  match l with
  | [] => Some s
  | x :: rest => do s1 <- step x s; each rest s1
  end.
End Each.

(** ** Models and objects *)

(** [meta && meta.type ? meta.type : "DEFAULT"]; every engine component
    carries a [meta] object, and the empty string is falsy. *)
Definition or_default (type : option string) : string :=
  match type with
  | Some t => if String.eqb t "" then "DEFAULT" else t
  | None => "DEFAULT"
  end.

Definition type_of (object : Object) : string := or_default (o_metaType object).

(** The inner loop of [getObjects] (viewer.js:396-402). *)
Fixpoint push_new (buf : list string) (got : dict unit) (result : list string)
  : dict unit * list string :=
  match buf with
  | [] => (got, result)
  | id2 :: rest =>
      match Dict.get id2 got with
      | Some _ => push_new rest got result
      | None => push_new rest (Dict.set id2 tt got) (result ++ [id2])
      end
  end.

(** The outer loop of [getObjects] (viewer.js:394-403), over the
    function that resolves one element. *)
Section Collect.
Variable resolve : Ids -> State -> list string * State.

Fixpoint collect (l : list Ids) (got : dict unit) (result : list string)
  (s : State) : list string * State :=
  match l with
  | [] => (result, s)
  | x :: rest =>
      let (buf, s1) := resolve x s in
      let (got1, result1) := push_new buf got result in
      collect rest got1 result1 s1
  end.
End Collect.

(** [getObjects] (viewer.js:367) *)
Fixpoint getObjects (id : Ids) (s : State) : list string * State :=
  match id with
  | IUndefined => (Dict.keys (objects s), s)
  | IStr id =>
      match Dict.get id (objects s) with
      | Some _ => ([id], s)
      | None =>
          match Dict.get id (types s) with
          | Some objectsOfType => (Dict.keys objectsOfType, s)
          | None =>
              match Dict.get id (models s) with
              | None => ([], error ("Model not found: " ++ id) s)
              | Some model =>
                  match m_entities model with
                  | None => ([], s)
                  | Some entities => (entities, s)
                  end
              end
          end
      end
  | IArr l => collect getObjects l Dict.empty [] s
  end.

(** [getModel] (viewer.js:332) *)
Definition getModel (id : string) (s : State) : option string * State :=
  match Dict.get id (objects s) with
  | None => (None, error ("Object not found: " ++ id) s)
  | Some _ =>
      match Dict.get id (objectModels s) with
      | None => (None, error ("Model not found for object: " ++ id) s)
      | Some model => (Some model, s)
      end
  end.

(** [setType] (viewer.js:438); [None] is the [TypeError] of
    [undefined.length]. *)
Fixpoint setType (id : Ids) (type : option string) (s : State) : option State :=
  match id with
  | IStr id =>
      let type := or_default type in
      match Dict.get id (objects s) with
      | Some object =>
          let currentType := type_of object in
          if String.eqb currentType type then Some s
          else
            let types1 :=
              match Dict.get currentType (types s) with
              | Some currentTypes =>
                  Dict.set currentType (Dict.del id currentTypes) (types s)
              | None => types s
              end in
            let newTypes :=
              match Dict.get type types1 with
              | Some b => b
              | None => Dict.empty
              end in
            let types2 := Dict.set type (Dict.set id tt newTypes) types1 in
            Some (set_objects
                    (Dict.set id (with_metaType (Some type) object) (objects s))
                    (set_types types2 s))
      | None =>
          match Dict.get id (models s) with
          | Some _ => Some s
          | None => Some (error ("Model, object or type not found: " ++ id) s)
          end
      end
  | IArr l => each (fun x => setType x type) l s
  | IUndefined => None
  end.

(** ** Lookups in object literals

    The maps of the viewer and the table [got] of [getObjects] are object
    literals (viewer.js:72-92, 393): [d[k]] also finds what
    [Object.prototype] hands down, and that is truthy for every name of
    [prototype_names].  [getObjects] and [setType] once more, with these
    lookups.  They agree with the functions above when no inherited name
    comes in. *)
Module Literal.

(** The inner loop of [getObjects] (viewer.js:396-402). *)
Fixpoint push_new (buf : list string) (got : dict unit) (result : list string)
  : dict unit * list string :=
  match buf with
  | [] => (got, result)
  | id2 :: rest =>
      if Dict.mem id2 got || inherited id2 then push_new rest got result
      else push_new rest (Dict.set id2 tt got) (result ++ [id2])
  end.

Section Collect.
Variable resolve : Ids -> State -> list string * State.

Fixpoint collect (l : list Ids) (got : dict unit) (result : list string)
  (s : State) : list string * State :=
  match l with
  | [] => (result, s)
  | x :: rest =>
      let (buf, s1) := resolve x s in
      let (got1, result1) := push_new buf got result in
      collect rest got1 result1 s1
  end.
End Collect.

(** [getObjects] (viewer.js:367).  When [objects[id]] is falsy, [id] is
    no inherited name, and the lookups that follow find own keys only. *)
Fixpoint getObjects (id : Ids) (s : State) : list string * State :=
  match id with
  | IUndefined => (Dict.keys (objects s), s)
  | IStr id =>
      if Dict.mem id (objects s) || inherited id then ([id], s)
      else
        match Dict.get id (types s) with
        | Some objectsOfType => (Dict.keys objectsOfType, s)
        | None =>
            match Dict.get id (models s) with
            | None => ([], error ("Model not found: " ++ id) s)
            | Some model =>
                match m_entities model with
                | None => ([], s)
                | Some entities => (entities, s)
                end
            end
        end
  | IArr l => collect getObjects l Dict.empty [] s
  end.

(** [setType] (viewer.js:438).  For an inherited name that is no object,
    [objects[id]] is the inherited property, which has no [meta]: its
    type is "DEFAULT", and for another type the assignment at line 454
    throws.  For a type that is an inherited name and has no bucket,
    [types[type]] is the inherited property: no bucket is made, and the
    object is written onto that property, outside the maps. *)
Fixpoint setType (id : Ids) (type : option string) (s : State) : option State :=
  match id with
  | IStr id =>
      let type := or_default type in
      match Dict.get id (objects s) with
      | Some object =>
          let currentType := type_of object in
          if String.eqb currentType type then Some s
          else
            let types1 :=
              match Dict.get currentType (types s) with
              | Some currentTypes =>
                  Dict.set currentType (Dict.del id currentTypes) (types s)
              | None => types s
              end in
            let types2 :=
              match Dict.get type types1 with
              | Some b => Dict.set type (Dict.set id tt b) types1
              | None =>
                  if inherited type then types1
                  else Dict.set type (Dict.set id tt Dict.empty) types1
              end in
            Some (set_objects
                    (Dict.set id (with_metaType (Some type) object) (objects s))
                    (set_types types2 s))
      | None =>
          if inherited id then
            if String.eqb "DEFAULT" type then Some s else None
          else
            match Dict.get id (models s) with
            | Some _ => Some s
            | None => Some (error ("Model, object or type not found: " ++ id) s)
            end
      end
  | IArr l => each (fun x => setType x type) l s
  | IUndefined => None
  end.
End Literal.

(** [getType] (viewer.js:479) *)
Definition getType (id : string) (s : State) : option string * State :=
  match Dict.get id (objects s) with
  | Some object => (Some (type_of object), s)
  | None => (None, error ("Object not found: " ++ id) s)
  end.

(** [getLights] (viewer.js:2957), [getClips] (2830), [getAnnotations]
    (2361), [getModels] (305) *)
Definition getLights (s : State) : list string := Dict.keys (lights s).
Definition getClips (s : State) : list string := Dict.keys (clips s).
Definition getAnnotations (s : State) : list string := Dict.keys (annotations s).
Definition getModels (s : State) : list string := Dict.keys (models s).

(** ** Operations on the objects an argument resolves to

    [setVisible] (viewer.js:931), [setOpacity] (996), [setColor] (1069),
    [setClippable] (1201), [setPickable] (1295) and [setOutline] (1367) are
    one function up to three places: the assignment in the object branch,
    the branches tried between the object lookup and the model lookup
    (lights and clip helpers in [setVisible], lights in [setColor], none in
    the others), and what an undefined argument stands for besides all
    objects (lights and clips in [setVisible]). *)
Section Setter.
Variable assign : Object -> Object.
Variable other : string -> State -> option State.
Variable also : list (State -> list string).

Fixpoint apply_ids (fuel : nat) (ids : Ids) (s : State) : option State :=
  match fuel with
  | O => None
  | S n =>
      match ids with
      | IUndefined =>
          let (all, s1) := getObjects IUndefined s in
          do s2 <- apply_ids n (strs all) s1;
          each (fun f s => apply_ids n (strs (f s)) s) also s2
      | IStr id =>
          match Dict.get id (objects s) with
          | Some object =>
              Some (set_objects (Dict.set id (assign object) (objects s)) s)
          | None =>
              match other id s with
              | Some s1 => Some s1
              | None =>
                  match Dict.get id (models s) with
                  | None =>
                      match Dict.get id (types s) with
                      | Some objectsOfType =>
                          let typeIds := Dict.keys objectsOfType in
                          match typeIds with
                          | [] => Some s
                          | _ => apply_ids n (strs typeIds) s
                          end
                      | None =>
                          Some (error ("Model, object or type not found: "
                                       ++ id) s)
                      end
                  | Some _ =>
                      let (ids1, s1) := getObjects (IStr id) s in
                      apply_ids n (strs ids1) s1
                  end
              end
          end
      | IArr l => each (apply_ids n) l s
      end
  end.
End Setter.

Definition no_other (id : string) (s : State) : option State := None.

(** The light and clip-helper branches of [setVisible] (viewer.js:945-957) *)
Definition visible_other (visible : bool) (id : string) (s : State)
  : option State :=
  match Dict.get id (lights s) with
  | Some _ =>
      match Dict.get id (lightHelpers s) with
      | Some _ => Some (set_lightHelpers (Dict.set id visible (lightHelpers s)) s)
      | None => Some s
      end
  | None =>
      match Dict.get id (clipHelpers s) with
      | Some _ => Some (set_clipHelpers (Dict.set id visible (clipHelpers s)) s)
      | None => None
      end
  end.

Definition setVisible (fuel : nat) (ids : Ids) (visible : bool) :=
  apply_ids (with_visible visible) (visible_other visible)
    [getLights; getClips] fuel ids.

(** [show] (viewer.js:898), [hide] (926) *)
Definition show (fuel : nat) (ids : Ids) := setVisible fuel ids true.
Definition hide (fuel : nat) (ids : Ids) := setVisible fuel ids false.

(** [setOpacity] (viewer.js:996) *)
Definition opacity_assign (opacity : Q) (object : Object) : Object :=
  with_alpha (if Qlt_le_dec opacity 1 then "blend" else "opaque") opacity object.

Definition setOpacity (fuel : nat) (ids : Ids) (opacity : option Q) :=
  let opacity := match opacity with Some v => v | None => 1 end in
  apply_ids (opacity_assign opacity) no_other [] fuel ids.

(** [getOpacity] (viewer.js:1043) *)
Definition getOpacity (id : string) (s : State) : Q * State :=
  match Dict.get id (objects s) with
  | None => (1, error ("Model, object or type not found: " ++ id) s)
  | Some object => (o_alpha object, s)
  end.

(** [setColor] (viewer.js:1069) *)
Definition color_assign (color : vec3) (object : Object) : Object :=
  match o_diffuse object with
  | Some _ => with_diffuse (Some color) object
  | None => with_baseColor (Some color) object
  end.

Definition with_color (v : option vec3) (l : Light) : Light :=
  mkLight (l_type l) v (l_intensity l) (l_pos l) (l_dir l) (l_space l).

Definition color_other (color : vec3) (id : string) (s : State)
  : option State :=
  match Dict.get id (lights s) with
  | Some light =>
      Some (set_lights (Dict.set id (with_color (Some color) light) (lights s)) s)
  | None => None
  end.

Definition setColor (fuel : nat) (ids : Ids) (color : option vec3) :=
  let color := match color with Some v => v | None => (1, 1, 1) end in
  apply_ids (color_assign color) (color_other color) [] fuel ids.

(** [getColor] (viewer.js:1125); the light's colour is the one it was
    given, [None] standing for the engine's default. *)
Definition getColor (id : string) (s : State) : option vec3 * State :=
  match Dict.get id (objects s) with
  | Some object =>
      (Some match o_diffuse object with
            | Some c => c
            | None => match o_baseColor object with
                      | Some c => c
                      | None => (1, 1, 1)
                      end
            end, s)
  | None =>
      match Dict.get id (lights s) with
      | Some light => (l_color light, s)
      | None => (None, error ("Object or light not found: " ++ id) s)
      end
  end.

(** The private [setClippable] (viewer.js:1201), [setPickable] (1295) and
    [setOutline] (1367) *)
Definition setClippable_ (fuel : nat) (ids : Ids) (clippable : bool) :=
  apply_ids (with_clippable clippable) no_other [] fuel ids.

Definition setPickable_ (fuel : nat) (ids : Ids) (pickable : bool) :=
  apply_ids (with_pickable pickable) no_other [] fuel ids.

Definition setOutline (fuel : nat) (ids : Ids) (outline : bool) :=
  apply_ids (with_outlined outline) no_other [] fuel ids.

(** The public methods (viewer.js:1166, 1196, 1262, 1290, 1345, 1362);
    they take the IDs only. *)
Definition setClippable (fuel : nat) (ids : Ids) := setClippable_ fuel ids true.
Definition setUnclippable (fuel : nat) (ids : Ids) := setClippable_ fuel ids false.
Definition setPickable (fuel : nat) (ids : Ids) := setPickable_ fuel ids true.
Definition setUnpickable (fuel : nat) (ids : Ids) := setPickable_ fuel ids false.
Definition showOutline (fuel : nat) (ids : Ids) := setOutline fuel ids true.
Definition hideOutline (fuel : nat) (ids : Ids) := setOutline fuel ids false.

(** ** Transforms *)

(** Allocation of an engine transform: [new xeogl.Translate(..)] and
    the like.  The constructors copy the vectors they are given. *)
Definition alloc (n : tnode) (s : State) : nat * State :=
  (length (arena s), set_arena (arena s ++ [n]) s).

Definition node (h : nat) (s : State) : option tnode := nth_error (arena s) h.

Fixpoint update_nth (A : Type) (i : nat) (f : A -> A) (l : list A) : list A :=
  match l, i with
  | [], _ => []
  | x :: r, O => f x :: r
  | x :: r, S j => x :: update_nth j f r
  end.

Definition with_parent (p : option nat) (n : tnode) : tnode :=
  mkNode (t_kind n) p.

(** [transform.xyz = xyz] on a [xeogl.Translate] or [xeogl.Scale] *)
Definition with_xyz (xyz : vec3) (n : tnode) : tnode :=
  match t_kind n with
  | TTranslate _ => mkNode (TTranslate xyz) (t_parent n)
  | TScale _ => mkNode (TScale xyz) (t_parent n)
  | _ => n
  end.

(** [rotation.xyzw = quat] *)
Definition with_xyzw (q : quat) (n : tnode) : tnode :=
  match t_kind n with
  | TQuaternion _ => mkNode (TQuaternion q) (t_parent n)
  | _ => n
  end.

(** [transform.xyz] *)
Definition node_xyz (n : tnode) : option vec3 :=
  match t_kind n with
  | TTranslate v => Some v
  | TScale v => Some v
  | _ => None
  end.

Definition update_node (h : nat) (f : tnode -> tnode) (s : State) : State :=
  set_arena (update_nth h f (arena s)) s.

Definition with_m_transform (h : nat) (m : Model) : Model :=
  mkModel (m_src m) (m_entities m) h (m_graft m) (m_center m) (m_aabb m).

Definition with_m_src (v : option Src) (m : Model) : Model :=
  mkModel v (m_entities m) (m_transform m) (m_graft m) (m_center m) (m_aabb m).

Definition with_m_entities (v : option (list string)) (m : Model) : Model :=
  mkModel (m_src m) v (m_transform m) (m_graft m) (m_center m) (m_aabb m).

(** The component that [getComponent] finds. *)
Inductive Component : Type :=
| CObject (object : Object)
| CModel (model : Model).

Definition component_center (c : Component) : vec3 :=
  match c with
  | CObject o => o_center o
  | CModel m => m_center m
  end.

(** [component.transform = h].  On a model the engine also hangs the
    transform above the chains of the entities the model holds, through
    the model's graft node. *)
Definition assign_transform (id : string) (c : Component) (h : nat) (s : State)
  : State :=
  match c with
  | CObject o => set_objects (Dict.set id (with_transform h o) (objects s)) s
  | CModel m =>
      update_node (m_graft m) (with_parent (Some h))
        (set_models (Dict.set id (with_m_transform h m) (models s)) s)
  end.

(** [getComponent] (viewer.js:802) *)
Definition getComponent (id : string) (s : State) : option Component :=
  match Dict.get id (objects s) with
  | Some o => Some (CObject o)
  | None =>
      match Dict.get id (models s) with
      | Some m => Some (CModel m)
      | None => None
      end
  end.

(** [buildModelTransform] (viewer.js:810); [id] is [model.id]. *)
Definition buildModelTransform (id : string) (model : Component) (s : State)
  : State :=
  let modelCenter := component_center model in
  let offset := subVec3 modelCenter (sceneCenter s) in
  let negOffset := mulVec3Scalar offset (-1) in
  let (h0, s) := alloc (mkNode (TTranslate offset) None) s in
  let (h1, s) := alloc (mkNode (TTranslate (0, 0, 0)) (Some h0)) s in
  let s := set_translations (Dict.set id h1 (translations s)) s in
  let (h2, s) := alloc (mkNode (TQuaternion QuatIdentity) (Some h1)) s in
  let s := set_rotations (Dict.set id h2 (rotations s)) s in
  let (h3, s) := alloc (mkNode (TScale (1, 1, 1)) (Some h2)) s in
  let s := set_scales (Dict.set id h3 (scales s)) s in
  let (h4, s) := alloc (mkNode (TTranslate negOffset) (Some h3)) s in
  let s := assign_transform id model h4 s in
  set_transformable (Dict.set id tt (transformable s)) s.

(** The loop of [buildObjectTransform] (viewer.js:848): from [h] up the
    parents until the transform of the model is met.  Reading [.id] off a
    missing parent throws; a chain longer than [fuel] is a cycle. *)
Fixpoint bake (fuel : nat) (h target : nat) (matrix : mat4) (s : State)
  : option mat4 :=
  match fuel with
  | O => None
  | S n =>
      if Nat.eqb h target then Some matrix
      else
        do transform <- node h s;
        match t_parent transform with
        | Some p => bake n p target (mulMat4 matrix (node_matrix transform)) s
        | None => None
        end
  end.

(** [buildObjectTransform] (viewer.js:835); [objectId] is [object.id]. *)
Definition buildObjectTransform (objectId : string) (object : Object)
  (s : State) : option State :=
  do modelId <- Dict.get objectId (objectModels s);
  do model <- Dict.get modelId (models s);
  let offset := subVec3 (o_center object) (sceneCenter s) in
  let negOffset := mulVec3Scalar offset (-1) in
  let modelTransform := m_transform model in
  do matrix <- bake (S (length (arena s))) (o_transform object) modelTransform
                 identityMat4 s;
  let (h0, s) := alloc (mkNode (TTranslate offset) (Some modelTransform)) s in
  let (h1, s) := alloc (mkNode (TTranslate (0, 0, 0)) (Some h0)) s in
  let s := set_translations (Dict.set objectId h1 (translations s)) s in
  let (h2, s) := alloc (mkNode (TQuaternion QuatIdentity) (Some h1)) s in
  let s := set_rotations (Dict.set objectId h2 (rotations s)) s in
  let (h3, s) := alloc (mkNode (TScale (1, 1, 1)) (Some h2)) s in
  let s := set_scales (Dict.set objectId h3 (scales s)) s in
  let (h4, s) := alloc (mkNode (TTranslate negOffset) (Some h3)) s in
  let (h5, s) := alloc (mkNode (TTransform matrix) (Some h4)) s in
  let s := assign_transform objectId (CObject object) h5 s in
  Some (set_transformable (Dict.set objectId tt (transformable s)) s).

(** [getTransformableComponent] (viewer.js:786); the boolean tells whether
    a component was returned. *)
Definition getTransformableComponent (id : string) (s : State)
  : option (bool * State) :=
  match getComponent id s with
  | None => Some (false, s)
  | Some component =>
      match Dict.get id (transformable s) with
      | Some _ => Some (true, s)
      | None =>
          match Dict.get id (models s), component with
          | Some _, _ => Some (true, buildModelTransform id component s)
          | None, CObject object =>
              do s1 <- buildObjectTransform id object s; Some (true, s1)
          | None, CModel _ => None
          end
      end
  end.

(** The common opening of the transform accessors (viewer.js:574-582,
    608-616, 642-650, 709-717, 739-747, 774-782): the handle registered
    for [id] in [table], after building the transforms of [id] when there
    is none.  The outer option is failure; the inner one is absent when
    [id] names no component. *)
Definition transform_of (table : State -> dict nat) (id : string) (s : State)
  : option (option nat * State) :=
  match Dict.get id (table s) with
  | Some h => Some (Some h, s)
  | None =>
      do r <- getTransformableComponent id s;
      let (found, s1) := r in
      if found then
        do h <- Dict.get id (table s1); Some (Some h, s1)
      else Some (None, error ("Model or object not found: " ++ id) s1)
  end.

(** [setScale] (viewer.js:572) *)
Fixpoint setScale (id : Ids) (xyz : vec3) (s : State) : option State :=
  match id with
  | IStr id =>
      do r <- transform_of scales id s;
      match r with
      | (Some scale, s1) => Some (update_node scale (with_xyz xyz) s1)
      | (None, s1) => Some s1
      end
  | IArr l => each (fun x => setScale x xyz) l s
  | IUndefined => None
  end.

(** The [xyz] of a registered transform. *)
Definition read_xyz (h : nat) (s : State) : option vec3 :=
  do n <- node h s; node_xyz n.

(** [getScale] (viewer.js:607); the value is absent when the ID names no
    component (the source then returns the viewer). *)
Definition getScale (id : string) (s : State) : option (option vec3 * State) :=
  do r <- transform_of scales id s;
  match r with
  | (Some scale, s1) => do xyz <- read_xyz scale s1; Some (Some xyz, s1)
  | (None, s1) => Some (None, s1)
  end.

(** [setRotate] (viewer.js:638) *)
Fixpoint setRotate (id : Ids) (xyz : vec3) (s : State) : option State :=
  match id with
  | IStr id =>
      do r <- transform_of rotations id s;
      match r with
      | (Some rotation, s1) =>
          let s2 := update_node rotation (with_xyzw (QuatOfEuler xyz)) s1 in
          Some (set_eulerAngles (Dict.set id xyz (eulerAngles s2)) s2)
      | (None, s1) => Some s1
      end
  | IArr l => each (fun x => setRotate x xyz) l s
  | IUndefined => None
  end.

(** [getRotate] (viewer.js:681); the value is absent when the ID names no
    component (the source then returns [0]). *)
Definition getRotate (id : string) (s : State) : option (option vec3 * State) :=
  do r <- getTransformableComponent id s;
  let (found, s1) := r in
  if found then
    match Dict.get id (eulerAngles s1) with
    | Some angles => Some (Some angles, s1)
    | None => Some (Some (0, 0, 0), s1)
    end
  else Some (None, error ("Model or object not found: " ++ id) s1).

(** [setTranslate] (viewer.js:707) *)
Fixpoint setTranslate (id : Ids) (xyz : vec3) (s : State) : option State :=
  match id with
  | IStr id =>
      do r <- transform_of translations id s;
      match r with
      | (Some translation, s1) => Some (update_node translation (with_xyz xyz) s1)
      | (None, s1) => Some s1
      end
  | IArr l => each (fun x => setTranslate x xyz) l s
  | IUndefined => None
  end.

(** [addTranslate] (viewer.js:737) *)
Fixpoint addTranslate (id : Ids) (xyz : vec3) (s : State) : option State :=
  match id with
  | IStr id =>
      do r <- transform_of translations id s;
      match r with
      | (Some translation, s1) =>
          do xyzOld <- read_xyz translation s1;
          let '(o0, o1, o2) := xyzOld in
          let '(x0, x1, x2) := xyz in
          Some (update_node translation
                  (with_xyz (o0 + x0, o1 + x1, o2 + x2)) s1)
      | (None, s1) => Some s1
      end
  | IArr l => each (fun x => addTranslate x xyz) l s
  | IUndefined => None
  end.

(** [getTranslate] (viewer.js:773); the value is absent when the ID names
    no component (the source then returns [0]). *)
Definition getTranslate (id : string) (s : State)
  : option (option vec3 * State) :=
  do r <- transform_of translations id s;
  match r with
  | (Some translation, s1) =>
      do xyz <- read_xyz translation s1; Some (Some xyz, s1)
  | (None, s1) => Some (None, s1)
  end.

(** ** Lights, clip planes, annotations *)

(** [scene.components[id]], for the IDs that the viewer hands out. *)
Inductive SceneComponent : Type :=
| SObject (object : Object)
| SModel (model : Model)
| SLight (light : Light)
| SClip (clip : Clip)
| SAnnotation (annotation : Annotation).

Definition scene_component (id : string) (s : State) : option SceneComponent :=
  match Dict.get id (objects s) with
  | Some o => Some (SObject o)
  | None =>
  match Dict.get id (models s) with
  | Some m => Some (SModel m)
  | None =>
  match Dict.get id (lights s) with
  | Some l => Some (SLight l)
  | None =>
  match Dict.get id (clips s) with
  | Some c => Some (SClip c)
  | None =>
  match Dict.get id (annotations s) with
  | Some a => Some (SAnnotation a)
  | None => None
  end end end end end.

Record LightCfg : Type := mkLightCfg {
  lc_type : option string;
  lc_color : option vec3;
  lc_intensity : option Q;
  lc_pos : option vec3;
  lc_dir : option vec3;
  lc_space : option string;
  lc_shown : option bool
}.

Definition truthy (b : option bool) : bool :=
  match b with Some true => true | _ => false end.

(** The light that [createLight] makes of a configuration
    (viewer.js:2913-2941). *)
Definition make_light (type : string) (cfg : LightCfg) : Light :=
  if String.eqb type "ambient" then
    mkLight Ambient (lc_color cfg) (lc_intensity cfg) None None None
  else if String.eqb type "point" then
    mkLight Point (lc_color cfg) (lc_intensity cfg) (lc_pos cfg) None
      (lc_space cfg)
  else
    mkLight Dir (lc_color cfg) (lc_intensity cfg) None (lc_dir cfg)
      (lc_space cfg).

(** [createLight] (viewer.js:2902) *)
Definition createLight (fuel : nat) (id : string) (cfg : option LightCfg)
  (s : State) : option State :=
  match scene_component id s with
  | Some _ => Some (error ("Component with this ID already exists: " ++ id) s)
  | None =>
      match cfg with
      | None => Some (error "Light configuration expected" s)
      | Some cfg =>
          let type := match lc_type cfg with
                      | Some t => if String.eqb t "" then "dir" else t
                      | None => "dir"
                      end in
          let s :=
            if String.eqb type "ambient" || String.eqb type "point"
               || String.eqb type "dir"
            then s
            else error ("Light type not recognized: " ++ type
                        ++ " - defaulting to 'dir'") s in
          let light := make_light type cfg in
          let s := set_lights (Dict.set id light (lights s)) s in
          let s := set_lightsDirty true s in
          if truthy (lc_shown cfg) then show fuel (IStr id) s
          else hide fuel (IStr id) s
      end
  end.

Record ClipCfg : Type := mkClipCfg {
  cc_pos : option vec3;
  cc_dir : option vec3;
  cc_active : option bool;
  cc_shown : option bool
}.

(** [createClip] (viewer.js:2797); a new helper is visible. *)
Definition createClip (fuel : nat) (id : string) (cfg : option ClipCfg)
  (s : State) : option State :=
  match scene_component id s with
  | Some _ => Some (error ("Component with this ID already exists: " ++ id) s)
  | None =>
      match cfg with
      | None => Some (error "Clip configuration expected" s)
      | Some cfg =>
          let clip := mkClip (cc_pos cfg) (cc_dir cfg) (cc_active cfg) in
          let s := set_clips (Dict.set id clip (clips s)) s in
          let s := set_clipHelpers (Dict.set id true (clipHelpers s)) s in
          let s := set_clipsDirty true s in
          if truthy (cc_shown cfg) then show fuel (IStr id) s
          else hide fuel (IStr id) s
      end
  end.

Record AnnotationCfg : Type := mkAnnotationCfg {
  ac_object : option string;
  ac_primIndex : option nat;
  ac_bary : option vec3;
  ac_eye : option vec3;
  ac_look : option vec3;
  ac_up : option vec3;
  ac_occludable : option bool;
  ac_glyph : option string;
  ac_title : option string;
  ac_desc : option string;
  ac_pinShown : option bool;
  ac_labelShown : option bool
}.

(** [createAnnotation] (viewer.js:2308) *)
Definition createAnnotation (id : string) (cfg : option AnnotationCfg)
  (s : State) : State :=
  match scene_component id s with
  | Some _ => error ("Component with this ID already exists: " ++ id) s
  | None =>
      match cfg with
      | None => error "Annotation configuration expected" s
      | Some cfg =>
          match ac_object cfg with
          | None => error "Annotation property expected: objectId" s
          | Some objectId =>
              match Dict.get objectId (objects s) with
              | None => error ("Object not found: " ++ objectId) s
              | Some _ =>
                  match ac_primIndex cfg with
                  | None => error "Annotation property expected: primIndex" s
                  | Some primIndex =>
                      let annotation :=
                        mkAnnotation (Some objectId) primIndex (ac_bary cfg)
                          (ac_eye cfg) (ac_look cfg) (ac_up cfg)
                          (ac_occludable cfg) (ac_glyph cfg) (ac_title cfg)
                          (ac_desc cfg) (ac_pinShown cfg) (ac_labelShown cfg) in
                      let s := set_annotations
                                 (Dict.set id annotation (annotations s)) s in
                      let oa := match Dict.get objectId (objectAnnotations s) with
                                | Some oa => oa
                                | None => Dict.empty
                                end in
                      set_objectAnnotations
                        (Dict.set objectId (Dict.set id tt oa)
                           (objectAnnotations s)) s
                  end
              end
          end
      end
  end.

(** An ID between double quotes, as the messages of the accessors of
    annotations, clips and lights have it. *)
Definition quoted (id : string) : string :=
  String "034"%char (id ++ String "034"%char "").

Definition with_a_entity (v : option string) (a : Annotation) : Annotation :=
  mkAnnotation v (a_primIndex a) (a_bary a) (a_eye a) (a_look a) (a_up a)
    (a_occludable a) (a_glyph a) (a_title a) (a_desc a) (a_pinShown a)
    (a_labelShown a).

(** [setAnnotationObject] (viewer.js:2556) *)
Definition setAnnotationObject (id objectId : string) (s : State) : State :=
  match Dict.get id (annotations s) with
  | None => error ("Annotation not found: " ++ quoted id) s
  | Some annotation =>
      match Dict.get objectId (objects s) with
      | None => error ("Object not found: " ++ quoted objectId) s
      | Some _ =>
          set_annotations
            (Dict.set id (with_a_entity (Some objectId) annotation)
               (annotations s)) s
      end
  end.

(** ** Destruction *)

(** [!id] *)
Definition falsy (id : Ids) : bool :=
  match id with
  | IUndefined => true
  | IStr str => String.eqb str ""
  | IArr _ => false
  end.

(** [id[0]], .., [id[id.length - 1]] of a string. *)
Definition chars (str : string) : list Ids :=
  map (fun c => IStr (String c EmptyString)) (list_ascii_of_string str).

(** The branch of [destroy] that destroys everything (viewer.js:3248). *)
Definition destroy_all (s : State) : State :=
  let s := set_sceneDestroyed true s in
  let s := set_models Dict.empty s in
  let s := set_objects Dict.empty s in
  let s := set_objectModels Dict.empty s in
  let s := set_eulerAngles Dict.empty s in
  let s := set_transformable Dict.empty s in
  let s := set_translations Dict.empty s in
  let s := set_rotations Dict.empty s in
  let s := set_scales Dict.empty s in
  let s := set_annotations Dict.empty s in
  let s := set_objectAnnotations Dict.empty s in
  let s := set_clips Dict.empty s in
  set_clipHelpers Dict.empty s.

(** One round of the loop over the entities of a model
    (viewer.js:3322-3345).  [aabbHelpers] is written nowhere in the viewer,
    so the helper lookups find nothing. *)
Definition destroy_entity (s : State) (objectId : string) : State :=
  let type := match Dict.get objectId (objects s) with
              | Some entity => type_of entity
              | None => "DEFAULT"
              end in
  let s := match Dict.get type (types s) with
           | Some objectsOfType =>
               set_types (Dict.set type (Dict.del objectId objectsOfType)
                            (types s)) s
           | None => s
           end in
  let s := set_objects (Dict.del objectId (objects s)) s in
  let s := set_objectModels (Dict.del objectId (objectModels s)) s in
  let s := set_eulerAngles (Dict.del objectId (eulerAngles s)) s in
  let s := set_transformable (Dict.del objectId (transformable s)) s in
  let s := set_translations (Dict.del objectId (translations s)) s in
  let s := set_rotations (Dict.del objectId (rotations s)) s in
  set_scales (Dict.del objectId (scales s)) s.

(** The model branch of [destroy] (viewer.js:3314-3365). *)
Definition destroy_model (id : string) (model : Model) (s : State) : State :=
  let entities := match m_entities model with Some l => l | None => [] end in
  let s := fold_left destroy_entity entities s in
  let s := set_models (Dict.del id (models s)) s in
  let s := set_modelSrcs (Dict.del id (modelSrcs s)) s in
  let s := set_eulerAngles (Dict.del id (eulerAngles s)) s in
  let s := set_transformable (Dict.del id (transformable s)) s in
  let s := set_translations (Dict.del id (translations s)) s in
  let s := set_rotations (Dict.del id (rotations s)) s in
  let s := set_scales (Dict.del id (scales s)) s in
  if hook_unloadedModel (hooks s) then fire (EUnloadedModel id) s else s.

(** [destroy] (viewer.js:3246).  A string that names nothing falls through
    to the loop at the end, which runs over its characters. *)
Fixpoint destroy (fuel : nat) (id : Ids) (s : State) : option State :=
  match fuel with
  | O => None
  | S n =>
      if falsy id then Some (destroy_all s)
      else
        match id with
        | IStr id =>
            match Dict.get id (annotations s) with
            | Some annotation =>
                do s1 <- match a_entity annotation with
                         | Some entityId =>
                             do oa <- Dict.get entityId (objectAnnotations s);
                             Some (set_objectAnnotations
                                     (Dict.set entityId (Dict.del id oa)
                                        (objectAnnotations s)) s)
                         | None => Some s
                         end;
                Some (set_annotations (Dict.del id (annotations s1)) s1)
            | None =>
            match Dict.get id (lights s) with
            | Some light =>
                do s1 <- hide n (IStr id) s;
                let s2 := set_lights (Dict.del id (lights s1)) s1 in
                let s3 := match Dict.get id (lightHelpers s2) with
                          | Some _ =>
                              set_lightHelpers (Dict.del id (lightHelpers s2)) s2
                          | None => s2
                          end in
                Some (set_lightsDirty true s3)
            | None =>
            match Dict.get id (clips s) with
            | Some clip =>
                do s1 <- hide n (IStr id) s;
                let s2 := set_clips (Dict.del id (clips s1)) s1 in
                let s3 := match Dict.get id (clipHelpers s2) with
                          | Some _ =>
                              set_clipHelpers (Dict.del id (clipHelpers s2)) s2
                          | None => s2
                          end in
                Some (set_clipsDirty true s3)
            | None =>
            match Dict.get id (models s) with
            | Some model => Some (destroy_model id model s)
            | None => each (destroy n) (chars id) s
            end end end end
        | IArr l => each (destroy n) l s
        | IUndefined => Some (destroy_all s)
        end
  end.

(** How a call of [destroy] ends: it returns, it throws a [TypeError], or
    the recursion goes on for as long as the budget lasts. *)
Inductive Outcome : Type :=
| Returns (s : State)
| Throws
| Exhausted.

Definition returned (o : Outcome) : option State :=
  match o with
  | Returns s => Some s
  | _ => None
  end.

Section EachOutcome.
Variable A : Type.
Variable step : A -> State -> Outcome.

Fixpoint each_outcome (l : list A) (s : State) : Outcome :=
  match l with
  | [] => Returns s
  | x :: rest =>
      match step x s with
      | Returns s1 => each_outcome rest s1
      | Throws => Throws
      | Exhausted => Exhausted
      end
  end.
End EachOutcome.

(** [destroy] (viewer.js:3246) once more, with the two ways of not
    returning told apart.  It throws at the [delete] of the annotation
    branch (3273), when [objectAnnotations] has no entry for the object of
    the annotation, and at [annotation.destroy()] (3275) for an inherited
    name, under which [annotations[id]] finds what [Object.prototype]
    hands down.  [hide] does not throw on a string that names a light or
    a clip plane, so that without a result of [hide] the budget is what
    ran out. *)
Fixpoint destroy_outcome (fuel : nat) (id : Ids) (s : State) : Outcome :=
  match fuel with
  | O => Exhausted
  | S n =>
      if falsy id then Returns (destroy_all s)
      else
        match id with
        | IStr id =>
            match Dict.get id (annotations s) with
            | Some annotation =>
                match a_entity annotation with
                | Some entityId =>
                    match Dict.get entityId (objectAnnotations s) with
                    | Some oa =>
                        let s1 := set_objectAnnotations
                                    (Dict.set entityId (Dict.del id oa)
                                       (objectAnnotations s)) s in
                        Returns (set_annotations
                                   (Dict.del id (annotations s1)) s1)
                    | None => Throws
                    end
                | None =>
                    Returns (set_annotations (Dict.del id (annotations s)) s)
                end
            | None =>
            if inherited id then Throws else
            match Dict.get id (lights s) with
            | Some light =>
                match hide n (IStr id) s with
                | Some s1 =>
                    let s2 := set_lights (Dict.del id (lights s1)) s1 in
                    let s3 := match Dict.get id (lightHelpers s2) with
                              | Some _ =>
                                  set_lightHelpers
                                    (Dict.del id (lightHelpers s2)) s2
                              | None => s2
                              end in
                    Returns (set_lightsDirty true s3)
                | None => Exhausted
                end
            | None =>
            match Dict.get id (clips s) with
            | Some clip =>
                match hide n (IStr id) s with
                | Some s1 =>
                    let s2 := set_clips (Dict.del id (clips s1)) s1 in
                    let s3 := match Dict.get id (clipHelpers s2) with
                              | Some _ =>
                                  set_clipHelpers
                                    (Dict.del id (clipHelpers s2)) s2
                              | None => s2
                              end in
                    Returns (set_clipsDirty true s3)
                | None => Exhausted
                end
            | None =>
            match Dict.get id (models s) with
            | Some model => Returns (destroy_model id model s)
            | None => each_outcome (destroy_outcome n) (chars id) s
            end end end end
        | IArr l => each_outcome (destroy_outcome n) l s
        | IUndefined => Returns (destroy_all s)
        end
  end.

(** [destroyAnnotations] (viewer.js:2370), [destroyClips] (2838),
    [destroyLights] (2966) *)
Definition destroyAnnotations (fuel : nat) (s : State) : option State :=
  destroy fuel (strs (getAnnotations s)) s.

Definition destroyClips (fuel : nat) (s : State) : option State :=
  destroy fuel (strs (getClips s)) s.

Definition destroyLights (fuel : nat) (s : State) : option State :=
  destroy fuel (strs (getLights s)) s.

(** [clear] (viewer.js:416).  The [for .. in] runs over the keys that
    [models] had on entry; a key is visited when [models] still has it. *)
Definition clear (fuel : nat) (s : State) : option State :=
  do s1 <- each (fun id s => if Dict.mem id (models s)
                             then destroy fuel (IStr id) s
                             else Some s) (Dict.keys (models s)) s;
  do s2 <- destroyAnnotations fuel s1;
  do s3 <- destroyClips fuel s2;
  destroyLights fuel s3.

(** The configurations of [defaultLights] (viewer.js:2978-3003). *)
Definition default_cfgs : list (string * LightCfg) :=
  [("light0", mkLightCfg (Some "ambient") (Some (1, 1, 1)) (Some 1)
                None None None None);
   ("light1", mkLightCfg (Some "dir") (Some (1, 1, 1)) (Some 1)
                None (Some (8 # 10, - (6 # 10), - (8 # 10)))
                (Some "view") None);
   ("light2", mkLightCfg (Some "dir") (Some (8 # 10, 8 # 10, 8 # 10))
                (Some 1) None (Some (- (8 # 10), - (3 # 10), - (4 # 10)))
                (Some "view") None);
   ("light3", mkLightCfg (Some "dir") (Some (8 # 10, 1, 1)) (Some 1)
                None (Some (4 # 10, - (4 # 10), 8 # 10)) (Some "view") None)].

(** [defaultLights] (viewer.js:2976) *)
Definition defaultLights (fuel : nat) (s : State) : option State :=
  do s <- destroyLights fuel s;
  each (fun c s => createLight fuel (fst c) (Some (snd c)) s) default_cfgs s.

(** The default lighting: what [defaultLights] makes of its four
    configurations. *)
Definition default_lighting : dict Light :=
  map (fun c => (fst c, make_light (default "dir" (lc_type (snd c))) (snd c)))
    default_cfgs.

(** ** Loading *)

(** What the engine makes of a model source: the boundary of the model
    and its entities, each with its ID, its initial state and its own
    transforms, leaf first. *)
Record Entity : Type := mkEntity {
  e_id : string;
  e_object : Object;
  e_chain : list tkind
}.

Record Parsed : Type := mkParsed {
  p_center : vec3;
  p_aabb : aabb6;
  p_entities : list Entity
}.

(** The engine hangs the transforms of an entity under [top]; the result
    is the handle of the leaf, which becomes [entity.transform]. *)
Fixpoint alloc_chain (chain : list tkind) (top : nat) (s : State) : nat * State :=
  match chain with
  | [] => (top, s)
  | k :: rest =>
      let (p, s1) := alloc_chain rest top s in
      alloc (mkNode k (Some p)) s1
  end.

Fixpoint add_entities (graft : nat) (es : list Entity) (s : State)
  : list (string * Object) * State :=
  match es with
  | [] => ([], s)
  | e :: rest =>
      let (h, s1) := alloc_chain (e_chain e) graft s in
      let (done, s2) := add_entities graft rest s1 in
      ((e_id e, with_transform h (e_object e)) :: done, s2)
  end.

(** One round of the loop of the [loaded] handler (viewer.js:254-266). *)
Definition register_entity (modelId : string) (s : State)
  (e : string * Object) : State :=
  let (objectId, object) := e in
  let s := set_objects (Dict.set objectId object (objects s)) s in
  let s := set_objectModels (Dict.set objectId modelId (objectModels s)) s in
  let type := type_of object in
  let objectsOfType := match Dict.get type (types s) with
                       | Some b => b
                       | None => Dict.empty
                       end in
  set_types (Dict.set type (Dict.set objectId tt objectsOfType) (types s)) s.

Definition zero_aabb : aabb6 := (0, 0, 0, 0, 0, 0).

Section Loading.
(** The loader behind [cfg.loadModel] or [model.src]: the parsed model
    or an error message.  A load completes within the call. *)
Variable fetch : string -> Src -> Parsed + string.

(** The callback [ok] of [loadModel]: the continuation of the caller. *)
Definition callback : Type := option string -> State -> option State.

Definition call (ok : option callback) (arg : option string) (s : State)
  : option State :=
  match ok with
  | Some k => k arg s
  | None => Some s
  end.

(** [loadModel] once the ID is free (viewer.js:233-295). *)
Definition load_fresh (id : string) (src : Src) (ok : option callback)
  (s : State) : option State :=
  match scene_component id s with
  | Some _ =>
      call ok (Some id)
        (error ("Component with this ID already exists: " ++ id) s)
  | None =>
      let (t0, s) := alloc (mkNode (TTranslate (0, 0, 0)) None) s in
      let (t1, s) := alloc (mkNode (TQuaternion QuatIdentity) (Some t0)) s in
      let (t2, s) := alloc (mkNode (TScale (1, 1, 1)) (Some t1)) s in
      let (graft, s) := alloc (mkNode (TTransform identityMat4) (Some t2)) s in
      let model := mkModel (if hook_loadModel (hooks s) then None else Some src)
                     None t2 graft (0, 0, 0) zero_aabb in
      let s := set_models (Dict.set id model (models s)) s in
      let s := set_modelSrcs (Dict.set id src (modelSrcs s)) s in
      match fetch id src with
      | inl parsed =>
          (* the engine parses, then fires "loaded" *)
          let (entities, s) := add_entities graft (p_entities parsed) s in
          let model := mkModel (m_src model)
                         match entities with
                         | [] => None
                         | _ => Some (map fst entities)
                         end
                         t2 graft (p_center parsed) (p_aabb parsed) in
          let s := set_models (Dict.set id model (models s)) s in
          let s := fold_left (register_entity id) entities s in
          if hook_loadedModel (hooks s)
          then call ok (Some id) (fire (ELoadedModel id) s)
          else call ok (Some id) s
      | inr errMsg =>
          if hook_loadModel (hooks s)
          then call ok None (error ("Error loading model: " ++ errMsg) s)
          else Some s
      end
  end.

(** [loadModel] (viewer.js:221) *)
Definition loadModel (fuel : nat) (id : string) (src : Src)
  (ok : option callback) (s : State) : option State :=
  match Dict.get id (models s) with
  | Some model =>
      let isFilePath := match src with SrcPath _ => true | SrcData _ => false end in
      let same := match m_src model with
                  | Some src' => Src_eqb src src'
                  | None => false
                  end in
      if isFilePath && same then call ok (Some id) s
      else do s1 <- destroy fuel (IStr id) s; load_fresh id src ok s1
  | None => load_fresh id src ok s
  end.
End Loading.

(** ** Boundaries *)

(** An element of an array handed to [getAABB]: a string, or something
    else, given by the property key it converts to. *)
Inductive Item : Type :=
| ItStr (id : string)
| ItOther (key : string).

Definition item_key (i : Item) : string :=
  match i with ItStr k => k | ItOther k => k end.

Inductive Target : Type :=
| TgUndefined
| TgStr (id : string)
| TgArr (items : list Item).

(** What [getAABB] returns: [null], a box, or the array it was given. *)
Inductive Boundary : Type :=
| BNull
| BBox (aabb : aabb6)
| BTarget (items : list Item).

Definition Qltb (a b : Q) : bool := if Qlt_le_dec a b then true else false.

(** [component.worldBoundary.aabb] and [component.pos] *)
Definition worldBoundary (c : SceneComponent) : option aabb6 :=
  match c with
  | SObject o => Some (o_aabb o)
  | SModel m => Some (m_aabb m)
  | _ => None
  end.

Definition component_pos (c : SceneComponent) : option vec3 :=
  match c with
  | SLight l =>
      match l_type l with
      | Point => Some match l_pos l with Some p => p | None => (0, 0, 0) end
      | _ => None
      end
  | SClip c => Some match c_pos c with Some p => p | None => (0, 0, 0) end
  | _ => None
  end.

(** The running minima and maxima of the loop (viewer.js:1522-1527). *)
Definition extent_start : aabb6 :=
  (100000, 100000, 100000, -100000, -100000, -100000).

(** viewer.js:1560-1579 *)
Definition grow_aabb (e aabb : aabb6) : aabb6 :=
  let '(xmin, ymin, zmin, xmax, ymax, zmax) := e in
  let '(a0, a1, a2, a3, a4, a5) := aabb in
  (if Qltb a0 xmin then a0 else xmin,
   if Qltb a1 ymin then a1 else ymin,
   if Qltb a2 zmin then a2 else zmin,
   if Qltb xmax a3 then a3 else xmax,
   if Qltb ymax a4 then a4 else ymax,
   if Qltb zmax a5 then a5 else zmax).

(** viewer.js:1580-1599; [pos[3]], [pos[4]] and [pos[5]] are undefined
    and compare false, so the maxima stay. *)
Definition grow_pos (e : aabb6) (pos : vec3) : aabb6 :=
  let '(xmin, ymin, zmin, xmax, ymax, zmax) := e in
  let '(p0, p1, p2) := pos in
  (if Qltb p0 xmin then p0 else xmin,
   if Qltb p1 ymin then p1 else ymin,
   if Qltb p2 zmin then p2 else zmin,
   xmax, ymax, zmax).

Section Extent.
(** [this.getAABB], for the calls on the IDs of a type. *)
Variable self : Target -> State -> option (Boundary * State).

(** [scene.components[id]], then [models[id]] (viewer.js:1535-1538) *)
Definition component_or_model (id : string) (s : State)
  : option SceneComponent :=
  match scene_component id s with
  | Some c => Some c
  | None =>
      match Dict.get id (models s) with
      | Some m => Some (SModel m)
      | None => None
      end
  end.

(** The loop over many IDs (viewer.js:1531-1601).  The call on the IDs
    of a type is handed strings, so it returns [null] or a box. *)
Fixpoint extent (l : list Item) (e : aabb6) (valid : bool) (s : State)
  : option (aabb6 * bool * State) :=
  match l with
  | [] => Some (e, valid, s)
  | i :: rest =>
      let id := item_key i in
      match component_or_model id s with
      | Some component =>
          match worldBoundary component with
          | Some aabb => extent rest (grow_aabb e aabb) true s
          | None =>
              match component_pos component with
              | Some pos => extent rest (grow_pos e pos) true s
              | None => extent rest e valid s
              end
          end
      | None =>
          match Dict.get id (types s) with
          | Some objectsOfType =>
              match Dict.keys objectsOfType with
              | [] => extent rest e valid s
              | ids =>
                  do r <- self (TgArr (map ItStr ids)) s;
                  match r with
                  | (BBox aabb, s1) => extent rest (grow_aabb e aabb) true s1
                  | (BNull, s1) => extent rest e true s1
                  | (BTarget _, s1) => None
                  end
              end
          | None => extent rest e valid s
          end
      end
  end.

(** [getAABB] on the array of IDs it has made of its argument
    (viewer.js:1493-1613). *)
Definition resolve_items (target : list Item) (s : State)
  : option (Boundary * State) :=
  match target with
  | [] => Some (BBox (sceneAABB s), s)
  | [i] =>
      let id := item_key i in
      match scene_component id s with
      | Some component =>
          match worldBoundary component with
          | Some aabb => Some (BBox aabb, s)
          | None =>
              Some (BNull,
                    error "// TODO: Calculate AABB for a single light source or annotation" s)
          end
      | None =>
          match Dict.get id (types s) with
          | Some objectsOfType =>
              self (TgArr (map ItStr (Dict.keys objectsOfType))) s
          | None => Some (BNull, s)
          end
      end
  | _ =>
      do r <- extent target extent_start false s;
      let '(e, valid, s1) := r in
      if valid then Some (BBox e, s1) else Some (BBox (sceneAABB s1), s1)
  end.
End Extent.

(** [getAABB] (viewer.js:1483).  An array that does not start with a
    string is taken for a box and returned as it is. *)
Fixpoint getAABB (fuel : nat) (target : Target) (s : State)
  : option (Boundary * State) :=
  match fuel with
  | O => None
  | S n =>
      match target with
      | TgUndefined => Some (BBox (sceneAABB s), s)
      | TgArr [] => Some (BTarget [], s)
      | TgArr (ItOther k :: rest) => Some (BTarget (ItOther k :: rest), s)
      | TgArr (ItStr k :: rest) => resolve_items (getAABB n) (ItStr k :: rest) s
      | TgStr id => resolve_items (getAABB n) [ItStr id] s
      end
  end.

(** ** Bookmarks *)

Record ModelData : Type := mkModelData {
  md_id : string;
  md_src : Src;
  md_translate : option vec3;
  md_scale : option vec3;
  md_rotate : option vec3
}.

Record ObjectState : Type := mkObjectState {
  os_id : string;
  os_translate : option vec3;
  os_scale : option vec3;
  os_rotate : option vec3;
  os_visible : option bool;
  os_opacity : option Q;
  os_outlined : option bool;
  os_clippable : option bool;
  os_pickable : option bool
}.

Record LightState : Type := mkLightState {
  ls_id : string;
  ls_type : string;
  ls_color : option vec3;
  ls_pos : option vec3;
  ls_dir : option vec3;
  ls_intensity : option Q
}.

Record Bookmark : Type := mkBookmark {
  b_models : option (list ModelData);
  b_objects : option (list ObjectState);
  b_annotations : option (list (string * AnnotationCfg));
  b_clips : option (list (string * ClipCfg));
  b_lights : option (list LightState);
  b_eye : option vec3;
  b_look : option vec3;
  b_up : option vec3;
  b_gimbalLockY : option bool;
  b_viewFitFOV : option Q;
  b_viewFitDuration : option Q;
  b_projection : option string;
  b_perspectiveNear : option Q;
  b_perspectiveFar : option Q;
  b_perspectiveFOV : option Q;
  b_orthoNear : option Q;
  b_orthoFar : option Q;
  b_orthoScale : option Q;
  b_outlineThickness : option Q;
  b_outlineColor : option vec3
}.

(** [a !== b] on numbers *)
Definition Qneb (a b : Q) : bool := negb (Qeq_bool a b).

(** [math.vecToArray] of the engine, which is not under [src/]: a copy of
    the vector as a plain array, each element rounded to five decimals by
    [Math.round(x * 100000) / 100000]; it throws when it is handed
    [undefined].  [Math.round] rounds a half upwards. *)
Definition trunc (x : Q) : Q := Qfloor (x * 100000 + (1 # 2)) # 100000.

Definition vecToArray (v : vec3) : vec3 :=
  let '(x0, x1, x2) := v in (trunc x0, trunc x1, trunc x2).

(** The helpers of [getBookmark] (viewer.js:3396-3428) *)
Definition bookmark_translate (id : string) (s : State) : option vec3 :=
  match Dict.get id (translations s) with
  | None => None
  | Some translation =>
      do xyz <- read_xyz translation s;
      let '(x0, x1, x2) := xyz in
      if Qneb x0 0 || Qneb x1 0 || Qneb x1 0 then Some (vecToArray xyz)
      else None
  end.

Definition bookmark_scale (id : string) (s : State) : option vec3 :=
  match Dict.get id (scales s) with
  | None => None
  | Some scale =>
      do xyz <- read_xyz scale s;
      let '(x0, x1, x2) := xyz in
      if Qneb x0 1 || Qneb x1 1 || Qneb x1 1 then Some (vecToArray xyz)
      else None
  end.

Definition bookmark_rotate (id : string) (s : State) : option vec3 :=
  match Dict.get id (eulerAngles s) with
  | None => None
  | Some xyz =>
      let '(x0, x1, x2) := xyz in
      if Qneb x0 0 || Qneb x1 0 || Qneb x2 0 then Some (vecToArray xyz)
      else None
  end.

(** viewer.js:3443-3464; [models] and [modelSrcs] are written together,
    so the source of a model is there. *)
Fixpoint bookmark_models (ids : list string) (s : State)
  : option (list ModelData) :=
  match ids with
  | [] => Some []
  | id :: rest =>
      do src <- Dict.get id (modelSrcs s);
      do more <- bookmark_models rest s;
      Some (mkModelData id src (bookmark_translate id s) (bookmark_scale id s)
              (bookmark_rotate id s) :: more)
  end.

(** viewer.js:3476-3517 *)
Definition bookmark_object (id : string) (object : Object) (s : State)
  : option ObjectState :=
  let translate := bookmark_translate id s in
  let scale := bookmark_scale id s in
  let rotate := bookmark_rotate id s in
  let visible := if o_visible object then None else Some false in
  let opacity :=
    if String.eqb (o_alphaMode object) "blend" && Qltb (o_alpha object) 1
    then Some (o_alpha object) else None in
  let outlined := if o_outlined object then Some true else None in
  let clippable := if o_clippable object then None else Some false in
  let pickable := if o_pickable object then None else Some false in
  match translate, scale, rotate, visible, opacity, outlined, clippable,
        pickable with
  | None, None, None, None, None, None, None, None => None
  | _, _, _, _, _, _, _, _ =>
      Some (mkObjectState id translate scale rotate visible opacity outlined
              clippable pickable)
  end.

Fixpoint bookmark_objects (os : dict Object) (s : State) : list ObjectState :=
  match os with
  | [] => []
  | (id, object) :: rest =>
      match bookmark_object id object s with
      | Some st => st :: bookmark_objects rest s
      | None => bookmark_objects rest s
      end
  end.

(** viewer.js:3532-3570; the properties of an annotation that were not
    given have the defaults documented at [createAnnotation]. *)
Definition bookmark_annotation (id : string) (a : Annotation)
  : string * AnnotationCfg :=
  (id,
   mkAnnotationCfg (a_entity a) (Some (a_primIndex a))
     (option_map vecToArray (a_bary a))
     (option_map vecToArray (a_eye a)) (option_map vecToArray (a_look a))
     (option_map vecToArray (a_up a))
     (if default true (a_occludable a) then None else Some false)
     (if String.eqb (default "" (a_glyph a)) "" then None else a_glyph a)
     (if String.eqb (default "" (a_title a)) "" then None else a_title a)
     (if String.eqb (default "" (a_desc a)) "" then None else a_desc a)
     (if default true (a_pinShown a) then None else Some false)
     (if default true (a_labelShown a) then None else Some false)).

(** viewer.js:3584-3597 *)
Definition bookmark_clip (id : string) (clip : Clip) (s : State)
  : string * ClipCfg :=
  (id,
   mkClipCfg (option_map vecToArray (c_pos clip))
     (option_map vecToArray (c_dir clip))
     (if default true (c_active clip) then None else Some false)
     match Dict.get id (clipHelpers s) with
     | Some false => Some true
     | _ => None
     end).

(** [light.pos] and [light.dir]: a point light of the engine has a
    position and no direction, a directional light a direction and no
    position, an ambient light neither; what is not there is [undefined]. *)
Definition light_pos (light : Light) : option (option vec3) :=
  match l_type light with
  | Point => Some (l_pos light)
  | _ => None
  end.

Definition light_dir (light : Light) : option (option vec3) :=
  match l_type light with
  | Dir => Some (l_dir light)
  | _ => None
  end.

(** viewer.js:3611-3640.  The state of a light is begun with
    [vecToArray(light.pos)] and [vecToArray(light.dir)] (3615-3616), before
    the kind of the light is looked at; [vecToArray] throws on the one
    that the light does not have. *)
Definition bookmark_light (id : string) (light : Light) : option LightState :=
  do pos <- light_pos light;
  do dir <- light_dir light;
  let color := option_map vecToArray (l_color light) in
  let pos := option_map vecToArray pos in
  let dir := option_map vecToArray dir in
  Some match l_type light with
       | Ambient => mkLightState id "ambient" color pos dir (l_intensity light)
       | Dir => mkLightState id "dir" color pos dir (l_intensity light)
       | Point => mkLightState id "point" color pos dir (l_intensity light)
       end.

Definition shown_clip (c : string * ClipCfg) : string * ClipCfg :=
  (fst c, mkClipCfg (cc_pos (snd c)) (cc_dir (snd c)) (cc_active (snd c))
            (Some true)).

(** viewer.js:3609-3650.  A visible light helper writes [shown] into
    [clipState], the state of the clip serialized last; without one the
    write throws. *)
Fixpoint bookmark_lights (ls : dict Light) (clipStates : list (string * ClipCfg))
  (s : State) : option (list LightState * list (string * ClipCfg)) :=
  match ls with
  | [] => Some ([], clipStates)
  | (id, light) :: rest =>
      do lightState <- bookmark_light id light;
      do clipStates1 <-
        match Dict.get id (lightHelpers s) with
        | Some true =>
            match rev clipStates with
            | [] => None
            | last :: front => Some (rev (shown_clip last :: front))
            end
        | _ => Some clipStates
        end;
      do r <- bookmark_lights rest clipStates1 s;
      let (more, clipStates2) := r in
      Some (lightState :: more, clipStates2)
  end.

Definition nonempty (A : Type) (l : list A) : option (list A) :=
  match l with [] => None | _ => Some l end.

(** [getBookmark] (viewer.js:3388) *)
Definition getBookmark (s : State) : option Bookmark :=
  do modelStates <- bookmark_models (Dict.keys (models s)) s;
  let objectStates := bookmark_objects (objects s) s in
  let annotationStates :=
    map (fun e => bookmark_annotation (fst e) (snd e)) (annotations s) in
  let clipStates := map (fun e => bookmark_clip (fst e) (snd e) s) (clips s) in
  do r <- bookmark_lights (lights s) clipStates s;
  let (lightStates, clipStates) := r in
  let c := camera s in
  Some (mkBookmark
          (nonempty modelStates)
          (nonempty objectStates)
          (nonempty annotationStates)
          (nonempty clipStates)
          (nonempty lightStates)
          (Some (vecToArray (eye c))) (Some (vecToArray (look c)))
          (Some (vecToArray (up c)))
          (if gimbalLockY c then None else Some false)
          (match viewFitFOV c with
           | Some v => if Qneb v 45 then Some v else None
           | None => None
           end)
          (if Qneb (viewFitDuration c) (1 # 2)
           then Some (viewFitDuration c) else None)
          (if String.eqb (projectionType c) "perspective"
           then None else Some (projectionType c))
          (if Qneb (perspectiveNear c) (1 # 10)
           then Some (perspectiveNear c) else None)
          (if Qneb (perspectiveFar c) 5000
           then Some (perspectiveFar c) else None)
          (if Qneb (perspectiveFOV c) 60
           then Some (perspectiveFOV c) else None)
          (if Qneb (orthoNear c) (1 # 10) then Some (orthoNear c) else None)
          (if Qneb (orthoFar c) 5000 then Some (orthoFar c) else None)
          (if Qneb (orthoScale c) 1 then Some (orthoScale c) else None)
          (if Qneb (outlineThickness c) 15
           then Some (outlineThickness c) else None)
          (let '(c0, c1, c2) := outlineColor c in
           if Qneb c0 1 || Qneb c1 1 || Qneb c2 0
           then Some (outlineColor c) else None)).

(** The directives of one object state (viewer.js:3773-3798).  The public
    [setClippable] and [setPickable] take the IDs only. *)
Definition restore_object (fuel : nat) (objectState : ObjectState) (s : State)
  : option State :=
  let id := os_id objectState in
  do s <- match os_translate objectState with
          | Some t => setTranslate (IStr id) t s
          | None => Some s
          end;
  do s <- match os_scale objectState with
          | Some v => setScale (IStr id) v s
          | None => Some s
          end;
  do s <- match os_rotate objectState with
          | Some r => setRotate (IStr id) r s
          | None => Some s
          end;
  do s <- match os_opacity objectState with
          | Some o => setOpacity fuel (IStr id) (Some o) s
          | None => Some s
          end;
  do s <- (if truthy (os_outlined objectState)
           then showOutline fuel (IStr id) s else Some s);
  do s <- match os_clippable objectState with
          | Some _ => setClippable fuel (IStr id) s
          | None => Some s
          end;
  match os_pickable objectState with
  | Some _ => setPickable fuel (IStr id) s
  | None => Some s
  end.

Fixpoint restore_objects (fuel : nat) (l : list ObjectState) (s : State)
  : option State :=
  match l with
  | [] => Some s
  | objectState :: rest =>
      do s1 <- restore_object fuel objectState s; restore_objects fuel rest s1
  end.

Definition invisible_ids (l : list ObjectState) : list string :=
  map os_id
    (filter (fun o => match os_visible o with Some false => true | _ => false end)
       l).

Fixpoint restore_clips (fuel : nat) (l : list (string * ClipCfg)) (s : State)
  : option State :=
  match l with
  | [] => Some s
  | (id, cfg) :: rest =>
      do s1 <- createClip fuel id (Some cfg) s; restore_clips fuel rest s1
  end.

Definition restore_annotations (l : list (string * AnnotationCfg)) (s : State)
  : State :=
  fold_left (fun s e => createAnnotation (fst e) (Some (snd e)) s) l s.

(** [b || d] on numbers: zero is falsy. *)
Definition Qor (v : option Q) (d : Q) : Q :=
  match v with
  | Some x => if Qeq_bool x 0 then d else x
  | None => d
  end.

(** [setProjection] (viewer.js:1746) *)
Definition setProjection (type : string) (s : State) : State :=
  let c := camera s in
  if String.eqb (projectionType c) type then s
  else if String.eqb type "perspective" || String.eqb type "orthographic" then
    set_camera
      (mkCamera (eye c) (look c) (up c) (gimbalLockY c) type
         (perspectiveFOV c) (perspectiveNear c) (perspectiveFar c)
         (orthoScale c) (orthoNear c) (orthoFar c) (fitFOV c) (viewFitFOV c)
         (viewFitDuration c) (outlineThickness c) (outlineColor c)) s
  else error ("Unsupported camera projection type: " ++ type) s.

(** The camera, projection and outline calls that end a restoration
    (viewer.js:3831-3843).  The engine takes its own default for an eye
    or a look that the document lacks. *)
Definition restore_camera (b : Bookmark) (s : State) : State :=
  let s := setProjection
             (match b_projection b with
              | Some p => if String.eqb p "" then "perspective" else p
              | None => "perspective"
              end) s in
  let c := camera s in
  set_camera
    (mkCamera
       (default (0, 0, 10) (b_eye b))
       (default (0, 0, 0) (b_look b))
       (default (0, 1, 0) (b_up b))
       (match b_gimbalLockY b with Some false => false | _ => true end)
       (projectionType c)
       (Qor (b_perspectiveFOV b) 60)
       (default (1 # 10) (b_perspectiveNear b))
       (default 5000 (b_perspectiveFar b))
       (default 1 (b_orthoScale b))
       (default (1 # 10) (b_orthoNear b))
       (default 5000 (b_orthoFar b))
       (Qor (b_viewFitFOV b) 45)
       (viewFitFOV c)
       (default (1 # 2) (b_viewFitDuration b))
       (default 15 (b_outlineThickness b))
       (default (1, 1, 0) (b_outlineColor b))) s.

Section Restore.
Variable fetch : string -> Src -> Parsed + string.

(** [loadModels] (viewer.js:3729) *)
Fixpoint loadModels (fuel : nat) (modelsData : list ModelData)
  (ok : State -> option State) (s : State) : option State :=
  match modelsData with
  | [] => ok s
  | modelData :: rest =>
      let id := md_id modelData in
      loadModel fetch fuel id (md_src modelData)
        (Some (fun _ s =>
           do s <- match md_translate modelData with
                   | Some t => setTranslate (IStr id) t s
                   | None => Some s
                   end;
           do s <- match md_scale modelData with
                   | Some v => setScale (IStr id) v s
                   | None => Some s
                   end;
           do s <- match md_rotate modelData with
                   | Some r => setRotate (IStr id) r s
                   | None => Some s
                   end;
           loadModels fuel rest ok s)) s
  end.

(** The continuation that [setBookmark] hands to [loadModels]
    (viewer.js:3762-3848). *)
Definition restore_rest (fuel : nat) (bookmark : Bookmark) (ok : bool)
  (s : State) : option State :=
  do s <- match b_objects bookmark with
          | Some objectStates => restore_objects fuel objectStates s
          | None => Some s
          end;
  do s <- match b_clips bookmark with
          | Some clipStates => restore_clips fuel clipStates s
          | None => Some s
          end;
  let s := match b_annotations bookmark with
           | Some annotationStates => restore_annotations annotationStates s
           | None => s
           end in
  do s <- match b_lights bookmark with
          | Some _ => Some s
          | None => defaultLights fuel s
          end;
  do s <- match invisible_ids (default [] (b_objects bookmark)) with
          | [] => Some s
          | invisible => hide fuel (strs invisible) s
          end;
  let s := restore_camera bookmark s in
  Some (if ok then fire (EOk None) s else s).

(** [setBookmark] (viewer.js:3727); [ok] tells whether a callback was
    given. *)
Definition setBookmark (fuel : nat) (bookmark : Bookmark) (ok : bool)
  (s : State) : option State :=
  do s <- clear fuel s;
  match b_models bookmark with
  | None | Some [] =>
      do s <- defaultLights fuel s;
      Some (if ok then fire (EOk None) s else s)
  | Some modelsData =>
      loadModels fuel modelsData (restore_rest fuel bookmark ok) s
  end.
End Restore.

(** ** The viewer as it is constructed

    [xeometry.Viewer] starts from empty maps and calls [defaultLights]
    (viewer.js:3911).  The camera values are those the bookmark codec
    takes as defaults. *)
Definition blank : State :=
  mkState Dict.empty Dict.empty Dict.empty Dict.empty Dict.empty Dict.empty
    Dict.empty Dict.empty Dict.empty Dict.empty Dict.empty Dict.empty
    Dict.empty Dict.empty true Dict.empty Dict.empty false [] (0, 0, 0)
    zero_aabb false
    (mkCamera (0, 0, 10) (0, 0, 0) (0, 1, 0) true "perspective" 60 (1 # 10)
       5000 1 (1 # 10) 5000 45 None 0 15 (1, 1, 0))
    (mkHooks false false false) [].

Definition initial : option State := defaultLights 3 blank.


(** ** Observations used in the statements *)

(** The objects that [objectModels] gives to a model, in the order of
    the [objects] map. *)
Definition owner_is (m : string) (s : State) (o : string) : bool :=
  match Dict.get o (objectModels s) with
  | Some m' => String.eqb m' m
  | None => false
  end.

Definition owned (m : string) (s : State) : list string :=
  filter (owner_is m s) (Dict.keys (objects s)).

Definition entities_of (model : Model) : list string :=
  default [] (m_entities model).

(** [l] without the elements of [seen] and without repetitions, first
    occurrences kept. *)
Fixpoint uniq (seen l : list string) : list string :=
  match l with
  | [] => []
  | x :: rest =>
      if existsb (String.eqb x) seen then uniq seen rest
      else x :: uniq (seen ++ [x]) rest
  end.

Definition dedup (l : list string) : list string := uniq [] l.

(** The order in which an operation [op] of the family of [setVisible]
    resolves one ID: the object of that name, else what the extra
    branches [other] make of it, else the objects of the type of that
    name, else the entities of the model of that name, else an error. *)
Definition resolves_in_order (op : nat -> Ids -> State -> option State)
  (assign : Object -> Object) (other : string -> State -> option State)
  : Prop :=
  forall (n : nat) (s : State) (id : string),
    match Dict.get id (objects s) with
    | Some o =>
        op (S n) (IStr id) s
        = Some (set_objects (Dict.set id (assign o) (objects s)) s)
    | None =>
        match other id s with
        | Some s1 => op (S n) (IStr id) s = Some s1
        | None =>
            match Dict.get id (types s), Dict.get id (models s) with
            | Some b, _ =>
                op (S (S n)) (IStr id) s = op (S n) (strs (Dict.keys b)) s
            | None, Some m =>
                op (S (S n)) (IStr id) s = op (S n) (strs (entities_of m)) s
            | None, None =>
                op (S n) (IStr id) s
                = Some (error ("Model, object or type not found: " ++ id) s)
            end
        end
    end.

(** An object ID of which no index of the viewer holds a trace. *)
Definition gone (o : string) (s : State) : Prop :=
  Dict.get o (objects s) = None /\
  Dict.get o (objectModels s) = None /\
  Dict.get o (eulerAngles s) = None /\
  Dict.get o (transformable s) = None /\
  Dict.get o (translations s) = None /\
  Dict.get o (rotations s) = None /\
  Dict.get o (scales s) = None /\
  forall t b, Dict.get t (types s) = Some b -> ~ In o (Dict.keys b).

(** An ID that is a key of none of the maps [destroy] looks into. *)
Definition unnamed (id : string) (s : State) : Prop :=
  Dict.get id (annotations s) = None /\ Dict.get id (lights s) = None /\
  Dict.get id (clips s) = None /\ Dict.get id (models s) = None.

(** The engine composes a transform with its parents.  [chain] lists the
    transforms from a handle to the root; the scale that a chain
    contributes is the product of the [xeogl.Scale] components on it. *)
Fixpoint chain (fuel : nat) (h : nat) (s : State) : list tnode :=
  match fuel with
  | O => []
  | S n =>
      match node h s with
      | None => []
      | Some t =>
          t :: match t_parent t with
               | Some p => chain n p s
               | None => []
               end
      end
  end.

Definition scale_of (t : tnode) : vec3 :=
  match t_kind t with
  | TScale v => v
  | _ => (1, 1, 1)
  end.

Definition effective_scale (objectId : string) (s : State) : option vec3 :=
  do object <- Dict.get objectId (objects s);
  Some (fold_left (fun acc t => mulVec3 acc (scale_of t))
          (chain (length (arena s)) (o_transform object) s) (1, 1, 1)).

(** Whether an element of the array handed to [getAABB] adds to the
    extent: it names a component with a boundary or a position, or a type
    that has objects. *)
Definition contributes (s : State) (i : Item) : bool :=
  match component_or_model (item_key i) s with
  | Some c =>
      match worldBoundary c, component_pos c with
      | None, None => false
      | _, _ => true
      end
  | None =>
      match Dict.get (item_key i) (types s) with
      | Some b => match Dict.keys b with [] => false | _ => true end
      | None => false
      end
  end.

(** ** Well-formed states

    The maps of a viewer are related: the engine gives every component of
    a scene its own ID, a model holds the entities that [objectModels]
    gives to it, an object sits in the bucket of its type, and what is
    written together is there together. *)

Fixpoint nodupb (l : list string) : bool :=
  match l with
  | [] => true
  | x :: rest => negb (existsb (String.eqb x) rest) && nodupb rest
  end.

Definition disjointb (a b : list string) : bool :=
  forallb (fun k => negb (existsb (String.eqb k) b)) a.

Definition strings_eqb (a b : list string) : bool :=
  if list_eq_dec string_dec a b then true else false.

(** [objects] has no key twice. *)
Definition objects_distinct (s : State) : bool :=
  nodupb (Dict.keys (objects s)).

(** The entity table of a model lists the objects it owns. *)
Definition entities_owned (s : State) : bool :=
  forallb (fun e => strings_eqb (entities_of (snd e)) (owned (fst e) s))
    (models s).

(** Every object is in the bucket of its type. *)
Definition typed_in_bucket (s : State) : bool :=
  forallb (fun e => match Dict.get (type_of (snd e)) (types s) with
                    | Some b => Dict.mem (fst e) b
                    | None => false
                    end) (objects s).

(** A bucket holds objects of its type only. *)
Definition bucket_typed (s : State) : bool :=
  forallb (fun tb =>
             forallb (fun o => match Dict.get o (objects s) with
                               | Some object => String.eqb (type_of object) (fst tb)
                               | None => false
                               end) (Dict.keys (snd tb))) (types s).

(** Every object belongs to a loaded model. *)
Definition objects_owned (s : State) : bool :=
  forallb (fun o => match Dict.get o (objectModels s) with
                    | Some m => Dict.mem m (models s)
                    | None => false
                    end) (Dict.keys (objects s)).

(** One namespace: no ID is empty and none names two components. *)
Definition one_namespace (s : State) : bool :=
  let os := Dict.keys (objects s) in
  let ms := Dict.keys (models s) in
  let ls := Dict.keys (lights s) in
  let cs := Dict.keys (clips s) in
  let ans := Dict.keys (annotations s) in
  negb (existsb (String.eqb "") (os ++ ms ++ ls ++ cs ++ ans))
  && nodupb ms && nodupb ls && nodupb cs && nodupb ans
  && disjointb ms (os ++ ls ++ cs ++ ans)
  && disjointb os (ls ++ cs ++ ans)
  && disjointb cs (ls ++ ans)
  && disjointb ls ans.

(** What is written together: a clip and its helper, an annotation and
    the entry of its object in [objectAnnotations], the mark in
    [transformable] and the three registered transforms. *)
Definition written_together (s : State) : bool :=
  forallb (fun c => Dict.mem c (clipHelpers s)) (Dict.keys (clips s))
  && forallb (fun e => match a_entity (snd e) with
                       | Some o => Dict.mem o (objectAnnotations s)
                       | None => true
                       end) (annotations s)
  && forallb (fun id => Dict.mem id (scales s) && Dict.mem id (rotations s)
                        && Dict.mem id (translations s))
       (Dict.keys (transformable s)).

(** No ID and no type tag of the viewer is a name inherited from
    [Object.prototype]. *)
Definition plain (s : State) : bool :=
  forallb (fun k => negb (inherited k))
    (Dict.keys (objects s) ++ Dict.keys (types s) ++ Dict.keys (models s)
     ++ Dict.keys (lights s) ++ Dict.keys (clips s)
     ++ Dict.keys (annotations s)).

Definition wfb (s : State) : bool :=
  objects_distinct s && entities_owned s && typed_in_bucket s
  && bucket_typed s && objects_owned s && one_namespace s
  && written_together s.

Definition wf (s : State) : Prop := wfb s = true.

(** ** A small scene

    Two models of two parts each, a clip plane and an annotation, built
    with the operations of the viewer. *)
Module Demo.
Definition part (type : option string) : Object :=
  mkObject type true "opaque" 1 (Some (1, 1, 1)) None true true false 0%nat
    (1, 2, 3) (0, 1, 2, 2, 3, 4).

(** Every source holds a body and a cover. *)
Definition fetch (id : string) (src : Src) : Parsed + string :=
  inl (mkParsed (1, 2, 3) (0, 1, 2, 2, 3, 4)
         [mkEntity (id ++ "#1") (part None) [];
          mkEntity (id ++ "#2") (part (Some "cover")) []]).

Definition force (o : option State) : State := default blank o.

Definition start : State := Eval vm_compute in force initial.

Definition saw : State :=
  Eval vm_compute in
    force (loadModel fetch 3 "saw" (SrcPath "saw.gltf") None start).

Definition two : State :=
  Eval vm_compute in
    force (loadModel fetch 3 "gearbox" (SrcPath "gearbox.gltf") None saw).

Definition ab : State :=
  Eval vm_compute in
    force (loadModel fetch 3 "b" (SrcPath "b.gltf") None
             (force (loadModel fetch 3 "a" (SrcPath "a.gltf") None start))).

Definition furnished : State :=
  Eval vm_compute in
    createAnnotation "note"
      (Some (mkAnnotationCfg (Some "saw#1") (Some 0%nat) None None None None
               None None None None None None))
      (force (createClip 3 "cut"
                (Some (mkClipCfg None None None (Some true))) two)).

(** A part tagged with a type that is also the ID of a light. *)
Definition tagged : State :=
  Eval vm_compute in
    force (setType (IStr "saw#1") (Some "light0") furnished).

(** A part tagged with a type that is also the ID of its model. *)
Definition retagged : State :=
  Eval vm_compute in
    force (setType (IStr "saw#2") (Some "saw") furnished).

(** The part scaled before its model, and the other way round. *)
Definition part_then_model : State :=
  Eval vm_compute in
    force (setScale (IStr "saw") (2, 2, 2)
             (force (setScale (IStr "saw#1") (1 # 2, 1 # 2, 1 # 2) saw))).

Definition model_then_part : State :=
  Eval vm_compute in
    force (setScale (IStr "saw#1") (1 # 2, 1 # 2, 1 # 2)
             (force (setScale (IStr "saw") (2, 2, 2) saw))).

(** The model moved and scaled along Z only. *)
Definition moved : State :=
  Eval vm_compute in
    force (setScale (IStr "saw") (1, 1, 3)
             (force (setTranslate (IStr "saw") (0, 0, 5) saw))).
(** The same without lights, for [getBookmark]. *)
Definition unlit : State :=
  Eval vm_compute in force (destroyLights 3 moved).

(** The annotation of [furnished] pinned to the other part of the saw. *)
Definition repinned : State :=
  Eval vm_compute in setAnnotationObject "note" "saw#2" furnished.
End Demo.

(** ** Further observations *)

(** The strings of an argument in their order, arrays flattened. *)
Fixpoint strings (q : Ids) : list string :=
  match q with
  | IUndefined => []
  | IStr id => [id]
  | IArr l => flat_map strings l
  end.

(** Whether [getObjects] finds something under an ID. *)
Definition resolvable (s : State) (id : string) : bool :=
  Dict.mem id (objects s) || Dict.mem id (types s) || Dict.mem id (models s).

Definition unresolved (q : Ids) (s : State) : list string :=
  filter (fun id => negb (resolvable s id)) (strings q).

(** The errors of [getObjects] for the IDs [ids]. *)
Definition not_found (ids : list string) : list Event :=
  map (fun id => EError ("Model not found: " ++ id)) ids.

(** The nesting of arrays in an argument. *)
Fixpoint height (q : Ids) : nat :=
  match q with
  | IArr l => S (fold_right (fun x h => Nat.max (height x) h) 0%nat l)
  | _ => 0%nat
  end.

(** [f] applied to the objects that [ids] lists. *)
Definition assign_all (f : Object -> Object) (ids : list string)
  (d : dict Object) : dict Object :=
  map (fun e => if existsb (String.eqb (fst e)) ids then (fst e, f (snd e))
                else e) d.

(** The errors of the family of [setVisible] for the IDs [ids]. *)
Definition missing (ids : list string) : list Event :=
  map (fun id => EError ("Model, object or type not found: " ++ id)) ids.

(** The state after [f] was applied to the objects that [q] resolves to
    in [s], with an error for each string of [q] that names nothing. *)
Definition applied (f : Object -> Object) (q : Ids) (s : State) : State :=
  set_log (log s ++ missing (unresolved q s))
    (set_objects (assign_all f (fst (getObjects q s)) (objects s)) s).

(** No [undefined] in an argument. *)
Fixpoint defined (q : Ids) : bool :=
  match q with
  | IUndefined => false
  | IStr _ => true
  | IArr l => forallb defined l
  end.

(** The kind of the transform behind a handle. *)
Definition is_scale_at (h : nat) (s : State) : bool :=
  match node h s with
  | Some n => match t_kind n with TScale _ => true | _ => false end
  | None => false
  end.

Definition is_translate_at (h : nat) (s : State) : bool :=
  match node h s with
  | Some n => match t_kind n with TTranslate _ => true | _ => false end
  | None => false
  end.

Definition is_quaternion_at (h : nat) (s : State) : bool :=
  match node h s with
  | Some n => match t_kind n with TQuaternion _ => true | _ => false end
  | None => false
  end.

(** A number that a single-precision typed array of the engine holds as
    it is: [m * 2 ^ e] with [|m| < 2 ^ 24] and [-149 <= e <= 104]. *)
Definition single (x : Q) : Prop :=
  exists m e : Z,
    (Z.abs m < 2 ^ 24)%Z /\ (-149 <= e <= 104)%Z /\ x == inject_Z m * 2 ^ e.

Definition single3 (v : vec3) : Prop :=
  let '(x0, x1, x2) := v in single x0 /\ single x1 /\ single x2.

(** The transforms of [id] are built: the ID is marked in
    [transformable] and a scale, a translation and a rotation of the
    engine are registered for it. *)
Definition built (id : string) (s : State) : bool :=
  Dict.mem id (transformable s)
  && match Dict.get id (scales s) with
     | Some h => is_scale_at h s
     | None => false
     end
  && match Dict.get id (translations s) with
     | Some h => is_translate_at h s
     | None => false
     end
  && match Dict.get id (rotations s) with
     | Some h => is_quaternion_at h s
     | None => false
     end.

(** The transforms of [id] are built or there is no trace of them. *)
Definition transforms_sound (id : string) (s : State) : bool :=
  built id s
  || negb (Dict.mem id (transformable s) || Dict.mem id (scales s)
           || Dict.mem id (translations s) || Dict.mem id (rotations s)).

(** The light that [createLight] makes of a configuration, and the error
    it writes for a type it does not know. *)
Definition light_of (cfg : LightCfg) : Light :=
  make_light match lc_type cfg with
             | Some t => if String.eqb t "" then "dir" else t
             | None => "dir"
             end cfg.

Definition light_noted (cfg : LightCfg) (s : State) : State :=
  let type := match lc_type cfg with
              | Some t => if String.eqb t "" then "dir" else t
              | None => "dir"
              end in
  if String.eqb type "ambient" || String.eqb type "point"
     || String.eqb type "dir"
  then s
  else error ("Light type not recognized: " ++ type
              ++ " - defaulting to 'dir'") s.

(** ** Further operations of the viewer *)

(** [getTypes] (viewer.js:493) *)
Definition getTypes (s : State) : list string := Dict.keys (types s).

(** [getSrc] (viewer.js:317); a path that is the empty string is falsy. *)
Definition getSrc (id : string) (s : State) : option Src * State :=
  match Dict.get id (modelSrcs s) with
  | Some src =>
      match src with
      | SrcPath path =>
          if String.eqb path ""
          then (None, error ("Model not found: " ++ id) s)
          else (Some src, s)
      | SrcData _ => (Some src, s)
      end
  | None => (None, error ("Model not found: " ++ id) s)
  end.

(** What [getCenter] returns: a point, or the midpoints of the elements
    of an array that [getAABB] handed back as it was; these the
    embedding leaves to the elements. *)
Inductive Center : Type :=
| CenterAt (xyz : vec3)
| CenterOf (items : list Item).

(** [getCenter] (viewer.js:1460); reading an element of [null] throws. *)
Definition getCenter (fuel : nat) (target : Target) (s : State)
  : option (Center * State) :=
  do r <- getAABB fuel target s;
  match r with
  | (BBox aabb, s1) =>
      let '(a0, a1, a2, a3, a4, a5) := aabb in
      Some (CenterAt ((a0 + a3) / 2, (a1 + a4) / 2, (a2 + a5) / 2), s1)
  | (BTarget items, s1) => Some (CenterOf items, s1)
  | (BNull, _) => None
  end.

(** What a getter returns: a value, [null], or nothing at all. *)
Inductive Answer (A : Type) : Type :=
| Value (v : A)
| Null
| Nothing.

Arguments Value {A} v.
Arguments Null {A}.
Arguments Nothing {A}.

(** [getAnnotationObject] (viewer.js:2577) *)
Definition getAnnotationObject (id : string) (s : State)
  : Answer string * State :=
  match Dict.get id (annotations s) with
  | None => (Nothing, error ("Annotation not found: " ++ quoted id) s)
  | Some annotation =>
      match a_entity annotation with
      | Some entity => (Value entity, s)
      | None => (Null, s)
      end
  end.

(** Lights and clip planes: positions, directions, intensity, space.
    [console.warn] is not part of the state; what it received is carried
    beside the state. *)
Definition Out : Type := State * list string.

Definition with_l_pos (v : option vec3) (l : Light) : Light :=
  mkLight (l_type l) (l_color l) (l_intensity l) v (l_dir l) (l_space l).

Definition with_l_dir (v : option vec3) (l : Light) : Light :=
  mkLight (l_type l) (l_color l) (l_intensity l) (l_pos l) v (l_space l).

Definition with_l_intensity (v : option Q) (l : Light) : Light :=
  mkLight (l_type l) (l_color l) v (l_pos l) (l_dir l) (l_space l).

Definition with_l_space (v : option string) (l : Light) : Light :=
  mkLight (l_type l) (l_color l) (l_intensity l) (l_pos l) (l_dir l) v.

Definition with_c_pos (v : option vec3) (c : Clip) : Clip :=
  mkClip v (c_dir c) (c_active c).

Definition with_c_dir (v : option vec3) (c : Clip) : Clip :=
  mkClip (c_pos c) v (c_active c).

Definition with_c_active (v : option bool) (c : Clip) : Clip :=
  mkClip (c_pos c) (c_dir c) v.

(** [for (i = 0; i < id.length; i++) step(id[i])] on a state with its
    warnings *)
Section EachOut.
Variable step : Ids -> Out -> option Out.

Fixpoint each_out (l : list Ids) (o : Out) : option Out :=
  match l with
  | [] => Some o
  | x :: rest => do o1 <- step x o; each_out rest o1
  end.
End EachOut.

(** [getLightType] (viewer.js:3015) *)
Definition getLightType (id : string) (s : State) : Answer string * State :=
  match Dict.get id (lights s) with
  | None => (Null, error ("Light not found: " ++ quoted id) s)
  | Some light =>
      (Value match l_type light with
             | Dir => "dir"
             | Point => "point"
             | Ambient => "ambient"
             end, s)
  end.

(** [setPos] (viewer.js:3038) *)
Fixpoint setPos (id : Ids) (pos : vec3) (o : Out) : option Out :=
  match id with
  | IStr id =>
      let (s, warned) := o in
      match Dict.get id (lights s) with
      | Some light =>
          match l_type light with
          | Point =>
              Some (set_lights
                      (Dict.set id (with_l_pos (Some pos) light) (lights s)) s,
                    warned)
          | _ =>
              Some (s, warned
                       ++ [("Ignoring call to setPos() on light of incompatible type: "
                            ++ quoted id)%string])
          end
      | None =>
          match Dict.get id (clips s) with
          | Some clip =>
              Some (set_clips
                      (Dict.set id (with_c_pos (Some pos) clip) (clips s)) s,
                    warned)
          | None =>
              Some (error ("Light or clip plane not found: " ++ quoted id) s,
                    warned)
          end
      end
  | IArr l => each_out (fun x => setPos x pos) l o
  | IUndefined => None
  end.

(** [getPos] (viewer.js:3072); a position that was never given is the
    engine's default, [None]. *)
Definition getPos (id : string) (s : State) : option vec3 * State :=
  match Dict.get id (lights s) with
  | Some light =>
      match l_type light with
      | Point => (l_pos light, s)
      | _ =>
          (Some (0, 0, 0),
           error ("Called getPos() for light of incompatible type: "
                  ++ quoted id) s)
      end
  | None =>
      match Dict.get id (clips s) with
      | Some clip => (c_pos clip, s)
      | None =>
          (Some (0, 0, 0),
           error ("Light or clip plane not found: " ++ quoted id) s)
      end
  end.

(** [setDir] (viewer.js:3096) *)
Fixpoint setDir (id : Ids) (dir : vec3) (o : Out) : option Out :=
  match id with
  | IStr id =>
      let (s, warned) := o in
      match Dict.get id (lights s) with
      | Some light =>
          match l_type light with
          | Dir =>
              Some (set_lights
                      (Dict.set id (with_l_dir (Some dir) light) (lights s)) s,
                    warned)
          | _ =>
              Some (s, warned
                       ++ [("Ignoring call to setDir() on light of incompatible type: "
                            ++ quoted id)%string])
          end
      | None =>
          match Dict.get id (clips s) with
          | Some clip =>
              Some (set_clips
                      (Dict.set id (with_c_dir (Some dir) clip) (clips s)) s,
                    warned)
          | None =>
              Some (error ("Light or clip plane not found: " ++ quoted id) s,
                    warned)
          end
      end
  | IArr l => each_out (fun x => setDir x dir) l o
  | IUndefined => None
  end.

(** [getDir] (viewer.js:3130); [Value None] is the engine's default for a
    direction that was never given. *)
Definition getDir (id : string) (s : State) : Answer (option vec3) * State :=
  match Dict.get id (lights s) with
  | Some light =>
      match l_type light with
      | Dir => (Value (l_dir light), s)
      | _ =>
          (Null,
           error ("Called getDir() for light of incompatible type: "
                  ++ quoted id) s)
      end
  | None =>
      match Dict.get id (clips s) with
      | Some clip => (Value (c_dir clip), s)
      | None =>
          (Value (Some (0, 0, 1)),
           error ("Light or clip plane not found: " ++ quoted id) s)
      end
  end.

(** [setIntensity] (viewer.js:3154) *)
Fixpoint setIntensity (id : Ids) (intensity : Q) (s : State) : option State :=
  match id with
  | IStr id =>
      match Dict.get id (lights s) with
      | Some light =>
          Some (set_lights
                  (Dict.set id (with_l_intensity (Some intensity) light)
                     (lights s)) s)
      | None => Some (error ("Light not found: " ++ quoted id) s)
      end
  | IArr l => each (fun x => setIntensity x intensity) l s
  | IUndefined => None
  end.

(** [getIntensity] (viewer.js:3178) *)
Definition getIntensity (id : string) (s : State) : option Q * State :=
  match Dict.get id (lights s) with
  | Some light => (l_intensity light, s)
  | None => (Some 1, error ("Light not found: " ++ quoted id) s)
  end.

Definition has_space (l : Light) : bool :=
  match l_type l with
  | Dir | Point => true
  | Ambient => false
  end.

(** [setSpace] (viewer.js:3194); [space || "view"] takes the empty string
    for none. *)
Fixpoint setSpace (id : Ids) (space : option string) (s : State)
  : option State :=
  match id with
  | IStr id =>
      match Dict.get id (lights s) with
      | Some light =>
          if has_space light then
            let space := match space with
                         | Some sp => if String.eqb sp "" then "view" else sp
                         | None => "view"
                         end in
            if String.eqb space "view" || String.eqb space "world" then
              Some (set_lights
                      (Dict.set id (with_l_space (Some space) light) (lights s))
                      s)
            else
              let s1 := error ("Light space not recognized: " ++ space
                               ++ " - defaulting to 'view'") s in
              Some (set_lights
                      (Dict.set id (with_l_space (Some "view") light)
                         (lights s1)) s1)
          else
            Some (error ("Called setSpace() for light of incompatible type: "
                         ++ quoted id) s)
      | None => Some (error ("Light not found: " ++ quoted id) s)
      end
  | IArr l => each (fun x => setSpace x space) l s
  | IUndefined => None
  end.

(** [getSpace] (viewer.js:3227); a space that was never given is the
    engine's default, [None]. *)
Definition getSpace (id : string) (s : State) : option string * State :=
  match Dict.get id (lights s) with
  | Some light =>
      if has_space light then (l_space light, s)
      else (Some "view",
            error ("Called getSpace() for light of incompatible type: "
                   ++ quoted id) s)
  | None => (Some "view", error ("Light not found: " ++ quoted id) s)
  end.

(** The coordinate space that [setSpace] makes of its argument. *)
Definition space_of (space : option string) : string :=
  match space with
  | Some sp => if String.eqb sp "world" then "world" else "view"
  | None => "view"
  end.

(** The box [outer] holds the box [inner]. *)
Definition encloses (outer inner : aabb6) : Prop :=
  let '(x0, y0, z0, x1, y1, z1) := outer in
  let '(a0, a1, a2, a3, a4, a5) := inner in
  x0 <= a0 /\ y0 <= a1 /\ z0 <= a2 /\ a3 <= x1 /\ a4 <= y1 /\ a5 <= z1.

(** The middle of a box. *)
Definition middle (aabb : aabb6) : vec3 :=
  let '(a0, a1, a2, a3, a4, a5) := aabb in
  ((a0 + a3) / 2, (a1 + a4) / 2, (a2 + a5) / 2).

(** ** The page of the examples

    The script of the page that lists the examples ([part_000]). *)
Module Examples.

(** The class [[A-Z(]] of the pattern of [expandCamel]. *)
Definition is_capital (c : ascii) : bool :=
  (65 <=? nat_of_ascii c)%nat && (nat_of_ascii c <=? 90)%nat.

Definition in_class (c : ascii) : bool := is_capital c || Ascii.eqb c "(".

(** [toLowerCase] on a character of the class. *)
Definition toLowerCase (c : ascii) : ascii :=
  if is_capital c then ascii_of_nat (nat_of_ascii c + 32) else c.

(** [expandCamel] (part_000:124) *)
Fixpoint expandCamel (str : string) : string :=
  match str with
  | EmptyString => EmptyString
  | String c rest =>
      if in_class c
      then String " " (String (toLowerCase c) (expandCamel rest))
      else String c (expandCamel rest)
  end.

(** [str.split(sep)] for a separator of one character. *)
Fixpoint split (sep : ascii) (str : string) : list string :=
  match str with
  | EmptyString => [EmptyString]
  | String c rest =>
      if Ascii.eqb c sep then EmptyString :: split sep rest
      else match split sep rest with
           | first :: more => String c first :: more
           | [] => [String c EmptyString]
           end
  end.

(** The text of the link of an example (part_000:108-113). *)
Definition link_text (file : string) : string :=
  let name := split "_" file in
  let name := tl name in
  let name := String.concat " / " name in
  expandCamel name.

(** How many characters of [str] are in the class. *)
Fixpoint in_class_count (str : string) : nat :=
  match str with
  | EmptyString => 0%nat
  | String c rest => ((if in_class c then 1 else 0) + in_class_count rest)%nat
  end.
End Examples.
(** * Properties *)

Unset Implicit Arguments.

(** ** Insertion-ordered maps *)

Section DictFacts.
Context {V : Type}.
Implicit Types (d : dict V) (k : string) (v : V).

Lemma get_set_same d k v : Dict.get k (Dict.set k v d) = Some v.
Proof.
  induction d as [|[k' v'] r IH]; simpl.
  - now rewrite String.eqb_refl.
  - destruct (String.eqb k k') eqn:E; simpl.
    + now rewrite String.eqb_refl.
    + now rewrite E.
Qed.

Lemma get_set_other d k k' v :
  k' <> k -> Dict.get k' (Dict.set k v d) = Dict.get k' d.
Proof.
  intros N. induction d as [|[k0 v0] r IH]; simpl.
  - apply String.eqb_neq in N. now rewrite N.
  - destruct (String.eqb k k0) eqn:E; simpl.
    + apply String.eqb_eq in E. subst k0.
      apply String.eqb_neq in N. now rewrite N.
    + destruct (String.eqb k' k0); auto.
Qed.

Lemma get_del_same d k : Dict.get k (Dict.del k d) = None.
Proof.
  induction d as [|[k' v'] r IH]; simpl; auto.
  destruct (String.eqb k k') eqn:E; simpl; auto.
  now rewrite E.
Qed.

Lemma get_del_other d k k' :
  k' <> k -> Dict.get k' (Dict.del k d) = Dict.get k' d.
Proof.
  intros N. induction d as [|[k0 v0] r IH]; simpl; auto.
  destruct (String.eqb k k0) eqn:E; simpl.
  - apply String.eqb_eq in E. subst k0.
    apply String.eqb_neq in N. now rewrite N.
  - destruct (String.eqb k' k0); auto.
Qed.

Lemma get_del_none d k k' :
  Dict.get k' d = None -> Dict.get k' (Dict.del k d) = None.
Proof.
  intros H. destruct (string_dec k' k) as [->|N].
  - apply get_del_same.
  - now rewrite get_del_other.
Qed.

Lemma get_in_keys d k : Dict.get k d <> None <-> In k (Dict.keys d).
Proof.
  induction d as [|[k' v'] r IH]; simpl.
  - split; [congruence | tauto].
  - destruct (String.eqb k k') eqn:E.
    + apply String.eqb_eq in E. subst. split; [auto | congruence].
    + apply String.eqb_neq in E. rewrite IH. split; [auto | intros [?|?]; [congruence | assumption]].
Qed.

Lemma get_none_keys d k : Dict.get k d = None <-> ~ In k (Dict.keys d).
Proof.
  rewrite <- get_in_keys.
  destruct (Dict.get k d); split; intros H; try congruence.
  exfalso. apply H. congruence.
Qed.

Lemma get_some_keys d k v : Dict.get k d = Some v -> In k (Dict.keys d).
Proof. intros H. apply get_in_keys. congruence. Qed.

Lemma mem_true d k : Dict.mem k d = true <-> In k (Dict.keys d).
Proof.
  unfold Dict.mem. rewrite <- get_in_keys.
  destruct (Dict.get k d); split; congruence.
Qed.

Lemma mem_false d k : Dict.mem k d = false <-> Dict.get k d = None.
Proof. unfold Dict.mem. destruct (Dict.get k d); split; congruence. Qed.

Lemma keys_set_present d k v :
  Dict.get k d <> None -> Dict.keys (Dict.set k v d) = Dict.keys d.
Proof.
  induction d as [|[k' v'] r IH]; simpl; [congruence|].
  destruct (String.eqb k k') eqn:E; simpl; intros H.
  - apply String.eqb_eq in E. now subst.
  - f_equal. now apply IH.
Qed.

Lemma keys_set_absent d k v :
  Dict.get k d = None -> Dict.keys (Dict.set k v d) = Dict.keys d ++ [k].
Proof.
  induction d as [|[k' v'] r IH]; simpl; auto.
  destruct (String.eqb k k') eqn:E; simpl; intros H; [congruence|].
  f_equal. now apply IH.
Qed.

Lemma in_keys_set d k k' v :
  In k' (Dict.keys (Dict.set k v d)) <-> k' = k \/ In k' (Dict.keys d).
Proof.
  rewrite <- !get_in_keys. destruct (string_dec k' k) as [->|N].
  - rewrite get_set_same. split; [auto | congruence].
  - rewrite get_set_other by assumption. tauto.
Qed.

Lemma in_keys_del d k k' :
  In k' (Dict.keys (Dict.del k d)) <-> k' <> k /\ In k' (Dict.keys d).
Proof.
  rewrite <- !get_in_keys. destruct (string_dec k' k) as [->|N].
  - rewrite get_del_same. tauto.
  - rewrite get_del_other by assumption. tauto.
Qed.

Lemma keys_del d k : Dict.keys (Dict.del k d)
                     = filter (fun k' => negb (String.eqb k k')) (Dict.keys d).
Proof.
  induction d as [|[k' v'] r IH]; simpl; auto.
  destruct (String.eqb k k'); simpl; now rewrite IH.
Qed.

Lemma del_absent d k : Dict.get k d = None -> Dict.del k d = d.
Proof.
  induction d as [|[k' v'] r IH]; simpl; auto.
  destruct (String.eqb k k'); [congruence|].
  intros H. now rewrite IH.
Qed.

Lemma nodup_keys_set d k v :
  NoDup (Dict.keys d) -> NoDup (Dict.keys (Dict.set k v d)).
Proof.
  intros H. destruct (Dict.get k d) eqn:E.
  - rewrite keys_set_present; [assumption | congruence].
  - rewrite keys_set_absent by assumption.
    apply NoDup_app; [assumption | repeat constructor; simpl; tauto |].
    intros x Hx [<-|[]]. now apply get_none_keys in E.
Qed.

Lemma nodup_keys_del d k :
  NoDup (Dict.keys d) -> NoDup (Dict.keys (Dict.del k d)).
Proof. intros H. rewrite keys_del. now apply NoDup_filter. Qed.
End DictFacts.

(** ** The small scene is reachable and well formed *)

Example demo_start : initial = Some Demo.start.
Proof. vm_compute. reflexivity. Qed.

Example demo_saw :
  loadModel Demo.fetch 3 "saw" (SrcPath "saw.gltf") None Demo.start
  = Some Demo.saw.
Proof. vm_compute. reflexivity. Qed.

Example demo_two :
  loadModel Demo.fetch 3 "gearbox" (SrcPath "gearbox.gltf") None Demo.saw
  = Some Demo.two.
Proof. vm_compute. reflexivity. Qed.

Example demo_ab :
  loadModel Demo.fetch 3 "b" (SrcPath "b.gltf") None
    (Demo.force (loadModel Demo.fetch 3 "a" (SrcPath "a.gltf") None Demo.start))
  = Some Demo.ab.
Proof. vm_compute. reflexivity. Qed.

Example demo_furnished :
  option_map
    (createAnnotation "note"
       (Some (mkAnnotationCfg (Some "saw#1") (Some 0%nat) None None None None
                None None None None None None)))
    (createClip 3 "cut" (Some (mkClipCfg None None None (Some true))) Demo.two)
  = Some Demo.furnished.
Proof. vm_compute. reflexivity. Qed.

Example demo_tagged :
  setType (IStr "saw#1") (Some "light0") Demo.furnished = Some Demo.tagged.
Proof. vm_compute. reflexivity. Qed.

Example demo_furnished_wf : wf Demo.furnished.
Proof. vm_compute. reflexivity. Qed.

Example demo_saw_objects :
  fst (getObjects (IStr "saw") Demo.furnished) = ["saw#1"; "saw#2"].
Proof. vm_compute. reflexivity. Qed.

(** ** Transforms: setting a scale twice *)

Lemma update_nth_idem (A : Type) (f : A -> A) (i : nat) (l : list A) :
  (forall x, f (f x) = f x) ->
  update_nth i f (update_nth i f l) = update_nth i f l.
Proof.
  intros Hf. revert i. induction l as [|x r IH]; intros [|i]; simpl; auto.
  - now rewrite Hf.
  - now rewrite IH.
Qed.

Lemma with_xyz_idem (xyz : vec3) (n : tnode) :
  with_xyz xyz (with_xyz xyz n) = with_xyz xyz n.
Proof. destruct n as [[v|v|q|m] p]; reflexivity. Qed.

Lemma update_node_idem (h : nat) (xyz : vec3) (s : State) :
  update_node h (with_xyz xyz) (update_node h (with_xyz xyz) s)
  = update_node h (with_xyz xyz) s.
Proof.
  unfold update_node, set_arena. simpl.
  rewrite update_nth_idem by apply with_xyz_idem. reflexivity.
Qed.

Lemma scales_update_node (h : nat) (f : tnode -> tnode) (s : State) :
  scales (update_node h f s) = scales s.
Proof. reflexivity. Qed.

(** Building the transforms of a component registers its scale. *)
Lemma buildModelTransform_scales (id : string) (c : Component) (s : State) :
  Dict.get id (scales (buildModelTransform id c s)) <> None.
Proof.
  unfold buildModelTransform, alloc. simpl.
  destruct c; simpl; rewrite get_set_same; discriminate.
Qed.

Lemma buildObjectTransform_scales (id : string) (o : Object) (s s' : State) :
  buildObjectTransform id o s = Some s' ->
  Dict.get id (scales s') <> None.
Proof.
  unfold buildObjectTransform, alloc.
  destruct (Dict.get id (objectModels s)) as [m|]; [|discriminate].
  destruct (Dict.get m (models s)) as [model|]; [|discriminate].
  destruct (bake _ _ _ _ _) as [matrix|]; [|discriminate].
  simpl. intros H. injection H as <-. simpl.
  rewrite get_set_same. discriminate.
Qed.

Lemma transformable_has_scale (id : string) (s s' : State) :
  (Dict.get id (transformable s) <> None -> Dict.get id (scales s) <> None) ->
  getTransformableComponent id s = Some (true, s') ->
  Dict.get id (scales s') <> None.
Proof.
  intros Hw. unfold getTransformableComponent.
  destruct (getComponent id s) as [c|]; [|discriminate].
  destruct (Dict.get id (transformable s)) as [[]|] eqn:Et.
  - intros H. injection H as <-. apply Hw. discriminate.
  - destruct (Dict.get id (models s)) as [m|].
    + intros H. injection H as <-. apply buildModelTransform_scales.
    + destruct c as [o|m]; [|discriminate].
      destruct (buildObjectTransform id o s) as [s1|] eqn:Eb; [|discriminate].
      intros H. injection H as <-.
      eapply buildObjectTransform_scales; eauto.
Qed.

(** C9. For an ID that resolves to a transformable component, in a state
    where what is marked transformable has its scale registered,
    [setScale(id, xyz)] returns, and calling it again on the state it
    produced changes nothing: twice is the same as once.  This holds for
    every value, [1,1,1] among them. *)
Theorem setScale_twice (s : State) (id : string) (xyz : vec3) :
  (exists s', getTransformableComponent id s = Some (true, s')) ->
  (Dict.get id (transformable s) <> None -> Dict.get id (scales s) <> None) ->
  exists s1,
    setScale (IStr id) xyz s = Some s1 /\
    setScale (IStr id) xyz s1 = Some s1.
Proof.
  intros [s' Hc] Hw.
  assert (Hfirst : exists h s0,
             transform_of scales id s = Some (Some h, s0) /\
             Dict.get id (scales s0) = Some h).
  { pose proof (@transformable_has_scale id s s' Hw Hc) as Hs.
    unfold transform_of.
    destruct (Dict.get id (scales s)) as [h|] eqn:Es.
    - exists h, s. auto.
    - rewrite Hc.
      destruct (Dict.get id (scales s')) as [h|] eqn:Es'; [|congruence].
      exists h, s'. auto. }
  destruct Hfirst as (h & s0 & Ht & Hs0).
  exists (update_node h (with_xyz xyz) s0). split.
  - simpl. now rewrite Ht.
  - simpl. unfold transform_of. rewrite scales_update_node, Hs0.
    now rewrite update_node_idem.
Qed.

Lemma setScale_twice_witness :
  exists s1,
    setScale (IStr "saw#1") (1, 1, 1) Demo.furnished = Some s1 /\
    setScale (IStr "saw#1") (1, 1, 1) s1 = Some s1.
Proof.
  apply (@setScale_twice Demo.furnished "saw#1" (1, 1, 1)).
  - eexists. vm_compute. reflexivity.
  - vm_compute. intros H. exfalso. apply H. reflexivity.
Defined.

(** ** What an operation leaves alone *)

Lemma set_log_eta (s : State) : set_log (log s) s = s.
Proof. now destruct s. Qed.

(** [s'] is [s] with more in its log. *)
Definition logged (s s' : State) : Prop := exists l, s' = set_log l s.

Lemma logged_refl (s : State) : logged s s.
Proof. exists (log s). now rewrite set_log_eta. Qed.

Lemma logged_trans (a b c : State) : logged a b -> logged b c -> logged a c.
Proof. intros [l ->] [l' ->]. now exists l'. Qed.

Lemma logged_error (msg : string) (s : State) : logged s (error msg s).
Proof. now eexists. Qed.

(** What [getObjects] resolves an argument to does not depend on the log,
    and the log is all it writes. *)
Definition log_blind (q : Ids) : Prop :=
  (forall s l, fst (getObjects q (set_log l s)) = fst (getObjects q s)) /\
  (forall s, logged s (snd (getObjects q s))).

Lemma collect_log_blind (xs : list Ids) :
  Forall log_blind xs ->
  forall got result,
    (forall s l, fst (collect getObjects xs got result (set_log l s))
                 = fst (collect getObjects xs got result s)) /\
    (forall s, logged s (snd (collect getObjects xs got result s))).
Proof.
  induction 1 as [|x rest [Hx1 Hx2] _ IH]; intros got result.
  - split; intros; simpl; [reflexivity | apply logged_refl].
  - split.
    + intros s l. simpl.
      specialize (Hx1 s l).
      destruct (Hx2 (set_log l s)) as [l1 E1].
      destruct (Hx2 s) as [l2 E2].
      destruct (getObjects x (set_log l s)) as [buf1 s1].
      destruct (getObjects x s) as [buf2 s2]. simpl in *. subst.
      destruct (push_new buf2 got result) as [got1 result1].
      destruct (IH got1 result1) as [IH1 _].
      change (set_log l1 (set_log l s)) with (set_log l1 s).
      now rewrite !IH1.
    + intros s. simpl.
      destruct (Hx2 s) as [l2 E2].
      destruct (getObjects x s) as [buf2 s2]. simpl in *. subst.
      destruct (push_new buf2 got result) as [got1 result1].
      destruct (IH got1 result1) as [_ IH2].
      eapply logged_trans; [|apply IH2]. now eexists.
Qed.

Lemma getObjects_log_blind (q : Ids) : log_blind q.
Proof.
  induction q as [|id|l IH] using Ids_nested_ind.
  - split; intros; simpl; [reflexivity | apply logged_refl].
  - split.
    + intros s l. simpl.
      destruct (Dict.get id (objects s)); [reflexivity|].
      destruct (Dict.get id (types s)); [reflexivity|].
      destruct (Dict.get id (models s)) as [m|]; [|reflexivity].
      destruct (m_entities m); reflexivity.
    + intros s. simpl.
      destruct (Dict.get id (objects s)); [apply logged_refl|].
      destruct (Dict.get id (types s)); [apply logged_refl|].
      destruct (Dict.get id (models s)) as [m|]; [|apply logged_error].
      destruct (m_entities m); apply logged_refl.
  - destruct (collect_log_blind l IH Dict.empty []) as [H1 H2].
    split; intros; simpl; auto.
Qed.

Lemma getObjects_logged (q : Ids) (s : State) :
  logged s (snd (getObjects q s)).
Proof. apply getObjects_log_blind. Qed.

Lemma getObjects_set_log (q : Ids) (s : State) (l : list Event) :
  fst (getObjects q (set_log l s)) = fst (getObjects q s).
Proof. apply getObjects_log_blind. Qed.

Lemma each_invariant (A : Type) (step : A -> State -> option State)
  (R : State -> State -> Prop) :
  (forall s, R s s) ->
  (forall a b c, R a b -> R b c -> R a c) ->
  forall l,
    (forall x s s1, In x l -> step x s = Some s1 -> R s s1) ->
    forall s s', each step l s = Some s' -> R s s'.
Proof.
  intros Hrefl Htrans. induction l as [|x rest IH]; intros Hstep s s'; simpl.
  - intros H. injection H as <-. apply Hrefl.
  - destruct (step x s) as [s1|] eqn:E; [|discriminate].
    intros H. eapply Htrans.
    + eapply Hstep; [now left | eassumption].
    + eapply IH; [|eassumption]. intros; eapply Hstep; [right; eassumption | eassumption].
Qed.

(** A view of the state that neither [objects] nor the log is part of is
    kept by every operation of the family of [setVisible], provided its
    extra branches keep it. *)
Section Frame.
Variable T : Type.
Variable view : State -> T.
Hypothesis view_objects : forall v s, view (set_objects v s) = view s.
Hypothesis view_log : forall v s, view (set_log v s) = view s.

Variable assign : Object -> Object.
Variable other : string -> State -> option State.
Variable also : list (State -> list string).
Hypothesis view_other :
  forall id s s1, other id s = Some s1 -> view s1 = view s.

Lemma view_logged (s s' : State) : logged s s' -> view s' = view s.
Proof. intros [l ->]. apply view_log. Qed.

Lemma apply_ids_view (fuel : nat) :
  forall ids s s',
    apply_ids assign other also fuel ids s = Some s' -> view s' = view s.
Proof.
  induction fuel as [|n IH]; intros ids s s'; simpl; [discriminate|].
  destruct ids as [|id|l].
  - destruct (apply_ids assign other also n _ s) as [s2|] eqn:E2;
      [|discriminate].
    apply IH in E2. intros H.
    apply (@each_invariant _ _ (fun a b => view b = view a)) in H.
    + congruence.
    + reflexivity.
    + intros; congruence.
    + intros f a b _ Hf. eapply IH; eassumption.
  - destruct (Dict.get id (objects s)).
    { intros H. injection H as <-. apply view_objects. }
    destruct (other id s) as [s1|] eqn:Eo.
    { intros H. injection H as <-. eapply view_other; eassumption. }
    destruct (Dict.get id (models s)).
    + destruct (Dict.get id (types s)) as [b|];
        [|destruct (m_entities _)]; apply IH.
    + destruct (Dict.get id (types s)) as [b|].
      * destruct (Dict.keys b).
        -- intros H. now injection H as <-.
        -- apply IH.
      * intros H. injection H as <-. apply view_log.
  - intros H.
    apply (@each_invariant _ _ (fun a b => view b = view a)) in H; auto.
    + intros; congruence.
    + intros x a b _ Hx. eapply IH; eassumption.
Qed.
End Frame.

(** [show] and [hide] write to objects, helpers and the log only. *)
Definition named_maps (s : State) :=
  (annotations s, lights s, clips s, models s, types s).

Lemma setVisible_named_maps (fuel : nat) (ids : Ids) (v : bool) (s s' : State) :
  setVisible fuel ids v s = Some s' -> named_maps s' = named_maps s.
Proof.
  apply apply_ids_view; try reflexivity.
  intros id a b. unfold visible_other.
  destruct (Dict.get id (lights a)).
  - destruct (Dict.get id (lightHelpers a)); intros H; now injection H as <-.
  - destruct (Dict.get id (clipHelpers a)); [|discriminate].
    intros H; now injection H as <-.
Qed.

(** ** Destroying a string that names nothing *)

Lemma unnamed_frame (k : string) (s s' : State) :
  named_maps s' = named_maps s -> unnamed k s -> unnamed k s'.
Proof.
  unfold named_maps, unnamed. intros H. injection H as -> -> -> -> _. auto.
Qed.

(** [destroy] takes keys away and adds none. *)
Lemma destroy_entity_named (s : State) (o k : string) :
  unnamed k s -> unnamed k (destroy_entity s o).
Proof.
  unfold destroy_entity, unnamed.
  destruct (Dict.get _ (types s)); simpl; auto.
Qed.

Lemma destroy_model_named (id k : string) (model : Model) (s : State) :
  unnamed k s -> unnamed k (destroy_model id model s).
Proof.
  unfold destroy_model. intros H.
  assert (Hf : unnamed k (fold_left destroy_entity
                            match m_entities model with Some l => l | None => [] end s)).
  { generalize dependent s.
    induction (match m_entities model with Some l => l | None => [] end)
      as [|o r IH]; intros s H; simpl; auto.
    apply IH. now apply destroy_entity_named. }
  set (s1 := fold_left _ _ _) in *.
  destruct Hf as (Ha & Hl & Hc & Hm).
  destruct (hook_unloadedModel _); unfold unnamed; simpl;
    repeat split; auto; now apply get_del_none.
Qed.

Lemma destroy_named (fuel : nat) :
  forall x s s' k, destroy fuel x s = Some s' -> unnamed k s -> unnamed k s'.
Proof.
  induction fuel as [|n IH]; intros x s s' k; simpl; [discriminate|].
  assert (Hall : unnamed k s -> unnamed k (destroy_all s)).
  { unfold unnamed, destroy_all. simpl. tauto. }
  assert (Heach : forall l a b, each (destroy n) l a = Some b ->
                                unnamed k a -> unnamed k b).
  { intros l.
    apply (@each_invariant _ _ (fun a b => unnamed k a -> unnamed k b));
      [auto | auto |].
    intros y c d _ Hy. eapply IH; eassumption. }
  destruct (falsy x).
  { intros H. injection H as <-. exact Hall. }
  destruct x as [|id|l]; [intros H; injection H as <-; exact Hall| |apply Heach].
  destruct (Dict.get id (annotations s)) as [a|].
  { destruct (a_entity a) as [e|].
    - destruct (Dict.get e (objectAnnotations s)); [|discriminate].
      intros H. injection H as <-. unfold unnamed. simpl.
      intros (Ha & Hl & Hc & Hm). repeat split; auto. now apply get_del_none.
    - intros H. injection H as <-. unfold unnamed. simpl.
      intros (Ha & Hl & Hc & Hm). repeat split; auto. now apply get_del_none. }
  destruct (Dict.get id (lights s)).
  { destruct (hide n (IStr id) s) as [s1|] eqn:Eh; [|discriminate].
    apply setVisible_named_maps in Eh.
    intros H. injection H as <-. intros Hk.
    apply (unnamed_frame k _ _ Eh) in Hk. destruct Hk as (Ha & Hl & Hc & Hm).
    destruct (Dict.get id (lightHelpers _)); unfold unnamed; simpl;
      repeat split; auto; now apply get_del_none. }
  destruct (Dict.get id (clips s)).
  { destruct (hide n (IStr id) s) as [s1|] eqn:Eh; [|discriminate].
    apply setVisible_named_maps in Eh.
    intros H. injection H as <-. intros Hk.
    apply (unnamed_frame k _ _ Eh) in Hk. destruct Hk as (Ha & Hl & Hc & Hm).
    destruct (Dict.get id (clipHelpers _)); unfold unnamed; simpl;
      repeat split; auto; now apply get_del_none. }
  destruct (Dict.get id (models s)) as [model|].
  { intros H. injection H as <-. apply destroy_model_named. }
  apply Heach.
Qed.

(** A one-character string that names nothing calls for itself. *)
Lemma destroy_char_stuck (c : ascii) (fuel : nat) (s : State) :
  unnamed (String c "") s -> destroy fuel (IStr (String c "")) s = None.
Proof.
  intros (Ha & Hl & Hc & Hm). induction fuel as [|n IH]; simpl; auto.
  rewrite Ha, Hl, Hc, Hm. simpl. now rewrite IH.
Qed.

Lemma each_destroy_stuck (c : ascii) (n : nat) (l : list Ids) :
  forall s,
    In (IStr (String c "")) l -> unnamed (String c "") s ->
    each (destroy n) l s = None.
Proof.
  induction l as [|x rest IH]; intros s Hin Hu; simpl; [contradiction|].
  destruct (destroy n x s) as [s1|] eqn:E; [|reflexivity].
  destruct Hin as [->|Hin].
  - now rewrite destroy_char_stuck in E.
  - apply IH; [assumption|]. eapply destroy_named; eassumption.
Qed.

Lemma in_chars (c : ascii) (id : string) :
  In c (list_ascii_of_string id) -> In (IStr (String c "")) (chars id).
Proof.
  unfold chars. intros H.
  apply (in_map (fun c => IStr (String c ""))) in H. exact H.
Qed.

Lemma destroy_unnamed_string_none (s : State) (id : string) (c : ascii) :
  id <> "" ->
  unnamed id s ->
  In c (list_ascii_of_string id) ->
  unnamed (String c "") s ->
  forall fuel, destroy fuel (IStr id) s = None.
Proof.
  intros Hne (Ha & Hl & Hc & Hm) Hin Hu [|n]; simpl; auto.
  apply String.eqb_neq in Hne. rewrite Hne, Ha, Hl, Hc, Hm.
  apply each_destroy_stuck with (c := c); [now apply in_chars | assumption].
Qed.

(** What [destroy_outcome] returns, [destroy] returns. *)
Lemma each_outcome_returns (A : Type) (f : A -> State -> Outcome)
  (g : A -> State -> option State) (l : list A) :
  (forall x s s', f x s = Returns s' -> g x s = Some s') ->
  forall s s', each_outcome f l s = Returns s' -> each g l s = Some s'.
Proof.
  intros H. induction l as [|x rest IH]; intros s s'; simpl.
  - intros E. injection E as <-. reflexivity.
  - destruct (f x s) as [s1| |] eqn:E; try discriminate.
    rewrite (H x s s1 E). apply IH.
Qed.

Lemma destroy_outcome_returns (fuel : nat) :
  forall id s s',
    destroy_outcome fuel id s = Returns s' -> destroy fuel id s = Some s'.
Proof.
  induction fuel as [|n IH]; intros id s s'; [discriminate|].
  cbn [destroy_outcome destroy].
  destruct (falsy id); [intros E; injection E as <-; reflexivity|].
  destruct id as [|id|l];
    [intros E; injection E as <-; reflexivity | |now apply each_outcome_returns].
  destruct (Dict.get id (annotations s)) as [annotation|].
  { destruct (a_entity annotation) as [entityId|];
      [|intros E; injection E as <-; reflexivity].
    destruct (Dict.get entityId (objectAnnotations s)); [|discriminate].
    intros E. injection E as <-. reflexivity. }
  destruct (inherited id); [discriminate|].
  destruct (Dict.get id (lights s)).
  { destruct (hide n (IStr id) s); [|discriminate].
    intros E. injection E as <-. reflexivity. }
  destruct (Dict.get id (clips s)).
  { destruct (hide n (IStr id) s); [|discriminate].
    intros E. injection E as <-. reflexivity. }
  destruct (Dict.get id (models s)); [intros E; injection E as <-; reflexivity|].
  now apply each_outcome_returns.
Qed.

Lemma eqb_character (c x y : ascii) (r : string) :
  String.eqb (String c "") (String x (String y r)) = false.
Proof. apply String.eqb_neq. intros H. inversion H. Qed.

(** No inherited name is a single character. *)
Lemma character_not_inherited (c : ascii) : inherited (String c "") = false.
Proof.
  unfold inherited, prototype_names. cbn [existsb].
  now rewrite !eqb_character.
Qed.

(** A one-character string that names nothing calls for itself, and
    nothing else: the budget is all that ends it. *)
Lemma destroy_outcome_char (c : ascii) (fuel : nat) (s : State) :
  unnamed (String c "") s ->
  destroy_outcome fuel (IStr (String c "")) s = Exhausted.
Proof.
  intros (Ha & Hl & Hc & Hm). induction fuel as [|n IH]; [reflexivity|].
  cbn [destroy_outcome]. simpl falsy. cbv iota.
  rewrite Ha, character_not_inherited, Hl, Hc, Hm. simpl. now rewrite IH.
Qed.

(** C10, as amended. A non-empty string that names no annotation, light,
    clip plane or model, is no name inherited from [Object.prototype], and
    one of whose characters names none of the four either, is never
    destroyed: whatever the budget, the call does not return.  When that
    character is the first, nothing is done before the recursion on it,
    which only the budget ends (in the source, a stack overflow). *)
Theorem destroy_unnamed_string_diverges (s : State) (id : string) (c : ascii) :
  id <> "" ->
  inherited id = false ->
  unnamed id s ->
  In c (list_ascii_of_string id) ->
  unnamed (String c "") s ->
  (forall fuel s', destroy_outcome fuel (IStr id) s <> Returns s') /\
  (hd_error (list_ascii_of_string id) = Some c ->
   forall fuel, destroy_outcome fuel (IStr id) s = Exhausted).
Proof.
  intros Hne Hi Hu Hin Hcu. split.
  - intros fuel s' E. apply destroy_outcome_returns in E.
    rewrite (destroy_unnamed_string_none s id c Hne Hu Hin Hcu) in E.
    discriminate.
  - intros Hhd [|n]; [reflexivity|].
    destruct Hu as (Ha & Hl & Hc & Hm).
    cbn [destroy_outcome]. simpl falsy.
    apply String.eqb_neq in Hne. rewrite Hne, Ha, Hi, Hl, Hc, Hm.
    destruct id as [|c0 rest]; [discriminate|].
    simpl in Hhd. injection Hhd as ->.
    unfold chars. simpl. now rewrite destroy_outcome_char.
Qed.

Lemma destroy_unnamed_string_diverges_witness :
  destroy_outcome 1000 (IStr "saw#1") Demo.furnished = Exhausted.
Proof.
  apply (proj2 (destroy_unnamed_string_diverges Demo.furnished "saw#1"
                  "s"%char ltac:(discriminate) ltac:(reflexivity)
                  ltac:(vm_compute; auto) ltac:(simpl; auto)
                  ltac:(vm_compute; auto))).
  reflexivity.
Defined.

(** A later character does not get that far when what an earlier one
    names throws: "n" is an annotation pinned to a part that
    [objectAnnotations] does not know, and "z" names nothing. *)
Example destroy_inherited_name_throws :
  unnamed "constructor" Demo.saw /\
  (forall n, destroy_outcome (S n) (IStr "constructor") Demo.saw = Throws).
Proof. split; [vm_compute; auto | reflexivity]. Qed.

Example destroy_earlier_character_throws :
  let s := setAnnotationObject "n" "saw#2"
             (createAnnotation "n"
                (Some (mkAnnotationCfg (Some "saw#1") (Some 0%nat) None None
                         None None None None None None None None))
                Demo.saw) in
  unnamed "nz" s /\ unnamed "z" s /\
  destroy_outcome 3 (IStr "nz") s = Throws.
Proof. repeat split; vm_compute; auto. Qed.

(** C10, as stated, fails: the characters of "ab" name two loaded models,
    and destroying "ab" returns, having destroyed both. *)
Lemma destroy_unnamed_string_returns :
  unnamed "ab" Demo.ab /\
  exists s', destroy 3 (IStr "ab") Demo.ab = Some s' /\
             Dict.keys (models s') = [].
Proof.
  split.
  - vm_compute. auto.
  - eexists. split; vm_compute; reflexivity.
Qed.

(** ** Boundaries *)

Lemma extent_idle (self : Target -> State -> option (Boundary * State))
  (s : State) (l : list Item) :
  forall e valid,
    forallb (fun i => negb (contributes s i)) l = true ->
    extent self l e valid s = Some (e, valid, s).
Proof.
  induction l as [|i rest IH]; intros e valid; simpl; [reflexivity|].
  intros H. apply andb_true_iff in H. destruct H as [Hi Hrest].
  apply negb_true_iff in Hi. unfold contributes in Hi.
  destruct (component_or_model (item_key i) s) as [c|].
  - destruct (worldBoundary c); [discriminate|].
    destruct (component_pos c); [discriminate|]. now apply IH.
  - destruct (Dict.get (item_key i) (types s)) as [b|]; [|now apply IH].
    destruct (Dict.keys b); [now apply IH | discriminate].
Qed.




(** An empty array is not the array of IDs it looks like: its first
    element is no string, so it is returned as a box (viewer.js:1487), and
    the test for an empty array further down is never reached. *)
Lemma getAABB_empty_array (s : State) (n : nat) :
  getAABB (S n) (TgArr []) s = Some (BTarget [], s).
Proof. reflexivity. Qed.

(** ** The order of resolution *)

Lemma apply_ids_in_order (assign : Object -> Object)
  (other : string -> State -> option State)
  (also : list (State -> list string)) :
  resolves_in_order (apply_ids assign other also) assign other.
Proof.
  intros n s id.
  destruct (Dict.get id (objects s)) as [o|] eqn:Eo.
  { simpl. now rewrite Eo. }
  destruct (other id s) as [s1|] eqn:Eother.
  { simpl. now rewrite Eo, Eother. }
  destruct (Dict.get id (types s)) as [b|] eqn:Et.
  - cbn [apply_ids]. rewrite Eo, Eother.
    destruct (Dict.get id (models s)) as [m|] eqn:Em.
    + simpl getObjects. rewrite Eo, Et. reflexivity.
    + rewrite Et. cbv zeta. destruct (Dict.keys b) eqn:Ek; reflexivity.
  - destruct (Dict.get id (models s)) as [m|] eqn:Em.
    + cbn [apply_ids]. rewrite Eo, Eother, Em.
      simpl getObjects. rewrite Eo, Et, Em.
      unfold entities_of. destruct (m_entities m); reflexivity.
    + simpl. now rewrite Eo, Eother, Em, Et.
Qed.




(** ** Names inherited from [Object.prototype] *)

Lemma plain_key (s : State) (k : string) :
  plain s = true ->
  In k (Dict.keys (objects s) ++ Dict.keys (types s) ++ Dict.keys (models s)
        ++ Dict.keys (lights s) ++ Dict.keys (clips s)
        ++ Dict.keys (annotations s)) ->
  inherited k = false.
Proof.
  unfold plain. rewrite forallb_forall. intros H Hin.
  apply H in Hin. now apply negb_true_iff in Hin.
Qed.

Lemma plain_object (s : State) (k : string) :
  plain s = true -> In k (Dict.keys (objects s)) -> inherited k = false.
Proof. intros H Hin. apply (plain_key s k H). rewrite in_app_iff. now left. Qed.

Lemma plain_model (s : State) (k : string) (m : Model) :
  plain s = true -> Dict.get k (models s) = Some m -> inherited k = false.
Proof.
  intros H Hm. apply (plain_key s k H). rewrite !in_app_iff.
  right. right. left. eapply get_some_keys; eassumption.
Qed.

(** For a string that is no inherited name, the lookups of [getObjects]
    find own keys only. *)
Lemma Literal_getObjects_string (id : string) (s : State) :
  inherited id = false ->
  Literal.getObjects (IStr id) s = getObjects (IStr id) s.
Proof.
  intros H. simpl. unfold Dict.mem. rewrite H.
  destruct (Dict.get id (objects s)); reflexivity.
Qed.

(** For an object of the viewer and a type that is no inherited name,
    so do those of [setType]. *)
Lemma Literal_setType_object (id : string) (type : option string)
  (object : Object) (s : State) :
  Dict.get id (objects s) = Some object ->
  inherited (or_default type) = false ->
  Literal.setType (IStr id) type s = setType (IStr id) type s.
Proof.
  intros Ho Hi. cbn [Literal.setType setType]. rewrite Ho. cbv zeta.
  destruct (String.eqb (type_of object) (or_default type)); [reflexivity|].
  rewrite Hi.
  destruct (Dict.get (type_of object) (types s)) as [b|];
    match goal with
    | |- context [Dict.get (or_default type) ?d] =>
        destruct (Dict.get (or_default type) d); reflexivity
    end.
Qed.

(** ** Types *)

Lemma get_in_entries (V : Type) (d : dict V) (k : string) (v : V) :
  Dict.get k d = Some v -> In (k, v) d.
Proof.
  induction d as [|[k' v'] r IH]; simpl; [discriminate|].
  destruct (String.eqb k k') eqn:E.
  - apply String.eqb_eq in E. intros H. injection H as ->. subst. now left.
  - intros H. right. now apply IH.
Qed.

Lemma or_default_nonempty (t : option string) : or_default t <> "".
Proof.
  destruct t as [t|]; simpl; [|discriminate].
  destruct (String.eqb t "") eqn:E; [discriminate|].
  now apply String.eqb_neq.
Qed.

Lemma or_default_some (t : string) : t <> "" -> or_default (Some t) = t.
Proof. intros H. simpl. apply String.eqb_neq in H. now rewrite H. Qed.

Lemma typed_in_bucket_spec (s : State) (o : string) (obj : Object) :
  typed_in_bucket s = true ->
  Dict.get o (objects s) = Some obj ->
  exists b, Dict.get (type_of obj) (types s) = Some b /\ In o (Dict.keys b).
Proof.
  unfold typed_in_bucket. rewrite forallb_forall. intros H Ho.
  specialize (H (o, obj) (@get_in_entries _ _ _ _ Ho)). simpl in H.
  destruct (Dict.get (type_of obj) (types s)) as [b|]; [|discriminate].
  exists b. split; [reflexivity|]. now apply mem_true.
Qed.

(** After [setType(o, T)] the object carries [T] and sits in the bucket
    of [T]; the keys of [objects] are as before. *)
Lemma setType_result (s : State) (o T : string) (obj : Object) :
  typed_in_bucket s = true ->
  Dict.get o (objects s) = Some obj ->
  T <> "" ->
  exists s1 obj1 b1,
    setType (IStr o) (Some T) s = Some s1 /\
    Dict.get o (objects s1) = Some obj1 /\ type_of obj1 = T /\
    Dict.get T (types s1) = Some b1 /\ In o (Dict.keys b1) /\
    (forall k, Dict.get k (objects s) = None -> Dict.get k (objects s1) = None).
Proof.
  intros Hw Ho HT. simpl. rewrite Ho.
  replace (if String.eqb T "" then "DEFAULT" else T) with T
    by (apply String.eqb_neq in HT; now rewrite HT).
  destruct (String.eqb (type_of obj) T) eqn:E.
  - apply String.eqb_eq in E.
    destruct (@typed_in_bucket_spec _ _ _ Hw Ho) as (b & Hb & Hin).
    exists s, obj, b. rewrite <- E. repeat split; auto.
  - eexists _, _, _. split; [reflexivity|]. simpl.
    rewrite !get_set_same. repeat split.
    + unfold type_of. simpl. apply String.eqb_neq in HT. now rewrite HT.
    + apply in_keys_set. now left.
    + intros k Hk. rewrite get_set_other; [assumption|].
      intros ->. congruence.
Qed.

(** What [setType] does to an object, over own keys. *)
Lemma setType_moves_own (s : State) (o T T2 : string) (obj : Object) :
  typed_in_bucket s = true ->
  Dict.get o (objects s) = Some obj ->
  T <> "" -> T2 <> "" -> T <> T2 ->
  Dict.get T (objects s) = None -> Dict.get T2 (objects s) = None ->
  exists s1 s2 obj1,
    setType (IStr o) (Some T) s = Some s1 /\
    Dict.get o (objects s1) = Some obj1 /\
    In o (fst (getObjects (IStr T) s1)) /\
    setType (IStr o) (Some T2) s1 = Some s2 /\
    ~ In o (fst (getObjects (IStr T) s2)) /\
    In o (fst (getObjects (IStr T2) s2)).
Proof.
  intros Hw Ho HT HT2 Hne HTo HT2o.
  destruct (@setType_result _ _ T _ Hw Ho HT)
    as (s1 & obj1 & b1 & Hs1 & Ho1 & Hty1 & Hb1 & Hin1 & Hkeep).
  exists s1. eexists. exists obj1.
  split; [exact Hs1|]. split; [exact Ho1|]. split.
  { simpl. rewrite (Hkeep _ HTo), Hb1. exact Hin1. }
  simpl setType. rewrite Ho1, Hty1.
  replace (if String.eqb T2 "" then "DEFAULT" else T2) with T2
    by (apply String.eqb_neq in HT2; now rewrite HT2).
  apply String.eqb_neq in Hne. rewrite Hne. rewrite Hb1.
  apply String.eqb_neq in Hne.
  split; [reflexivity|].
  assert (HTo2 : forall k, Dict.get k (objects s) = None ->
                           Dict.get k (Dict.set o (with_metaType (Some T2) obj1)
                                         (objects s1)) = None).
  { intros k Hk. rewrite get_set_other; [now apply Hkeep|].
    intros ->. congruence. }
  split.
  + simpl. rewrite (HTo2 _ HTo).
    rewrite get_set_other by assumption. rewrite get_set_same. simpl.
    intros Hin. apply in_keys_del in Hin. now destruct Hin.
  + simpl. rewrite (HTo2 _ HT2o). rewrite get_set_same. simpl.
    apply in_keys_set. now left.
Qed.

(** C6, as amended. In a viewer whose objects are each in the bucket of
    their type, for an existing object [o] and two distinct, non-empty
    type strings [T] and [T2], neither of them the ID of an object or a
    name inherited from [Object.prototype]: [setType(o, T)] puts [o] into
    what [T] resolves to; a following [setType(o, T2)] takes it out of
    what [T] resolves to and puts it into what [T2] resolves to.  Setting
    the type an object has changes nothing, and a type that is not given
    is "DEFAULT", which is also the type of an object without one. *)
Theorem setType_moves (s : State) (o T T2 : string) (obj : Object) :
  typed_in_bucket s = true ->
  Dict.get o (objects s) = Some obj ->
  T <> "" -> T2 <> "" -> T <> T2 ->
  inherited T = false -> inherited T2 = false ->
  Dict.get T (objects s) = None -> Dict.get T2 (objects s) = None ->
  (exists s1 s2,
      Literal.setType (IStr o) (Some T) s = Some s1 /\
      In o (fst (Literal.getObjects (IStr T) s1)) /\
      Literal.setType (IStr o) (Some T2) s1 = Some s2 /\
      ~ In o (fst (Literal.getObjects (IStr T) s2)) /\
      In o (fst (Literal.getObjects (IStr T2) s2))) /\
  Literal.setType (IStr o) (Some (type_of obj)) s = Some s /\
  Literal.setType (IStr o) None s
  = Literal.setType (IStr o) (Some "DEFAULT") s /\
  (o_metaType obj = None -> fst (getType o s) = Some "DEFAULT").
Proof.
  intros Hw Ho HT HT2 Hne Hi Hi2 HTo HT2o.
  split; [|split; [|split]].
  - destruct (@setType_moves_own s o T T2 obj Hw Ho HT HT2 Hne HTo HT2o)
      as (s1 & s2 & obj1 & H1 & Ho1 & H2 & H3 & H4 & H5).
    exists s1, s2.
    rewrite (@Literal_setType_object o (Some T) obj s Ho)
      by now rewrite or_default_some.
    rewrite (@Literal_setType_object o (Some T2) obj1 s1 Ho1)
      by now rewrite or_default_some.
    rewrite !Literal_getObjects_string by assumption. tauto.
  - cbn [Literal.setType]. rewrite Ho. cbv zeta.
    assert (E : or_default (Some (type_of obj)) = type_of obj)
      by apply or_default_some, or_default_nonempty.
    now rewrite E, String.eqb_refl.
  - reflexivity.
  - unfold getType. rewrite Ho. unfold type_of. intros ->. reflexivity.
Qed.

Lemma setType_moves_witness :
  exists s1 s2,
    Literal.setType (IStr "saw#1") (Some "metal") Demo.furnished = Some s1 /\
    In "saw#1" (fst (Literal.getObjects (IStr "metal") s1)) /\
    Literal.setType (IStr "saw#1") (Some "wood") s1 = Some s2 /\
    ~ In "saw#1" (fst (Literal.getObjects (IStr "metal") s2)) /\
    In "saw#1" (fst (Literal.getObjects (IStr "wood") s2)).
Proof.
  assert (Ho : exists obj, Dict.get "saw#1" (objects Demo.furnished) = Some obj)
    by (eexists; vm_compute; reflexivity).
  destruct Ho as [obj Ho].
  refine (proj1 (@setType_moves Demo.furnished "saw#1" "metal" "wood" obj
                   _ Ho _ _ _ _ _ _ _)); try discriminate;
    vm_compute; reflexivity.
Defined.

(** C6, as stated, fails: "saw#2" is the ID of an object, so after
    [setType("saw#1", "saw#2")] it still resolves to that object alone. *)
Lemma type_shadowed_by_object :
  exists s1,
    Literal.setType (IStr "saw#1") (Some "saw#2") Demo.furnished = Some s1 /\
    fst (Literal.getObjects (IStr "saw#2") s1) = ["saw#2"] /\
    ~ In "saw#1" (fst (Literal.getObjects (IStr "saw#2") s1)).
Proof.
  eexists. split; [vm_compute; reflexivity|]. split; [vm_compute; reflexivity|].
  vm_compute. intros [H|[]]. discriminate.
Qed.

(** A type that is a name inherited from [Object.prototype] gets no
    bucket, and the name resolves to itself. *)
Example setType_inherited_type :
  exists s1,
    Literal.setType (IStr "saw#1") (Some "constructor") Demo.furnished
    = Some s1 /\
    Dict.get "constructor" (types s1) = None /\
    fst (Literal.getObjects (IStr "constructor") s1) = ["constructor"].
Proof. eexists. repeat split; vm_compute; reflexivity. Qed.

(** ** What a model and a list resolve to *)

Example demo_retagged :
  setType (IStr "saw#2") (Some "saw") Demo.furnished = Some Demo.retagged.
Proof. vm_compute. reflexivity. Qed.

Lemma nodupb_NoDup (l : list string) : nodupb l = true -> NoDup l.
Proof.
  induction l as [|x r IH]; simpl; [constructor|].
  intros H. apply andb_true_iff in H. destruct H as [Hx Hr].
  constructor; [|now apply IH].
  intros Hin. apply negb_true_iff in Hx.
  assert (existsb (String.eqb x) r = true); [|congruence].
  apply existsb_exists. exists x. split; [assumption | apply String.eqb_refl].
Qed.

Lemma strings_eqb_eq (a b : list string) : strings_eqb a b = true -> a = b.
Proof. unfold strings_eqb. destruct (list_eq_dec string_dec a b); congruence. Qed.

Lemma existsb_eqb_in (x : string) (l : list string) :
  existsb (String.eqb x) l = true <-> In x l.
Proof.
  rewrite existsb_exists. split.
  - intros (y & Hy & E). apply String.eqb_eq in E. now subst.
  - intros H. exists x. split; [assumption | apply String.eqb_refl].
Qed.

Lemma uniq_app (a b seen : list string) :
  uniq seen (a ++ b) = uniq seen a ++ uniq (seen ++ uniq seen a) b.
Proof.
  revert seen. induction a as [|x a IH]; intros seen; simpl.
  - now rewrite app_nil_r.
  - destruct (existsb (String.eqb x) seen); [apply IH|].
    simpl. rewrite IH. now rewrite <- app_assoc.
Qed.

(** [got] marks what [result] holds. *)
Definition marks (got : dict unit) (result : list string) : Prop :=
  forall k, Dict.get k got <> None <-> In k result.

Lemma push_new_uniq (buf : list string) :
  forall got result,
    marks got result ->
    snd (push_new buf got result) = result ++ uniq result buf /\
    marks (fst (push_new buf got result)) (result ++ uniq result buf).
Proof.
  induction buf as [|x rest IH]; intros got result Hm; simpl.
  - rewrite app_nil_r. auto.
  - destruct (Dict.get x got) eqn:E.
    + assert (Hin : existsb (String.eqb x) result = true).
      { apply existsb_eqb_in, Hm. congruence. }
      rewrite Hin. now apply IH.
    + assert (Hin : existsb (String.eqb x) result = false).
      { destruct (existsb (String.eqb x) result) eqn:Ex; [|reflexivity].
        apply existsb_eqb_in, Hm in Ex. congruence. }
      rewrite Hin.
      replace (result ++ x :: uniq (result ++ [x]) rest)
        with ((result ++ [x]) ++ uniq (result ++ [x]) rest)
        by now rewrite <- app_assoc.
      apply IH. intros k. rewrite in_app_iff. simpl.
      destruct (string_dec k x) as [->|N].
      * rewrite get_set_same. split; [auto | congruence].
      * rewrite get_set_other by assumption. rewrite (Hm k).
        split; [auto | intros [?|[?|[]]]; [assumption | congruence]].
Qed.

Lemma collect_uniq (xs : list Ids) (s : State) :
  forall got result s1,
    logged s s1 -> marks got result ->
    fst (collect getObjects xs got result s1)
    = result ++ uniq result (concat (map (fun x => fst (getObjects x s)) xs)).
Proof.
  induction xs as [|x rest IH]; intros got result s1 [l ->] Hm; simpl.
  - now rewrite app_nil_r.
  - pose proof (getObjects_set_log x s l) as Hbuf.
    pose proof (getObjects_logged x (set_log l s)) as Hlog.
    destruct (getObjects x (set_log l s)) as [buf s2]. simpl in Hbuf, Hlog.
    destruct (push_new_uniq buf got result Hm) as [Hres Hm1].
    destruct (push_new buf got result) as [got1 result1]. simpl in Hres, Hm1.
    rewrite (IH got1 result1 s2).
    + subst. rewrite uniq_app. now rewrite app_assoc.
    + eapply logged_trans; [|exact Hlog]. now exists l.
    + now subst.
Qed.

Lemma getObjects_array (l : list Ids) (s : State) :
  fst (getObjects (IArr l) s)
  = dedup (concat (map (fun x => fst (getObjects x s)) l)).
Proof.
  simpl. rewrite (@collect_uniq l s Dict.empty [] s (logged_refl s)).
  - reflexivity.
  - intros k. simpl. tauto.
Qed.

(** The same with the lookups of the source, where the table [got]
    also finds what [Object.prototype] hands down: an inherited name is
    taken for seen. *)
Definition own_names (buf : list string) : list string :=
  filter (fun k => negb (inherited k)) buf.

Lemma Literal_push_new_own (buf : list string) :
  forall got result,
    Literal.push_new buf got result = push_new (own_names buf) got result.
Proof.
  induction buf as [|x rest IH]; intros got result; simpl; [reflexivity|].
  unfold Dict.mem. destruct (inherited x); simpl.
  - rewrite orb_true_r. apply IH.
  - rewrite orb_false_r. destruct (Dict.get x got); apply IH.
Qed.

Definition Literal_log_blind (q : Ids) : Prop :=
  (forall s l, fst (Literal.getObjects q (set_log l s))
               = fst (Literal.getObjects q s)) /\
  (forall s, logged s (snd (Literal.getObjects q s))).

Lemma Literal_collect_log_blind (xs : list Ids) :
  Forall Literal_log_blind xs ->
  forall got result,
    (forall s l,
        fst (Literal.collect Literal.getObjects xs got result (set_log l s))
        = fst (Literal.collect Literal.getObjects xs got result s)) /\
    (forall s,
        logged s (snd (Literal.collect Literal.getObjects xs got result s))).
Proof.
  induction 1 as [|x rest [Hx1 Hx2] _ IH]; intros got result.
  - split; intros; simpl; [reflexivity | apply logged_refl].
  - split.
    + intros s l. simpl.
      specialize (Hx1 s l).
      destruct (Hx2 (set_log l s)) as [l1 E1].
      destruct (Hx2 s) as [l2 E2].
      destruct (Literal.getObjects x (set_log l s)) as [buf1 s1].
      destruct (Literal.getObjects x s) as [buf2 s2]. simpl in *. subst.
      destruct (Literal.push_new buf2 got result) as [got1 result1].
      destruct (IH got1 result1) as [IH1 _].
      change (set_log l1 (set_log l s)) with (set_log l1 s).
      now rewrite !IH1.
    + intros s. simpl.
      destruct (Hx2 s) as [l2 E2].
      destruct (Literal.getObjects x s) as [buf2 s2]. simpl in *. subst.
      destruct (Literal.push_new buf2 got result) as [got1 result1].
      destruct (IH got1 result1) as [_ IH2].
      eapply logged_trans; [|apply IH2]. now eexists.
Qed.

Lemma Literal_getObjects_log_blind (q : Ids) : Literal_log_blind q.
Proof.
  induction q as [|id|l IH] using Ids_nested_ind.
  - split; intros; simpl; [reflexivity | apply logged_refl].
  - split.
    + intros s l. simpl.
      destruct (Dict.mem id (objects s) || inherited id); [reflexivity|].
      destruct (Dict.get id (types s)); [reflexivity|].
      destruct (Dict.get id (models s)) as [m|]; [|reflexivity].
      destruct (m_entities m); reflexivity.
    + intros s. simpl.
      destruct (Dict.mem id (objects s) || inherited id); [apply logged_refl|].
      destruct (Dict.get id (types s)); [apply logged_refl|].
      destruct (Dict.get id (models s)) as [m|]; [|apply logged_error].
      destruct (m_entities m); apply logged_refl.
  - destruct (Literal_collect_log_blind l IH Dict.empty []) as [H1 H2].
    split; intros; simpl; auto.
Qed.

Lemma Literal_collect_uniq (xs : list Ids) (s : State) :
  forall got result s1,
    logged s s1 -> marks got result ->
    fst (Literal.collect Literal.getObjects xs got result s1)
    = result
      ++ uniq result
           (concat (map (fun x => own_names (fst (Literal.getObjects x s))) xs)).
Proof.
  induction xs as [|x rest IH]; intros got result s1 [l ->] Hm; simpl.
  - now rewrite app_nil_r.
  - pose proof (proj1 (Literal_getObjects_log_blind x) s l) as Hbuf.
    pose proof (proj2 (Literal_getObjects_log_blind x) (set_log l s)) as Hlog.
    destruct (Literal.getObjects x (set_log l s)) as [buf s2].
    simpl in Hbuf, Hlog.
    rewrite Literal_push_new_own.
    destruct (push_new_uniq (own_names buf) got result Hm) as [Hres Hm1].
    destruct (push_new (own_names buf) got result) as [got1 result1].
    simpl in Hres, Hm1.
    rewrite (IH got1 result1 s2).
    + subst. rewrite uniq_app. now rewrite app_assoc.
    + eapply logged_trans; [|exact Hlog]. now exists l.
    + now subst.
Qed.

(** For an array the source returns what its elements resolve to, one
    after the other, without the inherited names and without what was
    seen before. *)
Lemma Literal_getObjects_array (l : list Ids) (s : State) :
  fst (Literal.getObjects (IArr l) s)
  = dedup (concat (map (fun x => own_names (fst (Literal.getObjects x s))) l)).
Proof.
  simpl. rewrite (@Literal_collect_uniq l s Dict.empty [] s (logged_refl s)).
  - reflexivity.
  - intros k. simpl. tauto.
Qed.

Lemma own_names_all (buf : list string) :
  (forall o, In o buf -> inherited o = false) -> own_names buf = buf.
Proof.
  induction buf as [|x rest IH]; intros H; simpl; [reflexivity|].
  rewrite (H x) by now left. simpl. f_equal. apply IH.
  intros o Ho. apply H. now right.
Qed.

Lemma concat_own_names (A : Type) (F : A -> list string) (l : list A) :
  (forall o, In o (concat (map F l)) -> inherited o = false) ->
  concat (map (fun x => own_names (F x)) l) = concat (map F l).
Proof.
  induction l as [|x rest IH]; intros H; simpl; [reflexivity|].
  simpl in H. rewrite own_names_all, IH; [reflexivity| |].
  - intros o Ho. apply H. rewrite in_app_iff. now right.
  - intros o Ho. apply H. rewrite in_app_iff. now left.
Qed.

Lemma entities_owned_spec (s : State) (m : string) (model : Model) :
  entities_owned s = true ->
  Dict.get m (models s) = Some model ->
  entities_of model = owned m s.
Proof.
  unfold entities_owned. rewrite forallb_forall. intros H Hm.
  apply strings_eqb_eq. exact (H (m, model) (@get_in_entries _ _ _ _ Hm)).
Qed.

(** C2, as amended. For a loaded model whose ID is neither the ID of an
    object nor a type tag, nor a name inherited from [Object.prototype],
    [getObjects] returns the IDs of the objects the model owns, each once,
    in the order of the [objects] map.  For an array none of whose
    elements resolves to such an inherited name, it returns the results
    of its elements, one after the other, without what was seen before. *)
Theorem model_resolution (s : State) (m : string) (model : Model) :
  objects_distinct s = true ->
  entities_owned s = true ->
  Dict.get m (models s) = Some model ->
  Dict.get m (objects s) = None ->
  Dict.get m (types s) = None ->
  inherited m = false ->
  fst (Literal.getObjects (IStr m) s) = owned m s /\
  NoDup (owned m s) /\
  forall l,
    (forall o, In o (concat (map (fun x => fst (Literal.getObjects x s)) l)) ->
               inherited o = false) ->
    fst (Literal.getObjects (IArr l) s)
    = dedup (concat (map (fun x => fst (Literal.getObjects x s)) l)).
Proof.
  intros Hd He Hm Ho Ht Hi. split; [|split].
  - rewrite Literal_getObjects_string by assumption.
    simpl. rewrite Ho, Ht, Hm.
    rewrite <- (@entities_owned_spec _ _ _ He Hm). unfold entities_of.
    destruct (m_entities model); reflexivity.
  - apply NoDup_filter. now apply nodupb_NoDup.
  - intros l Hl. rewrite Literal_getObjects_array.
    now rewrite concat_own_names.
Qed.

Lemma model_resolution_witness :
  fst (Literal.getObjects (IStr "saw") Demo.furnished)
  = owned "saw" Demo.furnished /\
  owned "saw" Demo.furnished = ["saw#1"; "saw#2"] /\
  fst (Literal.getObjects (IArr [IStr "saw#2"; IStr "saw"]) Demo.furnished)
  = dedup (concat (map (fun x => fst (Literal.getObjects x Demo.furnished))
                     [IStr "saw#2"; IStr "saw"])).
Proof.
  assert (Hm : exists model, Dict.get "saw" (models Demo.furnished) = Some model)
    by (eexists; vm_compute; reflexivity).
  destruct Hm as [model Hm].
  destruct (@model_resolution Demo.furnished "saw" model) as (H1 & _ & H3);
    try (vm_compute; reflexivity); [exact Hm|].
  split; [exact H1|]. split; [vm_compute; reflexivity|].
  apply H3.
  vm_compute. intros o [<-|[<-|[<-|[]]]]; reflexivity.
Defined.

(** C2, as stated, fails: "saw" is a loaded model and, after
    [setType("saw#2", "saw")], also a type; it resolves to the bucket of
    the type, not to the two objects the model owns. *)
Lemma model_shadowed_by_type :
  Dict.mem "saw" (models Demo.retagged) = true /\
  owned "saw" Demo.retagged = ["saw#1"; "saw#2"] /\
  fst (Literal.getObjects (IStr "saw") Demo.retagged) = ["saw#2"].
Proof. repeat split; vm_compute; reflexivity. Qed.

(** An inherited name resolves to itself, in any viewer, and an array
    leaves it out: the table of what was seen finds it before it was
    put there. *)
Example getObjects_inherited_name (s : State) :
  fst (Literal.getObjects (IStr "constructor") s) = ["constructor"] /\
  fst (Literal.getObjects (IArr [IStr "constructor"]) s) = [].
Proof.
  split.
  - simpl. now rewrite orb_true_r.
  - simpl. rewrite orb_true_r. reflexivity.
Qed.

(** ** Destroying a model *)

(** What the parts of [wf] say. *)
Lemma wf_parts (s : State) :
  wf s ->
  objects_distinct s = true /\ entities_owned s = true /\
  typed_in_bucket s = true /\ bucket_typed s = true /\
  objects_owned s = true /\ one_namespace s = true /\
  written_together s = true.
Proof.
  unfold wf, wfb. intros H.
  repeat (apply andb_true_iff in H; destruct H as [H ?]). auto 10.
Qed.

Lemma bucket_typed_spec (s : State) :
  bucket_typed s = true ->
  forall t b o, Dict.get t (types s) = Some b -> In o (Dict.keys b) ->
                exists obj, Dict.get o (objects s) = Some obj /\ type_of obj = t.
Proof.
  unfold bucket_typed. rewrite forallb_forall. intros H t b o Ht Ho.
  specialize (H (t, b) (@get_in_entries _ _ _ _ Ht)). simpl in H.
  rewrite forallb_forall in H. specialize (H o Ho).
  destruct (Dict.get o (objects s)) as [obj|]; [|discriminate].
  exists obj. split; [reflexivity|]. now apply String.eqb_eq.
Qed.

Lemma disjointb_spec (a b : list string) (k : string) :
  disjointb a b = true -> In k a -> ~ In k b.
Proof.
  unfold disjointb. rewrite forallb_forall. intros H Ha Hb.
  specialize (H k Ha). apply negb_true_iff in H.
  apply existsb_eqb_in in Hb. congruence.
Qed.

(** The ID of a model is not empty and names nothing else. *)
Lemma one_namespace_model (s : State) (m : string) (model : Model) :
  one_namespace s = true ->
  Dict.get m (models s) = Some model ->
  m <> "" /\ Dict.get m (objects s) = None /\ Dict.get m (lights s) = None /\
  Dict.get m (clips s) = None /\ Dict.get m (annotations s) = None.
Proof.
  unfold one_namespace. cbv zeta. intros H Hm.
  repeat (apply andb_true_iff in H; destruct H as [H ?]).
  apply get_some_keys in Hm.
  match goal with
  | D : disjointb (Dict.keys (models s)) _ = true |- _ =>
      pose proof (@disjointb_spec _ _ m D Hm) as Hd
  end.
  rewrite !in_app_iff in Hd.
  split.
  - intros ->. apply negb_true_iff in H.
    assert (existsb (String.eqb "")
              (Dict.keys (objects s) ++ Dict.keys (models s)
               ++ Dict.keys (lights s) ++ Dict.keys (clips s)
               ++ Dict.keys (annotations s)) = true); [|congruence].
    apply existsb_eqb_in. rewrite !in_app_iff. auto.
  - repeat split; apply get_none_keys; tauto.
Qed.

(** The invariant that [bucket_typed] checks. *)
Definition buckets_typed (s : State) : Prop :=
  forall t b o, Dict.get t (types s) = Some b -> In o (Dict.keys b) ->
                exists obj, Dict.get o (objects s) = Some obj /\ type_of obj = t.

Lemma destroy_entity_types (s : State) (o t : string) (b' : dict unit) :
  Dict.get t (types (destroy_entity s o)) = Some b' ->
  exists b, Dict.get t (types s) = Some b /\
            (forall k, In k (Dict.keys b') -> In k (Dict.keys b)) /\
            (t = match Dict.get o (objects s) with
                 | Some entity => type_of entity
                 | None => "DEFAULT"
                 end -> b' = Dict.del o b).
Proof.
  unfold destroy_entity.
  set (type := match Dict.get o (objects s) with
               | Some entity => type_of entity
               | None => "DEFAULT"
               end).
  destruct (Dict.get type (types s)) as [bt|] eqn:Et; simpl.
  - destruct (string_dec t type) as [->|N].
    + rewrite get_set_same. intros H. injection H as <-.
      exists bt. repeat split; auto.
      intros k Hk. now apply in_keys_del in Hk.
    + rewrite get_set_other by assumption. intros H.
      exists b'. repeat split; auto. contradiction.
  - intros H. exists b'. repeat split; auto.
    intros ->. congruence.
Qed.

Lemma destroy_entity_objects (s : State) (o : string) :
  objects (destroy_entity s o) = Dict.del o (objects s).
Proof. unfold destroy_entity. now destruct (Dict.get _ (types s)). Qed.

Lemma destroy_entity_models (s : State) (o : string) :
  models (destroy_entity s o) = models s.
Proof. unfold destroy_entity. now destruct (Dict.get _ (types s)). Qed.

(** After its round of the loop an entity is gone, and the buckets still
    hold objects of their type only. *)
Lemma destroy_entity_gone (s : State) (o : string) :
  buckets_typed s ->
  gone o (destroy_entity s o) /\ buckets_typed (destroy_entity s o).
Proof.
  intros Hb.
  assert (Hout : forall t b' o', Dict.get t (types (destroy_entity s o)) = Some b' ->
                                 In o' (Dict.keys b') ->
                                 o' <> o /\
                                 exists obj, Dict.get o' (objects s) = Some obj /\
                                             type_of obj = t).
  { intros t b' o' Ht Hin.
    destruct (destroy_entity_types _ _ _ _ Ht) as (b & Hbt & Hsub & Hdel).
    destruct (Hb t b o' Hbt (Hsub _ Hin)) as (obj' & Ho' & Hty).
    split; [|eauto].
    intros ->. rewrite Ho' in Hdel. specialize (Hdel (eq_sym Hty)). subst b'.
    apply in_keys_del in Hin. now destruct Hin. }
  split.
  - unfold gone. rewrite destroy_entity_objects.
    repeat split;
      try (unfold destroy_entity; destruct (Dict.get _ (types s)); simpl;
           apply get_del_same).
    + apply get_del_same.
    + intros t b Ht Hin. now destruct (Hout t b o Ht Hin).
  - intros t b' o' Ht Hin.
    destruct (Hout t b' o' Ht Hin) as (Hne & obj & Ho & Hty).
    exists obj. rewrite destroy_entity_objects.
    now rewrite get_del_other.
Qed.

(** What is gone stays gone. *)
Lemma destroy_entity_keeps_gone (s : State) (o o' : string) :
  gone o s -> gone o (destroy_entity s o').
Proof.
  intros (H1 & H2 & H3 & H4 & H5 & H6 & H7 & H8).
  unfold gone. rewrite destroy_entity_objects.
  repeat split;
    try (unfold destroy_entity; destruct (Dict.get _ (types s)); simpl;
         now apply get_del_none).
  - now apply get_del_none.
  - intros t b' Ht Hin.
    destruct (destroy_entity_types _ _ _ _ Ht) as (b & Hbt & Hsub & _).
    exact (H8 t b Hbt (Hsub _ Hin)).
Qed.

Lemma fold_destroy_keeps_gone (es : list string) :
  forall s o, gone o s -> gone o (fold_left destroy_entity es s).
Proof.
  induction es as [|x r IH]; intros s o H; simpl; auto.
  apply IH. now apply destroy_entity_keeps_gone.
Qed.

Lemma fold_destroy_gone (es : list string) :
  forall s o,
    buckets_typed s -> In o es -> gone o (fold_left destroy_entity es s).
Proof.
  induction es as [|x r IH]; intros s o Hb Hin; simpl; [contradiction|].
  destruct (destroy_entity_gone s x Hb) as [Hg Hb'].
  destruct Hin as [->|Hin].
  - now apply fold_destroy_keeps_gone.
  - now apply IH.
Qed.

Lemma fold_destroy_models (es : list string) :
  forall s, models (fold_left destroy_entity es s) = models s.
Proof.
  induction es as [|x r IH]; intros s; simpl; auto.
  now rewrite IH, destroy_entity_models.
Qed.

Lemma fold_destroy_objects_none (es : list string) (k : string) :
  forall s, Dict.get k (objects s) = None ->
            Dict.get k (objects (fold_left destroy_entity es s)) = None.
Proof.
  induction es as [|x r IH]; intros s H; simpl; auto.
  apply IH. rewrite destroy_entity_objects. now apply get_del_none.
Qed.

Lemma fold_destroy_types_none (es : list string) (k : string) :
  forall s, Dict.get k (types s) = None ->
            Dict.get k (types (fold_left destroy_entity es s)) = None.
Proof.
  induction es as [|x r IH]; intros s H; simpl; auto.
  apply IH.
  destruct (Dict.get k (types (destroy_entity s x))) as [b'|] eqn:E; auto.
  destruct (destroy_entity_types _ _ _ _ E) as (b & Hb & _). congruence.
Qed.

Lemma uniq_in (k : string) (l : list string) :
  forall seen, In k (uniq seen l) -> In k l.
Proof.
  induction l as [|x r IH]; intros seen; simpl; auto.
  destruct (existsb (String.eqb x) seen).
  - intros H. right. eapply IH; eassumption.
  - intros [->|H]; [now left | right; eapply IH; eassumption].
Qed.

(** An object that is gone, that no model lists and whose ID is no
    inherited name is in no result of [getObjects]. *)
Lemma getObjects_excludes (s : State) (o : string) :
  gone o s ->
  inherited o = false ->
  (forall m model, Dict.get m (models s) = Some model ->
                   ~ In o (entities_of model)) ->
  forall q, ~ In o (fst (Literal.getObjects q s)).
Proof.
  intros (Ho & _ & _ & _ & _ & _ & _ & Hb) Hi Hm.
  induction q as [|id|l IH] using Ids_nested_ind.
  - simpl. now apply get_none_keys.
  - simpl. unfold Dict.mem. destruct (Dict.get id (objects s)) eqn:Eo.
    { simpl. intros [->|[]]. congruence. }
    destruct (inherited id) eqn:Ei.
    { simpl. intros [->|[]]. congruence. }
    simpl.
    destruct (Dict.get id (types s)) as [b|] eqn:Et.
    { simpl. eapply Hb; eassumption. }
    destruct (Dict.get id (models s)) as [model|] eqn:Em; [|simpl; tauto].
    specialize (Hm _ _ Em). unfold entities_of in Hm.
    destruct (m_entities model); simpl; auto.
  - rewrite Literal_getObjects_array. intros Hin. apply uniq_in in Hin.
    apply in_concat in Hin. destruct Hin as (buf & Hbuf & Hin).
    apply in_map_iff in Hbuf. destruct Hbuf as (x & <- & Hx).
    apply filter_In in Hin. destruct Hin as [Hin _].
    rewrite Forall_forall in IH. exact (IH x Hx Hin).
Qed.

Lemma destroy_model_keeps_gone (m o : string) (model : Model) (s : State) :
  gone o (fold_left destroy_entity (entities_of model) s) ->
  gone o (destroy_model m model s).
Proof.
  unfold destroy_model, entities_of, default.
  set (s1 := fold_left destroy_entity _ s).
  intros (H1 & H2 & H3 & H4 & H5 & H6 & H7 & H8).
  destruct (hook_unloadedModel _); unfold gone; simpl;
    repeat split; auto; now apply get_del_none.
Qed.

Lemma destroy_model_models (m : string) (model : Model) (s : State) :
  models (destroy_model m model s) = Dict.del m (models s).
Proof.
  unfold destroy_model.
  destruct (hook_unloadedModel _); simpl; now rewrite fold_destroy_models.
Qed.

Lemma destroy_model_objects_none (m k : string) (model : Model) (s : State) :
  Dict.get k (objects s) = None ->
  Dict.get k (objects (destroy_model m model s)) = None.
Proof.
  intros H. unfold destroy_model.
  destruct (hook_unloadedModel _); simpl; now apply fold_destroy_objects_none.
Qed.

Lemma destroy_model_types_none (m k : string) (model : Model) (s : State) :
  Dict.get k (types s) = None ->
  Dict.get k (types (destroy_model m model s)) = None.
Proof.
  intros H. unfold destroy_model.
  destruct (hook_unloadedModel _); simpl; now apply fold_destroy_types_none.
Qed.

Lemma owned_owner (m o : string) (s : State) :
  In o (owned m s) -> Dict.get o (objectModels s) = Some m.
Proof.
  unfold owned. intros H. apply filter_In in H. destruct H as [_ H].
  unfold owner_is in H. destruct (Dict.get o (objectModels s)); [|discriminate].
  apply String.eqb_eq in H. now subst.
Qed.



(** With the empty string for its ID a model is loaded like any other,
    but [destroy("")] is the call that destroys everything, and that one
    leaves the type buckets as they are: the objects of the model are
    still listed under their types. *)
Example destroy_empty_id_keeps_buckets :
  let s := Demo.force (loadModel Demo.fetch 3 "" (SrcPath "saw.gltf") None
                         Demo.start) in
  Dict.mem "" (models s) = true /\
  owned "" s = ["#1"; "#2"] /\
  exists s',
    destroy_outcome 3 (IStr "") s = Returns s' /\
    Dict.get "#1" (objects s') = None /\
    fst (Literal.getObjects (IStr "cover") s') = ["#2"].
Proof.
  repeat split; try (vm_compute; reflexivity).
  eexists. repeat split; vm_compute; reflexivity.
Qed.


(** ** Clearing the viewer *)

Lemma keys_nil (V : Type) (d : dict V) : Dict.keys d = [] -> d = [].
Proof. destruct d; [reflexivity | discriminate]. Qed.

Lemma keys_del_head (V : Type) (d : dict V) (k : string) (r : list string) :
  NoDup (k :: r) -> Dict.keys d = k :: r -> Dict.keys (Dict.del k d) = r.
Proof.
  intros Hnd Hk. rewrite keys_del, Hk. simpl. rewrite String.eqb_refl. simpl.
  inversion Hnd as [|? ? Hnotin _]; subst.
  clear Hk Hnd. induction r as [|x r IH]; simpl; [reflexivity|].
  destruct (String.eqb k x) eqn:E.
  - apply String.eqb_eq in E. subst. exfalso. apply Hnotin. now left.
  - simpl. f_equal. apply IH. intros H. apply Hnotin. now right.
Qed.

(** A loop over the keys of a map whose every round deletes its key
    empties the map. *)
Lemma each_deletes_all (V : Type) (field : State -> dict V)
  (step : string -> State -> option State) (I : State -> Prop) :
  (forall k s, I s -> Dict.get k (field s) <> None ->
               exists s', step k s = Some s' /\
                          field s' = Dict.del k (field s) /\ I s') ->
  forall l s,
    Dict.keys (field s) = l -> NoDup l -> I s ->
    exists s', each step l s = Some s' /\ field s' = [] /\ I s'.
Proof.
  intros Hstep. induction l as [|k r IH]; intros s Hk Hnd Hi; simpl.
  - exists s. repeat split; auto. now apply keys_nil.
  - assert (Hin : Dict.get k (field s) <> None).
    { apply get_in_keys. rewrite Hk. now left. }
    destruct (Hstep k s Hi Hin) as (s1 & Hs1 & Hf1 & Hi1).
    rewrite Hs1.
    apply IH; [|now inversion Hnd | assumption].
    rewrite Hf1. now apply keys_del_head.
Qed.

Lemma one_namespace_spec (s : State) :
  one_namespace s = true ->
  (forall k, In k (Dict.keys (objects s) ++ Dict.keys (models s)
                   ++ Dict.keys (lights s) ++ Dict.keys (clips s)
                   ++ Dict.keys (annotations s)) -> k <> "") /\
  NoDup (Dict.keys (models s)) /\ NoDup (Dict.keys (lights s)) /\
  NoDup (Dict.keys (clips s)) /\ NoDup (Dict.keys (annotations s)) /\
  (forall k, In k (Dict.keys (models s)) ->
             ~ In k (Dict.keys (objects s) ++ Dict.keys (lights s)
                     ++ Dict.keys (clips s) ++ Dict.keys (annotations s))) /\
  (forall k, In k (Dict.keys (clips s)) ->
             ~ In k (Dict.keys (lights s) ++ Dict.keys (annotations s))) /\
  (forall k, In k (Dict.keys (lights s)) ->
             ~ In k (Dict.keys (annotations s))).
Proof.
  unfold one_namespace. cbv zeta. intros H.
  repeat (apply andb_true_iff in H; destruct H as [H ?]).
  repeat split; try (apply nodupb_NoDup; assumption);
    try (intros k Hk; eapply disjointb_spec; eassumption).
  intros k Hk ->. apply negb_true_iff in H.
  apply existsb_eqb_in in Hk. congruence.
Qed.

(** Every object is listed by a loaded model. *)
Definition objects_listed (s : State) : Prop :=
  forall o, In o (Dict.keys (objects s)) ->
            exists m model, Dict.get m (models s) = Some model /\
                            In o (entities_of model).

Lemma wf_objects_listed (s : State) : wf s -> objects_listed s.
Proof.
  intros Hwf o Ho.
  destruct (wf_parts s Hwf) as (_ & He & _ & _ & Hoo & _ & _).
  unfold objects_owned in Hoo. rewrite forallb_forall in Hoo.
  specialize (Hoo o Ho).
  destruct (Dict.get o (objectModels s)) as [m|] eqn:Em; [|discriminate].
  apply mem_true, get_in_keys in Hoo.
  destruct (Dict.get m (models s)) as [model|] eqn:Emm; [|congruence].
  exists m, model. split; [exact Emm|].
  rewrite (@entities_owned_spec s m model He Emm).
  unfold owned. apply filter_In. split; [assumption|].
  unfold owner_is. rewrite Em. apply String.eqb_refl.
Qed.

Lemma fold_destroy_objects_in (es : list string) (o : string) :
  forall s, In o (Dict.keys (objects (fold_left destroy_entity es s))) ->
            In o (Dict.keys (objects s)) /\ ~ In o es.
Proof.
  induction es as [|x r IH]; intros s; simpl; [tauto|].
  intros H. apply IH in H. destruct H as [H Hr].
  rewrite destroy_entity_objects in H. apply in_keys_del in H.
  destruct H as [Hne H]. split; [assumption|].
  intros [->|?]; auto.
Qed.

(** What [destroy_model] leaves of the other maps. *)
Definition bystanders (s : State) :=
  (annotations s, lights s, clips s, clipHelpers s, lightHelpers s,
   objectAnnotations s).

Lemma destroy_entity_bystanders (s : State) (o : string) :
  bystanders (destroy_entity s o) = bystanders s.
Proof. unfold destroy_entity. now destruct (Dict.get _ (types s)). Qed.

Lemma fold_destroy_bystanders (es : list string) :
  forall s, bystanders (fold_left destroy_entity es s) = bystanders s.
Proof.
  induction es as [|x r IH]; intros s; [reflexivity|].
  cbn [fold_left]. rewrite IH, destroy_entity_bystanders. reflexivity.
Qed.

Lemma destroy_model_bystanders (m : string) (model : Model) (s : State) :
  bystanders (destroy_model m model s) = bystanders s.
Proof.
  unfold destroy_model.
  rewrite <- (fold_destroy_bystanders
                match m_entities model with Some l => l | None => [] end s).
  set (s1 := fold_left destroy_entity _ s).
  destruct (hook_unloadedModel _); reflexivity.
Qed.

Lemma destroy_model_objects (m : string) (model : Model) (s : State) :
  objects (destroy_model m model s)
  = objects (fold_left destroy_entity (entities_of model) s).
Proof.
  unfold destroy_model, entities_of, default.
  set (s1 := fold_left destroy_entity _ s).
  destruct (hook_unloadedModel _); reflexivity.
Qed.

Lemma destroy_model_objects_in (m o : string) (model : Model) (s : State) :
  In o (Dict.keys (objects (destroy_model m model s))) ->
  In o (Dict.keys (objects s)) /\ ~ In o (entities_of model).
Proof. rewrite destroy_model_objects. apply fold_destroy_objects_in. Qed.

Lemma each_map (A B : Type) (f : A -> B) (step : B -> State -> option State)
  (l : list A) :
  forall s, each step (map f l) s = each (fun x => step (f x)) l s.
Proof.
  induction l as [|x r IH]; intros s; simpl; [reflexivity|].
  destruct (step (f x) s); [apply IH | reflexivity].
Qed.

(** The loop of [clear] over the models. *)
Lemma clear_models (n : nat) (s : State) :
  wf s ->
  exists s1,
    each (fun id s => if Dict.mem id (models s)
                      then destroy (S n) (IStr id) s else Some s)
      (Dict.keys (models s)) s = Some s1 /\
    models s1 = [] /\ objects s1 = [] /\ bystanders s1 = bystanders s.
Proof.
  intros Hwf.
  destruct (wf_parts s Hwf) as (_ & _ & _ & _ & _ & Hns & _).
  destruct (one_namespace_spec s Hns)
    as (Hne & Hndm & _ & _ & _ & Hdis & _ & _).
  pose (I := fun s' : State =>
               bystanders s' = bystanders s /\
               (forall k, In k (Dict.keys (models s')) ->
                          In k (Dict.keys (models s))) /\
               objects_listed s').
  destruct (each_deletes_all Model models
              (fun id s => if Dict.mem id (models s)
                           then destroy (S n) (IStr id) s else Some s) I)
    with (l := Dict.keys (models s)) (s := s)
    as (s1 & Hs1 & Hm1 & Hb1 & _ & Hl1).
  - intros k s' (Hb & Hsub & Hl) Hk.
    destruct (Dict.get k (models s')) as [model|] eqn:Em; [|congruence].
    assert (Hks : In k (Dict.keys (models s))).
    { apply Hsub. eapply get_some_keys; eassumption. }
    assert (Hk0 : k <> "").
    { apply Hne. rewrite !in_app_iff. auto. }
    specialize (Hdis k Hks). rewrite !in_app_iff in Hdis.
    pose proof Hb as Hb'.
    unfold bystanders in Hb'. injection Hb' as Ha Hli Hc _ _ _.
    exists (destroy_model k model s'). split; [|split].
    + assert (Hmem : Dict.mem k (models s') = true).
      { apply mem_true. eapply get_some_keys; eassumption. }
      rewrite Hmem. cbn [destroy]. apply String.eqb_neq in Hk0.
      cbn [falsy]. rewrite Hk0, Ha, Hli, Hc.
      replace (Dict.get k (annotations s)) with (@None Annotation)
        by (symmetry; apply get_none_keys; tauto).
      replace (Dict.get k (lights s)) with (@None Light)
        by (symmetry; apply get_none_keys; tauto).
      replace (Dict.get k (clips s)) with (@None Clip)
        by (symmetry; apply get_none_keys; tauto).
      rewrite Em. reflexivity.
    + apply destroy_model_models.
    + unfold I. split; [|split].
      * rewrite destroy_model_bystanders. exact Hb.
      * intros k'. rewrite destroy_model_models. intros Hk'.
        apply in_keys_del in Hk'. apply Hsub. tauto.
      * intros o Ho. apply destroy_model_objects_in in Ho.
        destruct Ho as [Ho Hnot].
        destruct (Hl o Ho) as (m' & model' & Hm' & Hin).
        exists m', model'. split; [|assumption].
        rewrite destroy_model_models, get_del_other; [assumption|].
        intros ->. congruence.
  - reflexivity.
  - assumption.
  - unfold I. split; [reflexivity|]. split; [auto|].
    now apply wf_objects_listed.
  - exists s1. repeat split; auto.
    apply keys_nil. destruct (Dict.keys (objects s1)) as [|o r] eqn:Eo; auto.
    destruct (Hl1 o) as (m' & model' & Hm' & _).
    + rewrite Eo. now left.
    + rewrite Hm1 in Hm'. discriminate.
Qed.

Lemma written_together_spec (s : State) :
  written_together s = true ->
  (forall c, In c (Dict.keys (clips s)) -> Dict.get c (clipHelpers s) <> None) /\
  (forall k ann e, Dict.get k (annotations s) = Some ann ->
                   a_entity ann = Some e ->
                   Dict.get e (objectAnnotations s) <> None).
Proof.
  unfold written_together. intros H.
  apply andb_true_iff in H. destruct H as [H _].
  apply andb_true_iff in H. destruct H as [Hcl Han].
  split.
  - intros c Hc. rewrite forallb_forall in Hcl. specialize (Hcl c Hc).
    apply mem_true in Hcl. now apply get_in_keys.
  - intros k ann e Hk He. rewrite forallb_forall in Han.
    specialize (Han (k, ann) (get_in_entries _ _ _ _ Hk)). simpl in Han.
    rewrite He in Han. apply mem_true in Han. now apply get_in_keys.
Qed.

(** What the rounds over annotations, clips and lights leave alone. *)
Definition scene_maps (s : State) := (models s, objects s).

Lemma destroy_annotation (n : nat) (k : string) (ann : Annotation) (s : State) :
  k <> "" ->
  Dict.get k (annotations s) = Some ann ->
  (forall e, a_entity ann = Some e -> Dict.get e (objectAnnotations s) <> None) ->
  exists s',
    destroy (S n) (IStr k) s = Some s' /\
    annotations s' = Dict.del k (annotations s) /\
    scene_maps s' = scene_maps s /\
    (lights s', clips s', clipHelpers s', lightHelpers s')
    = (lights s, clips s, clipHelpers s, lightHelpers s) /\
    (forall e, Dict.get e (objectAnnotations s) <> None ->
               Dict.get e (objectAnnotations s') <> None).
Proof.
  intros Hne Hk He. cbn [destroy falsy].
  apply String.eqb_neq in Hne. rewrite Hne, Hk.
  destruct (a_entity ann) as [e|].
  - destruct (Dict.get e (objectAnnotations s)) as [oa|] eqn:Eoa.
    + eexists. split; [reflexivity|]. repeat split.
      intros e' He'. cbn. apply get_in_keys, in_keys_set.
      right. now apply get_in_keys.
    + exfalso. now apply (He e).
  - eexists. split; [reflexivity|]. repeat split. auto.
Qed.

Lemma clear_annotations (n : nat) (s : State) :
  NoDup (Dict.keys (annotations s)) ->
  (forall k, In k (Dict.keys (annotations s)) -> k <> "") ->
  (forall k ann e, Dict.get k (annotations s) = Some ann ->
                   a_entity ann = Some e ->
                   Dict.get e (objectAnnotations s) <> None) ->
  exists s1,
    destroyAnnotations (S (S n)) s = Some s1 /\
    annotations s1 = [] /\
    scene_maps s1 = scene_maps s /\
    (lights s1, clips s1, clipHelpers s1, lightHelpers s1)
    = (lights s, clips s, clipHelpers s, lightHelpers s).
Proof.
  intros Hnd Hne Hent.
  pose (I := fun s' : State =>
               scene_maps s' = scene_maps s /\
               (lights s', clips s', clipHelpers s', lightHelpers s')
               = (lights s, clips s, clipHelpers s, lightHelpers s) /\
               (forall k, In k (Dict.keys (annotations s')) ->
                          In k (Dict.keys (annotations s))) /\
               (forall k ann e, Dict.get k (annotations s') = Some ann ->
                                a_entity ann = Some e ->
                                Dict.get e (objectAnnotations s') <> None)).
  destruct (each_deletes_all Annotation annotations
              (fun k => destroy (S n) (IStr k)) I)
    with (l := Dict.keys (annotations s)) (s := s)
    as (s1 & Hs1 & Ha1 & Hsc & Hli & _).
  - intros k s' (Hsc & Hli & Hsub & He) Hk.
    destruct (Dict.get k (annotations s')) as [ann|] eqn:Ea; [|congruence].
    destruct (destroy_annotation n k ann s') as (s2 & Hd & Ha & Hsc2 & Hli2 & Hoa).
    + apply Hne, Hsub. eapply get_some_keys; eassumption.
    + assumption.
    + intros e. apply (He k ann e Ea).
    + exists s2. split; [exact Hd|]. split; [exact Ha|].
      unfold I. split; [congruence|]. split; [congruence|]. split.
      * intros k'. rewrite Ha. intros Hk'. apply in_keys_del in Hk'.
        apply Hsub. tauto.
      * intros k' ann' e'. rewrite Ha. intros Hk' He'.
        destruct (string_dec k' k) as [->|N].
        -- now rewrite get_del_same in Hk'.
        -- rewrite get_del_other in Hk' by assumption.
           apply Hoa. eapply He; eassumption.
  - reflexivity.
  - assumption.
  - unfold I. repeat split; auto.
  - exists s1. split; [|auto].
    unfold destroyAnnotations, getAnnotations, strs. cbn [destroy falsy].
    rewrite each_map. exact Hs1.
Qed.

Lemma destroy_clip (n : nat) (k : string) (clip : Clip) (s : State) :
  k <> "" ->
  Dict.get k (annotations s) = None ->
  Dict.get k (lights s) = None ->
  Dict.get k (clips s) = Some clip ->
  Dict.get k (objects s) = None ->
  Dict.get k (clipHelpers s) <> None ->
  exists s',
    destroy (S (S n)) (IStr k) s = Some s' /\
    clips s' = Dict.del k (clips s) /\
    clipHelpers s' = Dict.del k (Dict.set k false (clipHelpers s)) /\
    scene_maps s' = scene_maps s /\
    annotations s' = annotations s /\ lights s' = lights s.
Proof.
  intros Hne Ha Hl Hc Ho Hh.
  destruct (Dict.get k (clipHelpers s)) as [h|] eqn:Eh; [|congruence].
  cbn [destroy falsy].
  apply String.eqb_neq in Hne. rewrite Hne, Ha, Hl, Hc.
  unfold hide, setVisible. cbn [apply_ids]. rewrite Ho.
  unfold visible_other. rewrite Hl, Eh.
  cbn. rewrite get_set_same.
  eexists. split; [reflexivity|]. repeat split.
Qed.

Lemma destroy_light (n : nat) (k : string) (light : Light) (s : State) :
  k <> "" ->
  Dict.get k (annotations s) = None ->
  Dict.get k (lights s) = Some light ->
  Dict.get k (objects s) = None ->
  exists s',
    destroy (S (S n)) (IStr k) s = Some s' /\
    lights s' = Dict.del k (lights s) /\
    scene_maps s' = scene_maps s /\
    annotations s' = annotations s /\ clips s' = clips s.
Proof.
  intros Hne Ha Hl Ho.
  cbn [destroy falsy].
  apply String.eqb_neq in Hne. rewrite Hne, Ha, Hl.
  unfold hide, setVisible. cbn [apply_ids]. rewrite Ho.
  unfold visible_other. rewrite Hl.
  destruct (Dict.get k (lightHelpers s)) as [h|] eqn:Eh.
  - cbn. rewrite get_set_same.
    eexists. split; [reflexivity|]. repeat split.
  - cbn. rewrite Eh.
    eexists. split; [reflexivity|]. repeat split.
Qed.

Lemma clear_clips (n : nat) (s : State) :
  NoDup (Dict.keys (clips s)) ->
  (forall k, In k (Dict.keys (clips s)) ->
             k <> "" /\ Dict.get k (lights s) = None /\
             Dict.get k (clipHelpers s) <> None) ->
  annotations s = [] -> objects s = [] ->
  exists s1,
    destroyClips (S (S (S n))) s = Some s1 /\
    clips s1 = [] /\ scene_maps s1 = scene_maps s /\
    annotations s1 = [] /\ lights s1 = lights s.
Proof.
  intros Hnd Hk Ha Ho.
  pose (I := fun s' : State =>
               scene_maps s' = scene_maps s /\
               annotations s' = [] /\ lights s' = lights s /\
               (forall k, In k (Dict.keys (clips s')) ->
                          In k (Dict.keys (clips s)) /\
                          Dict.get k (clipHelpers s') <> None)).
  destruct (each_deletes_all Clip clips
              (fun k => destroy (S (S n)) (IStr k)) I)
    with (l := Dict.keys (clips s)) (s := s)
    as (s1 & Hs1 & Hc1 & Hsc & Ha1 & Hl1 & _).
  - intros k s' (Hsc & Ha' & Hl' & Hsub) Hin.
    destruct (Dict.get k (clips s')) as [clip|] eqn:Ec; [|congruence].
    assert (Hks : In k (Dict.keys (clips s')))
      by (eapply get_some_keys; eassumption).
    destruct (Hsub k Hks) as [Hk0 Hh].
    destruct (Hk k Hk0) as (Hne & Hlk & _).
    destruct (destroy_clip n k clip s') as (s2 & Hd & Hc2 & Hch & Hsc2 & Ha2 & Hl2);
      auto.
    + now rewrite Ha'.
    + now rewrite Hl'.
    + unfold scene_maps in Hsc. injection Hsc as _ ->. now rewrite Ho.
    + exists s2. split; [exact Hd|]. split; [exact Hc2|].
      unfold I. split; [congruence|]. split; [congruence|].
      split; [congruence|].
      intros k'. rewrite Hc2, Hch. intros Hk'. apply in_keys_del in Hk'.
      destruct Hk' as [Hne' Hk'].
      destruct (Hsub k' Hk') as [Hk'0 Hh']. split; [assumption|].
      rewrite get_del_other, get_set_other; assumption.
  - reflexivity.
  - assumption.
  - unfold I. repeat split; auto; now apply Hk.
  - exists s1. split; [|auto].
    unfold destroyClips, getClips, strs. cbn [destroy falsy].
    rewrite each_map. exact Hs1.
Qed.

Lemma clear_lights (n : nat) (s : State) :
  NoDup (Dict.keys (lights s)) ->
  (forall k, In k (Dict.keys (lights s)) -> k <> "") ->
  annotations s = [] -> objects s = [] ->
  exists s1,
    destroyLights (S (S (S n))) s = Some s1 /\
    lights s1 = [] /\ scene_maps s1 = scene_maps s /\
    annotations s1 = [] /\ clips s1 = clips s.
Proof.
  intros Hnd Hk Ha Ho.
  pose (I := fun s' : State =>
               scene_maps s' = scene_maps s /\
               annotations s' = [] /\ clips s' = clips s /\
               (forall k, In k (Dict.keys (lights s')) ->
                          In k (Dict.keys (lights s)))).
  destruct (each_deletes_all Light lights
              (fun k => destroy (S (S n)) (IStr k)) I)
    with (l := Dict.keys (lights s)) (s := s)
    as (s1 & Hs1 & Hl1 & Hsc & Ha1 & Hc1 & _).
  - intros k s' (Hsc & Ha' & Hc' & Hsub) Hin.
    destruct (Dict.get k (lights s')) as [light|] eqn:El; [|congruence].
    assert (Hks : In k (Dict.keys (lights s')))
      by (eapply get_some_keys; eassumption).
    destruct (destroy_light n k light s') as (s2 & Hd & Hl2 & Hsc2 & Ha2 & Hc2);
      auto.
    + now rewrite Ha'.
    + unfold scene_maps in Hsc. injection Hsc as _ ->. now rewrite Ho.
    + exists s2. split; [exact Hd|]. split; [exact Hl2|].
      unfold I. split; [congruence|]. split; [congruence|].
      split; [congruence|].
      intros k'. rewrite Hl2. intros Hk'. apply in_keys_del in Hk'.
      apply Hsub. tauto.
  - reflexivity.
  - assumption.
  - unfold I. repeat split; auto.
  - exists s1. split; [|auto].
    unfold destroyLights, getLights, strs. cbn [destroy falsy].
    rewrite each_map. exact Hs1.
Qed.

(** [clear] empties the maps of models, objects, annotations, clips and
    lights. *)
Lemma clear_empties (n : nat) (s : State) :
  wf s ->
  exists s1,
    clear (S (S (S n))) s = Some s1 /\
    models s1 = [] /\ objects s1 = [] /\ annotations s1 = [] /\
    clips s1 = [] /\ lights s1 = [].
Proof.
  intros Hwf.
  destruct (wf_parts s Hwf) as (_ & _ & _ & _ & _ & Hns & Hwt).
  destruct (one_namespace_spec s Hns)
    as (Hne & _ & Hndl & Hndc & Hnda & _ & Hcl & _).
  destruct (written_together_spec s Hwt) as (Hhelp & Hent).
  destruct (clear_models (S (S n)) s Hwf) as (sa & Ea & Hma & Hoa & Hba).
  unfold bystanders in Hba. injection Hba as Han Hli Hc Hch Hlh Hobja.
  destruct (clear_annotations (S n) sa) as (sb & Eb & Hab & Hscb & Hrest).
  { now rewrite Han. }
  { rewrite Han. intros k Hk. apply Hne. rewrite !in_app_iff. auto 10. }
  { rewrite Han, Hobja. exact Hent. }
  injection Hrest as Hlib Hcb Hchb _.
  unfold scene_maps in Hscb. injection Hscb as Hmb Hob.
  destruct (clear_clips n sb) as (sc & Ec & Hcc & Hscc & Hac & Hlic).
  { now rewrite Hcb, Hc. }
  { rewrite Hcb, Hc, Hlib, Hli, Hchb, Hch. intros k Hk. split; [|split].
    - apply Hne. rewrite !in_app_iff. auto 10.
    - apply get_none_keys. intros Hl. apply (Hcl k Hk).
      rewrite in_app_iff. now left.
    - now apply Hhelp. }
  { exact Hab. }
  { now rewrite Hob. }
  unfold scene_maps in Hscc. injection Hscc as Hmc Hoc.
  destruct (clear_lights n sc) as (sd & Ed & Hld & Hscd & Had & Hcd).
  { now rewrite Hlic, Hlib, Hli. }
  { rewrite Hlic, Hlib, Hli. intros k Hk. apply Hne.
    rewrite !in_app_iff. auto 10. }
  { exact Hac. }
  { now rewrite Hoc, Hob. }
  unfold scene_maps in Hscd. injection Hscd as Hmd Hod.
  exists sd. split.
  - unfold clear. rewrite Ea, Eb, Ec. exact Ed.
  - repeat split; congruence.
Qed.

(** [createLight] on an ID that is free. *)
Lemma createLight_fresh (n : nat) (id : string) (cfg : LightCfg) (s : State) :
  Dict.get id (objects s) = None -> Dict.get id (models s) = None ->
  Dict.get id (lights s) = None -> Dict.get id (clips s) = None ->
  Dict.get id (annotations s) = None ->
  exists s',
    createLight (S n) id (Some cfg) s = Some s' /\
    lights s'
    = Dict.set id
        (make_light match lc_type cfg with
                    | Some t => if String.eqb t "" then "dir" else t
                    | None => "dir"
                    end cfg) (lights s) /\
    scene_maps s' = scene_maps s /\
    annotations s' = annotations s /\ clips s' = clips s.
Proof.
  intros Ho Hm Hl Hc Ha. unfold createLight, scene_component.
  rewrite Ho, Hm, Hl, Hc, Ha. cbv zeta.
  set (type := match lc_type cfg with
               | Some t => if String.eqb t "" then "dir" else t
               | None => "dir"
               end).
  set (s0 := if String.eqb type "ambient" || String.eqb type "point"
                || String.eqb type "dir"
             then s else error _ s).
  assert (Hs0 : objects s0 = objects s /\ lights s0 = lights s /\
                models s0 = models s /\ annotations s0 = annotations s /\
                clips s0 = clips s).
  { unfold s0. destruct (_ || _); repeat split. }
  destruct Hs0 as (Ho0 & Hl0 & Hm0 & Ha0 & Hc0).
  unfold show, hide, setVisible.
  destruct (truthy (lc_shown cfg)); cbn [apply_ids];
    change (objects (set_lightsDirty true
                       (set_lights (Dict.set id (make_light type cfg) (lights s0)) s0)))
      with (objects s0);
    rewrite Ho0, Ho; unfold visible_other;
    change (lights (set_lightsDirty true
                      (set_lights (Dict.set id (make_light type cfg) (lights s0)) s0)))
      with (Dict.set id (make_light type cfg) (lights s0));
    rewrite get_set_same;
    change (lightHelpers (set_lightsDirty true
                            (set_lights (Dict.set id (make_light type cfg) (lights s0)) s0)))
      with (lightHelpers s0);
    destruct (Dict.get id (lightHelpers s0));
    eexists; (split; [reflexivity|]);
    unfold scene_maps; cbn; rewrite ?Hl0, ?Ho0, ?Hm0, ?Ha0, ?Hc0;
    repeat split.
Qed.

(** [defaultLights] on a cleared viewer installs the default lighting. *)
Lemma defaultLights_installs (n : nat) (s : State) :
  models s = [] -> objects s = [] -> annotations s = [] ->
  clips s = [] -> lights s = [] ->
  exists s',
    defaultLights (S (S (S n))) s = Some s' /\
    lights s' = default_lighting /\
    models s' = [] /\ objects s' = [] /\ annotations s' = [] /\ clips s' = [].
Proof.
  intros Hm Ho Ha Hc Hl.
  unfold defaultLights, destroyLights, getLights, strs. rewrite Hl.
  cbn [Dict.keys map destroy falsy each].
  unfold default_cfgs. cbn [each fst snd].
  destruct (createLight_fresh (S (S n)) "light0"
              (mkLightCfg (Some "ambient") (Some (1, 1, 1)) (Some 1)
                 None None None None) s)
    as (s0 & E0 & Hl0 & Hsc0 & Ha0 & Hc0);
    try (rewrite ?Hm, ?Ho, ?Ha, ?Hc, ?Hl; reflexivity).
  rewrite E0. unfold scene_maps in Hsc0. injection Hsc0 as Hm0 Ho0.
  rewrite Hl in Hl0.
  destruct (createLight_fresh (S (S n)) "light1"
              (mkLightCfg (Some "dir") (Some (1, 1, 1)) (Some 1)
                 None (Some (8 # 10, - (6 # 10), - (8 # 10)))
                 (Some "view") None) s0)
    as (s1 & E1 & Hl1 & Hsc1 & Ha1 & Hc1);
    try (rewrite ?Hm0, ?Ho0, ?Ha0, ?Hc0, ?Hl0, ?Hm, ?Ho, ?Ha, ?Hc; reflexivity).
  rewrite E1. unfold scene_maps in Hsc1. injection Hsc1 as Hm1 Ho1.
  rewrite Hl0 in Hl1.
  destruct (createLight_fresh (S (S n)) "light2"
              (mkLightCfg (Some "dir") (Some (8 # 10, 8 # 10, 8 # 10))
                 (Some 1) None (Some (- (8 # 10), - (3 # 10), - (4 # 10)))
                 (Some "view") None) s1)
    as (s2 & E2 & Hl2 & Hsc2 & Ha2 & Hc2);
    try (rewrite ?Hm1, ?Ho1, ?Ha1, ?Hc1, ?Hl1, ?Hm0, ?Ho0, ?Ha0, ?Hc0,
           ?Hm, ?Ho, ?Ha, ?Hc; reflexivity).
  rewrite E2. unfold scene_maps in Hsc2. injection Hsc2 as Hm2 Ho2.
  rewrite Hl1 in Hl2.
  destruct (createLight_fresh (S (S n)) "light3"
              (mkLightCfg (Some "dir") (Some (8 # 10, 1, 1)) (Some 1)
                 None (Some (4 # 10, - (4 # 10), 8 # 10)) (Some "view") None)
              s2)
    as (s3 & E3 & Hl3 & Hsc3 & Ha3 & Hc3);
    try (rewrite ?Hm2, ?Ho2, ?Ha2, ?Hc2, ?Hl2, ?Hm1, ?Ho1, ?Ha1, ?Hc1,
           ?Hm0, ?Ho0, ?Ha0, ?Hc0, ?Hm, ?Ho, ?Ha, ?Hc; reflexivity).
  rewrite E3. unfold scene_maps in Hsc3. injection Hsc3 as Hm3 Ho3.
  rewrite Hl2 in Hl3.
  exists s3. split; [reflexivity|].
  split; [exact Hl3|]. repeat split; congruence.
Qed.

(** In a well-formed viewer, for a bookmark without models - the field
    absent or an empty list - [setBookmark] returns; it
    first clears the viewer, which leaves no model, object, annotation,
    clip or light, then installs the default lighting, and calls the
    callback given to it, which is the last event of the log; no model is
    loaded and no directive on an object is applied, so the viewer ends
    with the default lights and nothing else. *)
Lemma setBookmark_without_models
  (fetch : string -> Src -> Parsed + string)
  (s : State) (bookmark : Bookmark) (ok : bool) (n : nat) :
  wf s ->
  b_models bookmark = None \/ b_models bookmark = Some [] ->
  exists s1 s2,
    clear (S (S (S n))) s = Some s1 /\
    (models s1 = [] /\ objects s1 = [] /\ annotations s1 = [] /\
     clips s1 = [] /\ lights s1 = []) /\
    defaultLights (S (S (S n))) s1 = Some s2 /\
    lights s2 = default_lighting /\
    (models s2 = [] /\ objects s2 = [] /\ annotations s2 = [] /\
     clips s2 = []) /\
    setBookmark fetch (S (S (S n))) bookmark ok s
    = Some (if ok then set_log (log s2 ++ [EOk None]) s2 else s2).
Proof.
  intros Hwf Hb.
  destruct (clear_empties n s Hwf) as (s1 & Ec & Hm & Ho & Ha & Hc & Hl).
  destruct (defaultLights_installs n s1 Hm Ho Ha Hc Hl)
    as (s2 & Ed & Hl2 & Hm2 & Ho2 & Ha2 & Hc2).
  exists s1, s2. split; [exact Ec|].
  split; [repeat split; assumption|].
  split; [exact Ed|]. split; [exact Hl2|].
  split; [repeat split; assumption|].
  unfold setBookmark. rewrite Ec.
  destruct Hb as [-> | ->]; rewrite Ed; reflexivity.
Qed.

Lemma setBookmark_without_models_witness :
  exists s2,
    setBookmark Demo.fetch 3
      (mkBookmark None None None None None None None None None None None
         None None None None None None None None None)
      true Demo.furnished
    = Some (set_log (log s2 ++ [EOk None]) s2) /\
    lights s2 = default_lighting /\ models s2 = [] /\ objects s2 = [].
Proof.
  destruct (setBookmark_without_models Demo.fetch Demo.furnished
              (mkBookmark None None None None None None None None None None
                 None None None None None None None None None None)
              true 0 demo_furnished_wf (or_introl eq_refl))
    as (s1 & s2 & _ & _ & _ & Hl & (Hm & Ho & _) & Hset).
  exists s2. repeat split; assumption.
Defined.

Example demo_repinned :
  setAnnotationObject "note" "saw#2" Demo.furnished = Demo.repinned.
Proof. vm_compute. reflexivity. Qed.


(** ** The scale of an object under the scale of its model *)

Example demo_part_then_model :
  (do s1 <- setScale (IStr "saw#1") (1 # 2, 1 # 2, 1 # 2) Demo.saw;
   setScale (IStr "saw") (2, 2, 2) s1) = Some Demo.part_then_model.
Proof. vm_compute. reflexivity. Qed.

Example demo_model_then_part :
  (do s1 <- setScale (IStr "saw") (2, 2, 2) Demo.saw;
   setScale (IStr "saw#1") (1 # 2, 1 # 2, 1 # 2) s1) = Some Demo.model_then_part.
Proof. vm_compute. reflexivity. Qed.

(** When the transforms of the model are built first, the chain of the
    object runs through the scale of the model. *)
Example scale_composes_model_first :
  option_map fst (getScale "saw" Demo.model_then_part) = Some (Some (2, 2, 2)) /\
  option_map fst (getScale "saw#1" Demo.model_then_part)
  = Some (Some (1 # 2, 1 # 2, 1 # 2)) /\
  exists v, effective_scale "saw#1" Demo.model_then_part = Some v /\
            vec3_eq v (1, 1, 1).
Proof.
  split; [vm_compute; reflexivity|]. split; [vm_compute; reflexivity|].
  eexists. split; [vm_compute; reflexivity|]. vm_compute. auto.
Qed.

(** C7 fails on the code. The model "saw" is scaled [2,2,2] and its part
    "saw#1" is scaled [0.5,0.5,0.5], the part first.  The chain of the part
    was hung under the transform the model had then (viewer.js:860);
    [buildModelTransform] later gives the model a new chain
    (viewer.js:819), which the part does not run through.  The scale that
    the chain of the part contributes is [0.5,0.5,0.5], not [1,1,1]. *)
Theorem scale_misses_model_built_later :
  option_map fst (getScale "saw" Demo.part_then_model) = Some (Some (2, 2, 2)) /\
  option_map fst (getScale "saw#1" Demo.part_then_model)
  = Some (Some (1 # 2, 1 # 2, 1 # 2)) /\
  exists v, effective_scale "saw#1" Demo.part_then_model = Some v /\
            vec3_eq v (1 # 2, 1 # 2, 1 # 2) /\ ~ vec3_eq v (1, 1, 1).
Proof.
  split; [vm_compute; reflexivity|]. split; [vm_compute; reflexivity|].
  eexists. split; [vm_compute; reflexivity|]. split.
  - vm_compute. auto.
  - vm_compute. intros [H _]. discriminate H.
Qed.

(** ** Bookmarks *)

Example demo_moved :
  (do s1 <- setTranslate (IStr "saw") (0, 0, 5) Demo.saw;
   setScale (IStr "saw") (1, 1, 3) s1) = Some Demo.moved.
Proof. vm_compute. reflexivity. Qed.

(** The tests of [getBookmark] read the Y component twice
    (viewer.js:3402, 3413): a translation along Z only and a scale along Z
    only are taken for the defaults and left out of the document. *)
Lemma bookmark_skips_z (s : State) (id : string) (h : nat) (z : Q) :
  (Dict.get id (translations s) = Some h ->
   read_xyz h s = Some (0, 0, z) -> bookmark_translate id s = None) /\
  (Dict.get id (scales s) = Some h ->
   read_xyz h s = Some (1, 1, z) -> bookmark_scale id s = None).
Proof.
  split; intros Hh Hx.
  - unfold bookmark_translate. rewrite Hh, Hx. reflexivity.
  - unfold bookmark_scale. rewrite Hh, Hx. reflexivity.
Qed.

Example demo_unlit : destroyLights 3 Demo.moved = Some Demo.unlit.
Proof. vm_compute. reflexivity. Qed.

(** [getBookmark] reads [light.pos] and [light.dir] of every light
    (viewer.js:3615-3616), and no light has both: while the viewer holds
    a light, it throws. *)
Lemma bookmark_light_throws (id : string) (light : Light) :
  bookmark_light id light = None.
Proof. unfold bookmark_light, light_pos, light_dir. now destruct (l_type light). Qed.

Lemma getBookmark_with_lights (s : State) :
  lights s <> [] -> getBookmark s = None.
Proof.
  intros Hl. unfold getBookmark.
  destruct (bookmark_models (Dict.keys (models s)) s); [|reflexivity].
  destruct (lights s) as [|[id light] rest]; [congruence|].
  simpl. now rewrite bookmark_light_throws.
Qed.

(** C3 fails on the code. The lights are destroyed, so that
    [getBookmark] returns.  The model "saw" is translated by [0,0,5] and
    scaled by [1,1,3]; the bookmark taken of that state holds neither, and
    after [setBookmark] of that bookmark the model is where it was loaded:
    [getTranslate] is [0,0,0] and [getScale] is [1,1,1]. *)
Theorem bookmark_loses_z :
  lights Demo.unlit = [] /\
  option_map fst (getTranslate "saw" Demo.unlit) = Some (Some (0, 0, 5)) /\
  option_map fst (getScale "saw" Demo.unlit) = Some (Some (1, 1, 3)) /\
  exists bookmark restored,
    getBookmark Demo.unlit = Some bookmark /\
    b_models bookmark
    = Some [mkModelData "saw" (SrcPath "saw.gltf") None None None] /\
    setBookmark Demo.fetch 4 bookmark false Demo.unlit = Some restored /\
    option_map fst (getTranslate "saw" restored) = Some (Some (0, 0, 0)) /\
    option_map fst (getScale "saw" restored) = Some (Some (1, 1, 1)).
Proof.
  split; [reflexivity|].
  split; [vm_compute; reflexivity|]. split; [vm_compute; reflexivity|].
  eexists. eexists.
  split; [vm_compute; reflexivity|].
  split; [reflexivity|].
  split; [vm_compute; reflexivity|].
  split; vm_compute; reflexivity.
Qed.

(** ** Well-formedness along the way

    The states of the small scene are well formed at every step, also
    after a type was changed and after a model was destroyed. *)

Example demo_trace_wf :
  wf Demo.start /\ wf Demo.saw /\ wf Demo.two /\ wf Demo.ab /\
  wf Demo.tagged /\ wf Demo.retagged /\ wf Demo.part_then_model /\
  wf Demo.model_then_part /\ wf Demo.moved.
Proof. repeat split; vm_compute; reflexivity. Qed.

Example demo_destroyed_wf :
  option_map wfb (destroy 3 (IStr "saw") Demo.furnished) = Some true.
Proof. vm_compute. reflexivity. Qed.

(** * Further properties *)

(** ** Resolution *)

Lemma resolvable_set_log (s : State) (l : list Event) (id : string) :
  resolvable (set_log l s) id = resolvable s id.
Proof. reflexivity. Qed.

Lemma collect_errors (xs : list Ids) :
  Forall (fun q => forall s,
            snd (Literal.getObjects q s)
            = set_log (log s ++ not_found (unresolved q s)) s) xs ->
  forall got result s,
    snd (Literal.collect Literal.getObjects xs got result s)
    = set_log (log s ++ not_found (unresolved (IArr xs) s)) s.
Proof.
  induction 1 as [|x rest Hx _ IH]; intros got result s.
  - simpl. unfold unresolved. simpl. rewrite app_nil_r. now rewrite set_log_eta.
  - simpl. specialize (Hx s).
    destruct (Literal.getObjects x s) as [buf s1]. simpl in Hx. subst s1.
    destruct (Literal.push_new buf got result) as [got1 result1].
    rewrite IH. unfold unresolved, not_found. simpl.
    rewrite filter_app, map_app, app_assoc. reflexivity.
Qed.

(** For an argument none of whose strings is a name inherited from
    [Object.prototype], [getObjects] writes one error for each string
    that names no object, type or model, in their order, and nothing
    else. *)
Theorem getObjects_errors (q : Ids) (s : State) :
  (forall id, In id (strings q) -> inherited id = false) ->
  snd (Literal.getObjects q s)
  = set_log (log s ++ not_found (unresolved q s)) s.
Proof.
  revert s.
  induction q as [|id|l IH] using Ids_nested_ind; intros s Hq.
  - simpl. unfold unresolved. simpl. rewrite app_nil_r. now rewrite set_log_eta.
  - rewrite Literal_getObjects_string by (apply Hq; now left).
    unfold unresolved, resolvable, Dict.mem. simpl.
    destruct (Dict.get id (objects s)); simpl.
    { rewrite app_nil_r. now rewrite set_log_eta. }
    destruct (Dict.get id (types s)); simpl.
    { rewrite app_nil_r. now rewrite set_log_eta. }
    destruct (Dict.get id (models s)) as [m|]; simpl.
    + rewrite app_nil_r, set_log_eta. now destruct (m_entities m).
    + reflexivity.
  - simpl. apply collect_errors.
    rewrite Forall_forall in IH |- *. intros x Hx s'.
    apply IH; [exact Hx|]. intros id Hid. apply Hq. simpl.
    apply in_flat_map. exists x. now split.
Qed.

Lemma getObjects_errors_witness :
  log (snd (Literal.getObjects
              (IArr [IStr "saw#1"; IStr "nut"; IArr [IStr "bolt"]])
              Demo.furnished))
  = log Demo.furnished
    ++ [EError "Model not found: nut"; EError "Model not found: bolt"].
Proof.
  rewrite (getObjects_errors
             (IArr [IStr "saw#1"; IStr "nut"; IArr [IStr "bolt"]])
             Demo.furnished).
  - vm_compute. reflexivity.
  - simpl. intros id [<-|[<-|[<-|[]]]]; reflexivity.
Defined.

(** An inherited name that names nothing in the viewer resolves to
    itself, and no error is written. *)
Example getObjects_inherited_no_error :
  resolvable Demo.furnished "constructor" = false /\
  Literal.getObjects (IStr "constructor") Demo.furnished
  = (["constructor"], Demo.furnished).
Proof. split; vm_compute; reflexivity. Qed.

Lemma owned_in_objects (m o : string) (s : State) :
  In o (owned m s) ->
  In o (Dict.keys (objects s)) /\ Dict.get o (objectModels s) = Some m.
Proof.
  unfold owned. rewrite filter_In. intros [Hin Ho]. split; [assumption|].
  unfold owner_is in Ho. destruct (Dict.get o (objectModels s)) as [m'|];
    [|discriminate].
  apply String.eqb_eq in Ho. now subst.
Qed.

Lemma in_keys_get (V : Type) (d : dict V) (k : string) :
  In k (Dict.keys d) -> exists v, Dict.get k d = Some v.
Proof.
  intros H. apply get_in_keys in H.
  destruct (Dict.get k d) as [v|]; [now exists v | congruence].
Qed.

(** In a well-formed state, for an argument none of whose strings is a
    name inherited from [Object.prototype], every ID that [getObjects]
    returns names an object of the viewer. *)
Theorem getObjects_names_objects (s : State) (q : Ids) (o : string) :
  wf s ->
  (forall id, In id (strings q) -> inherited id = false) ->
  In o (fst (Literal.getObjects q s)) ->
  exists object, Dict.get o (objects s) = Some object.
Proof.
  intros Hwf. destruct (wf_parts s Hwf) as (_ & He & _ & Hb & _).
  induction q as [|id|l IH] using Ids_nested_ind; intros Hq.
  - simpl. apply in_keys_get.
  - rewrite Literal_getObjects_string by (apply Hq; now left).
    simpl. destruct (Dict.get id (objects s)) as [obj|] eqn:Eo.
    { simpl. intros [<-|[]]. now exists obj. }
    destruct (Dict.get id (types s)) as [b|] eqn:Et.
    { simpl. intros Hin.
      destruct (bucket_typed_spec s Hb _ _ _ Et Hin) as (obj & Hobj & _).
      now exists obj. }
    destruct (Dict.get id (models s)) as [model|] eqn:Em; [|simpl; tauto].
    pose proof (entities_owned_spec s id model He Em) as Hown.
    unfold entities_of in Hown.
    destruct (m_entities model) as [es|]; simpl; [|tauto].
    simpl in Hown. subst es. intros Hin.
    apply owned_in_objects in Hin. apply in_keys_get. tauto.
  - rewrite Literal_getObjects_array. intros Hin. apply uniq_in in Hin.
    apply in_concat in Hin. destruct Hin as (buf & Hbuf & Hin).
    apply in_map_iff in Hbuf. destruct Hbuf as (x & <- & Hx).
    apply filter_In in Hin. destruct Hin as [Hin _].
    rewrite Forall_forall in IH. apply (IH x Hx); [|exact Hin].
    intros id Hid. apply Hq. simpl. apply in_flat_map. exists x. now split.
Qed.

Lemma getObjects_names_objects_witness :
  exists object, Dict.get "saw#2" (objects Demo.furnished) = Some object.
Proof.
  apply (getObjects_names_objects Demo.furnished (IStr "cover") "saw#2").
  - exact demo_furnished_wf.
  - simpl. intros id [<-|[]]. reflexivity.
  - vm_compute. left. reflexivity.
Defined.

(** The inherited name is returned and names no object. *)
Example getObjects_inherited_no_object :
  fst (Literal.getObjects (IStr "toString") Demo.furnished) = ["toString"] /\
  Dict.get "toString" (objects Demo.furnished) = None.
Proof. split; vm_compute; reflexivity. Qed.

(** ** What the operations of the family of [setVisible] change *)

Lemma set_objects_eta (s : State) : set_objects (objects s) s = s.
Proof. now destruct s. Qed.

Section AssignAll.
Variable f : Object -> Object.

Lemma keys_assign_all (l : list string) (d : dict Object) :
  Dict.keys (assign_all f l d) = Dict.keys d.
Proof.
  unfold Dict.keys, assign_all. rewrite map_map. apply map_ext.
  intros e. now destruct (existsb _ l).
Qed.

Lemma assign_all_none (l : list string) (d : dict Object) :
  (forall k, In k (Dict.keys d) -> ~ In k l) -> assign_all f l d = d.
Proof.
  induction d as [|[k v] r IH]; intros H; simpl; [reflexivity|].
  rewrite IH by (intros k' Hk'; apply H; now right).
  destruct (existsb (String.eqb k) l) eqn:E; [|reflexivity].
  apply existsb_eqb_in in E. exfalso. apply (H k); [now left | assumption].
Qed.

Lemma assign_all_nil (d : dict Object) : assign_all f [] d = d.
Proof. apply assign_all_none. intros k _ []. Qed.

Lemma assign_all_same (l1 l2 : list string) (d : dict Object) :
  (forall k, In k l1 <-> In k l2) -> assign_all f l1 d = assign_all f l2 d.
Proof.
  intros H. unfold assign_all. apply map_ext. intros e.
  assert (E : existsb (String.eqb (fst e)) l1 = existsb (String.eqb (fst e)) l2).
  { destruct (existsb (String.eqb (fst e)) l2) eqn:E2.
    - apply existsb_eqb_in. apply H. now apply existsb_eqb_in.
    - destruct (existsb (String.eqb (fst e)) l1) eqn:E1; [|reflexivity].
      apply existsb_eqb_in, H, existsb_eqb_in in E1. congruence. }
  now rewrite E.
Qed.

Lemma set_assign_all (o : string) (obj : Object) (d : dict Object) :
  NoDup (Dict.keys d) ->
  Dict.get o d = Some obj ->
  Dict.set o (f obj) d = assign_all f [o] d.
Proof.
  induction d as [|[k v] r IH]; simpl; [discriminate|].
  intros Hnd Hget. inversion Hnd as [|? ? Hk Hr]; subst.
  rewrite orb_false_r.
  destruct (String.eqb o k) eqn:E.
  - apply String.eqb_eq in E. subst k. injection Hget as ->.
    rewrite String.eqb_refl. f_equal. symmetry. apply assign_all_none.
    intros k' Hk' [<-|[]]. contradiction.
  - rewrite String.eqb_sym, E. f_equal. now apply IH.
Qed.

Hypothesis f_idem : forall o, f (f o) = f o.

Lemma assign_all_app (l1 l2 : list string) (d : dict Object) :
  assign_all f l2 (assign_all f l1 d) = assign_all f (l1 ++ l2) d.
Proof.
  unfold assign_all. rewrite map_map. apply map_ext. intros [k v]. simpl.
  rewrite existsb_app.
  destruct (existsb (String.eqb k) l1); simpl.
  - destruct (existsb (String.eqb k) l2); [now rewrite f_idem | reflexivity].
  - reflexivity.
Qed.
End AssignAll.

Lemma in_uniq (k : string) (l : list string) :
  forall seen, In k l -> ~ In k seen -> In k (uniq seen l).
Proof.
  induction l as [|x r IH]; intros seen; simpl; [tauto|].
  intros [->|Hin] Hs.
  - destruct (existsb (String.eqb k) seen) eqn:E.
    + apply existsb_eqb_in in E. contradiction.
    + now left.
  - destruct (existsb (String.eqb x) seen) eqn:E; [now apply IH|].
    destruct (string_dec x k) as [->|N]; [now left|].
    right. apply IH; [assumption|]. rewrite in_app_iff.
    intros [?|[?|[]]]; [contradiction | congruence].
Qed.

Lemma in_dedup (k : string) (l : list string) : In k (dedup l) <-> In k l.
Proof.
  split; [apply uniq_in | intros H; apply in_uniq; [assumption | intros []]].
Qed.

(** What [getObjects] returns depends on the keys of [objects] and on
    [types] and [models] only. *)
Lemma getObjects_same_names (q : Ids) (s s' : State) :
  Dict.keys (objects s') = Dict.keys (objects s) ->
  types s' = types s -> models s' = models s ->
  fst (getObjects q s') = fst (getObjects q s).
Proof.
  intros Hk Ht Hm. induction q as [|id|l IH] using Ids_nested_ind.
  - simpl. assumption.
  - simpl. rewrite Ht, Hm.
    destruct (Dict.get id (objects s)) eqn:E.
    + assert (In id (Dict.keys (objects s'))).
      { rewrite Hk. eapply get_some_keys; eassumption. }
      apply in_keys_get in H. destruct H as [v ->]. reflexivity.
    + assert (E' : Dict.get id (objects s') = None).
      { apply get_none_keys. rewrite Hk. now apply get_none_keys. }
      rewrite E'. destruct (Dict.get id (types s)); [reflexivity|].
      destruct (Dict.get id (models s)) as [m|]; [|reflexivity].
      now destruct (m_entities m).
  - rewrite !getObjects_array. f_equal. f_equal.
    apply map_ext_in. intros x Hx. rewrite Forall_forall in IH. now apply IH.
Qed.

Lemma mem_same_keys (V W : Type) (d : dict V) (d' : dict W) (k : string) :
  Dict.keys d' = Dict.keys d -> Dict.mem k d' = Dict.mem k d.
Proof.
  intros H. unfold Dict.mem.
  destruct (Dict.get k d) eqn:E.
  - assert (Hin : In k (Dict.keys d')).
    { rewrite H. eapply get_some_keys; eassumption. }
    apply in_keys_get in Hin. destruct Hin as [w ->]. reflexivity.
  - assert (E' : Dict.get k d' = None).
    { apply get_none_keys. rewrite H. now apply get_none_keys. }
    now rewrite E'.
Qed.

Lemma unresolved_same_names (q : Ids) (s s' : State) :
  Dict.keys (objects s') = Dict.keys (objects s) ->
  types s' = types s -> models s' = models s ->
  unresolved q s' = unresolved q s.
Proof.
  intros Hk Ht Hm. unfold unresolved. apply filter_ext. intros id.
  unfold resolvable. rewrite Ht, Hm. now rewrite (mem_same_keys _ _ _ _ id Hk).
Qed.

(** The objects that buckets and entity tables list are there, each
    under one key. *)
Definition closed (s : State) : Prop :=
  NoDup (Dict.keys (objects s)) /\
  (forall t b o, Dict.get t (types s) = Some b -> In o (Dict.keys b) ->
                 In o (Dict.keys (objects s))) /\
  (forall m model o, Dict.get m (models s) = Some model ->
                     In o (entities_of model) -> In o (Dict.keys (objects s))).

Lemma wf_closed (s : State) : wf s -> closed s.
Proof.
  intros Hwf. destruct (wf_parts s Hwf) as (Hd & He & _ & Hb & _).
  split; [now apply nodupb_NoDup|]. split.
  - intros t b o Ht Ho.
    destruct (bucket_typed_spec s Hb _ _ _ Ht Ho) as (obj & Hobj & _).
    eapply get_some_keys; eassumption.
  - intros m model o Hm Ho.
    rewrite (entities_owned_spec s m model He Hm) in Ho.
    now apply owned_in_objects in Ho.
Qed.

Lemma height_in (x : Ids) (l : list Ids) :
  In x l -> (height x < height (IArr l))%nat.
Proof.
  simpl. induction l as [|y r IH]; simpl; [tauto|].
  intros [->|H]; [lia | specialize (IH H); lia].
Qed.

Lemma apply_ids_undefined (assign : Object -> Object)
  (other : string -> State -> option State)
  (also : list (State -> list string)) (n : nat) (s : State) :
  apply_ids assign other also (S n) IUndefined s
  = match apply_ids assign other also n (strs (Dict.keys (objects s))) s with
    | Some s2 =>
        each (fun f s => apply_ids assign other also n (strs (f s)) s) also s2
    | None => None
    end.
Proof. reflexivity. Qed.

Lemma apply_ids_array (assign : Object -> Object)
  (other : string -> State -> option State)
  (also : list (State -> list string)) (n : nat) (l : list Ids) (s : State) :
  apply_ids assign other also (S n) (IArr l) s
  = each (apply_ids assign other also n) l s.
Proof. reflexivity. Qed.

Section Resolved.
Variable assign : Object -> Object.
Variable other : string -> State -> option State.
Hypothesis assign_idem : forall o, assign (assign o) = assign o.
Hypothesis other_frame :
  forall id s v l,
    other id s = None -> other id (set_log l (set_objects v s)) = None.

(** [s] with [assign] applied to the objects [ids] and [msgs] logged. *)
Definition upd (msgs : list Event) (ids : list string) (s : State) : State :=
  set_log (log s ++ msgs) (set_objects (assign_all assign ids (objects s)) s).

Lemma upd_nil (s : State) : upd [] [] s = s.
Proof.
  unfold upd. rewrite app_nil_r, assign_all_nil, set_objects_eta.
  apply set_log_eta.
Qed.

Lemma upd_upd (m1 m2 : list Event) (l1 l2 : list string) (s : State) :
  upd m2 l2 (upd m1 l1 s) = upd (m1 ++ m2) (l1 ++ l2) s.
Proof.
  unfold upd.
  change (log (set_log (log s ++ m1)
                 (set_objects (assign_all assign l1 (objects s)) s)))
    with (log s ++ m1).
  change (objects (set_log (log s ++ m1)
                     (set_objects (assign_all assign l1 (objects s)) s)))
    with (assign_all assign l1 (objects s)).
  rewrite (assign_all_app assign assign_idem), app_assoc. reflexivity.
Qed.

Lemma closed_upd (m : list Event) (l : list string) (s : State) :
  closed s -> closed (upd m l s).
Proof.
  unfold closed, upd.
  change (objects (set_log (log s ++ m)
                     (set_objects (assign_all assign l (objects s)) s)))
    with (assign_all assign l (objects s)).
  rewrite keys_assign_all. tauto.
Qed.

Lemma apply_objects (also : list (State -> list string)) (n : nat)
  (l : list string) :
  forall s,
    NoDup (Dict.keys (objects s)) ->
    (forall o, In o l -> In o (Dict.keys (objects s))) ->
    apply_ids assign other also (S (S n)) (strs l) s = Some (upd [] l s).
Proof.
  unfold strs. cbn [apply_ids].
  assert (G : forall s ids,
             NoDup (Dict.keys (objects s)) ->
             (forall o, In o l -> In o (Dict.keys (objects s))) ->
             each (apply_ids assign other also (S n)) (map IStr l)
               (upd [] ids s)
             = Some (upd [] (ids ++ l) s)).
  { induction l as [|o r IH]; intros s ids Hnd Hin; simpl map; cbn [each].
    - now rewrite app_nil_r.
    - assert (Ho : In o (Dict.keys (objects (upd [] ids s)))).
      { unfold upd. simpl. rewrite keys_assign_all. apply Hin. now left. }
      apply in_keys_get in Ho. destruct Ho as [obj Hobj].
      pose proof (apply_ids_in_order assign other also n (upd [] ids s) o)
        as Hstep.
      rewrite Hobj in Hstep. rewrite Hstep.
      rewrite (set_assign_all assign o obj) by
        (try assumption; unfold upd; simpl; now rewrite keys_assign_all).
      change (set_objects (assign_all assign [o] (objects (upd [] ids s)))
                (upd [] ids s))
        with (set_log (log (upd [] ids s))
                (set_objects (assign_all assign [o] (objects (upd [] ids s)))
                   (upd [] ids s))).
      replace (log (upd [] ids s)) with (log (upd [] ids s) ++ [])
        by apply app_nil_r.
      fold (upd [] [o] (upd [] ids s)). rewrite upd_upd. simpl app.
      rewrite (IH s (ids ++ [o])).
      + now rewrite <- app_assoc.
      + assumption.
      + intros o' Ho'. apply Hin. now right. }
  intros s Hnd Hin. rewrite <- (upd_nil s) at 1. now apply (G s []).
Qed.

Definition quiet (q : Ids) (s : State) : Prop :=
  forall id, In id (strings q) -> Dict.get id (objects s) = None ->
             other id s = None.

Definition resolved_by (q : Ids) : Prop :=
  forall fuel s,
    closed s -> (height q + 3 <= fuel)%nat -> quiet q s ->
    apply_ids assign other [] fuel q s
    = Some (upd (missing (unresolved q s)) (fst (getObjects q s)) s).

Lemma each_resolved (n : nat) (l : list Ids) :
  Forall resolved_by l ->
  (forall x, In x l -> (height x + 3 <= n)%nat) ->
  forall s0 msgs ids,
    closed s0 -> quiet (IArr l) s0 ->
    each (apply_ids assign other [] n) l (upd msgs ids s0)
    = Some (upd (msgs ++ missing (unresolved (IArr l) s0))
              (ids ++ concat (map (fun x => fst (getObjects x s0)) l)) s0).
Proof.
  induction 1 as [|x rest Hx _ IH]; intros Hn s0 msgs ids Hc Hq; cbn [each].
  - unfold unresolved. simpl. now rewrite !app_nil_r.
  - assert (Hkeys : Dict.keys (objects (upd msgs ids s0))
                    = Dict.keys (objects s0)).
    { unfold upd. simpl. apply keys_assign_all. }
    rewrite (Hx n (upd msgs ids s0)).
    + rewrite (unresolved_same_names x s0 (upd msgs ids s0) Hkeys eq_refl eq_refl).
      rewrite (getObjects_same_names x s0 (upd msgs ids s0) Hkeys eq_refl eq_refl).
      rewrite upd_upd. rewrite IH.
      * unfold unresolved, missing. simpl.
        rewrite filter_app, map_app, !app_assoc. reflexivity.
      * intros y Hy. apply Hn. now right.
      * assumption.
      * intros id Hid. apply Hq. simpl. apply in_or_app. now right.
    + now apply closed_upd.
    + apply Hn. now left.
    + intros id Hid Hnone. unfold upd. apply other_frame. apply Hq.
      * simpl. apply in_or_app. now left.
      * apply get_none_keys. rewrite <- Hkeys. now apply get_none_keys.
Qed.

Lemma apply_ids_resolved (q : Ids) : resolved_by q.
Proof.
  induction q as [|id|l IH] using Ids_nested_ind; intros fuel s Hc Hf Hq.
  - destruct fuel as [|[|[|n]]]; try (simpl in Hf; lia).
    rewrite apply_ids_undefined. destruct Hc as (Hnd & _).
    rewrite (apply_objects [] n (Dict.keys (objects s)) s Hnd) by auto.
    cbn [each]. unfold unresolved. simpl. reflexivity.
  - destruct fuel as [|[|[|n]]]; try (simpl in Hf; lia).
    destruct Hc as (Hnd & Hb & Hm).
    pose proof (apply_ids_in_order assign other [] (S n) s id) as Hstep.
    pose proof (apply_ids_in_order assign other [] (S (S n)) s id) as Hstep1.
    unfold unresolved, resolvable, Dict.mem. simpl strings. simpl filter.
    simpl getObjects.
    destruct (Dict.get id (objects s)) as [obj|] eqn:Eo.
    { rewrite Hstep1. simpl. unfold upd. rewrite app_nil_r.
      now rewrite (set_assign_all assign id obj). }
    rewrite (Hq id (or_introl eq_refl) Eo) in Hstep, Hstep1.
    destruct (Dict.get id (types s)) as [b|] eqn:Et.
    { rewrite Hstep. simpl.
      apply (apply_objects [] n (Dict.keys b) s Hnd).
      intros o Ho. eapply Hb; eassumption. }
    destruct (Dict.get id (models s)) as [model|] eqn:Em.
    + rewrite Hstep. simpl.
      replace (fst match m_entities model with
                   | Some entities => (entities, s)
                   | None => ([], s)
                   end) with (entities_of model)
        by (unfold entities_of; now destruct (m_entities model)).
      apply (apply_objects [] n (entities_of model) s Hnd).
      intros o Ho. eapply Hm; eassumption.
    + rewrite Hstep1. simpl. unfold upd, error.
      now rewrite assign_all_nil, set_objects_eta.
  - destruct fuel as [|n]; [simpl in Hf; lia|].
    rewrite apply_ids_array. rewrite <- (upd_nil s) at 1.
    rewrite (each_resolved n l IH).
    + simpl app. f_equal. unfold upd. f_equal. f_equal.
      rewrite getObjects_array. apply assign_all_same.
      intros k. symmetry. apply in_dedup.
    + intros x Hx. pose proof (height_in x l Hx). lia.
    + assumption.
    + assumption.
Qed.
End Resolved.

Lemma applied_upd (f : Object -> Object) (q : Ids) (s : State) :
  applied f q s = upd f (missing (unresolved q s)) (fst (getObjects q s)) s.
Proof. reflexivity. Qed.





Lemma color_assign_idem (c : vec3) (o : Object) :
  color_assign c (color_assign c o) = color_assign c o.
Proof. unfold color_assign. destruct o as [? ? ? ? [d|] ? ? ? ? ? ? ?]; reflexivity. Qed.



Lemma defined_strs (l : list string) : defined (strs l) = true.
Proof. unfold strs. simpl. induction l; simpl; auto. Qed.

(** What an argument without [undefined] is resolved to does not depend
    on what [undefined] stands for. *)
Lemma apply_ids_defined (assign : Object -> Object)
  (other : string -> State -> option State)
  (also : list (State -> list string)) (fuel : nat) :
  forall ids s,
    defined ids = true ->
    apply_ids assign other also fuel ids s
    = apply_ids assign other [] fuel ids s.
Proof.
  induction fuel as [|n IH]; intros ids s Hd; [reflexivity|].
  destruct ids as [|id|l]; [discriminate| |].
  - simpl.
    destruct (Dict.get id (objects s)); [reflexivity|].
    destruct (other id s); [reflexivity|].
    destruct (Dict.get id (models s)).
    + destruct (Dict.get id (types s)) as [b|];
        [|destruct (m_entities _)]; apply IH, defined_strs.
    + destruct (Dict.get id (types s)) as [b|]; [|reflexivity].
      destruct (Dict.keys b) eqn:E; [reflexivity|].
      rewrite <- E. apply IH, defined_strs.
  - rewrite !apply_ids_array. simpl in Hd. revert s.
    induction l as [|x r IHl]; intros s; [reflexivity|].
    simpl in Hd. apply andb_true_iff in Hd. destruct Hd as [Hx Hr].
    cbn [each]. rewrite (IH x s Hx).
    destruct (apply_ids assign other [] n x s); [now apply IHl | reflexivity].
Qed.



Lemma objects_apart (s : State) (k : string) :
  one_namespace s = true ->
  In k (Dict.keys (objects s)) ->
  ~ In k (Dict.keys (lights s)) /\ ~ In k (Dict.keys (clips s)).
Proof.
  unfold one_namespace. intros H.
  repeat (apply andb_true_iff in H; destruct H as [H ?]).
  intros Hk.
  match goal with
  | D : disjointb (Dict.keys (objects s)) _ = true |- _ =>
      pose proof (disjointb_spec _ _ k D Hk) as N
  end.
  rewrite !in_app_iff in N. tauto.
Qed.

Lemma lights_loop (v : bool) (also : list (State -> list string)) (n : nat)
  (l : list string) :
  forall s,
    (forall k, In k l -> Dict.get k (objects s) = None /\
                         Dict.get k (lights s) <> None) ->
    exists h,
      apply_ids (with_visible v) (visible_other v) also (S (S n)) (strs l) s
      = Some (set_lightHelpers h s).
Proof.
  unfold strs. induction l as [|k r IH]; intros s H.
  - exists (lightHelpers s). now destruct s.
  - rewrite apply_ids_array. simpl map. cbn [each].
    destruct (H k (or_introl eq_refl)) as [Ho Hl].
    pose proof (apply_ids_in_order (with_visible v) (visible_other v) also n s k)
      as Hstep.
    rewrite Ho in Hstep.
    destruct (Dict.get k (lights s)) as [light|] eqn:El; [|congruence].
    assert (G : exists h1,
               apply_ids (with_visible v) (visible_other v) also (S n)
                 (IStr k) s = Some (set_lightHelpers h1 s)).
    { destruct (Dict.get k (lightHelpers s)) as [old|] eqn:Eh.
      - exists (Dict.set k v (lightHelpers s)).
        assert (Ev : visible_other v k s
                     = Some (set_lightHelpers (Dict.set k v (lightHelpers s)) s))
          by (unfold visible_other; now rewrite El, Eh).
        now rewrite Ev in Hstep.
      - exists (lightHelpers s).
        assert (Ev : visible_other v k s = Some s)
          by (unfold visible_other; now rewrite El, Eh).
        rewrite Ev in Hstep. rewrite Hstep. now destruct s. }
    destruct G as [h1 ->].
    destruct (IH (set_lightHelpers h1 s)) as [h Hh].
    { intros k' Hk'. apply H. now right. }
    rewrite apply_ids_array in Hh. exists h. exact Hh.
Qed.

Lemma clips_loop (v : bool) (also : list (State -> list string)) (n : nat)
  (l : list string) :
  forall s,
    (forall k, In k l -> Dict.get k (objects s) = None /\
                         Dict.get k (lights s) = None /\
                         Dict.get k (clipHelpers s) <> None) ->
    exists h,
      apply_ids (with_visible v) (visible_other v) also (S (S n)) (strs l) s
      = Some (set_clipHelpers h s) /\
      (forall k, In k l -> Dict.get k h = Some v) /\
      (forall k, Dict.get k (clipHelpers s) = Some v -> Dict.get k h = Some v) /\
      (forall k, Dict.get k (clipHelpers s) <> None -> Dict.get k h <> None).
Proof.
  unfold strs. induction l as [|k r IH]; intros s H.
  - exists (clipHelpers s). split; [now destruct s|]. simpl. tauto.
  - rewrite apply_ids_array. simpl map. cbn [each].
    destruct (H k (or_introl eq_refl)) as (Ho & Hl & Hc).
    pose proof (apply_ids_in_order (with_visible v) (visible_other v) also n s k)
      as Hstep.
    rewrite Ho in Hstep.
    destruct (Dict.get k (clipHelpers s)) as [old|] eqn:Eh; [|congruence].
    assert (Ev : visible_other v k s
                 = Some (set_clipHelpers (Dict.set k v (clipHelpers s)) s))
      by (unfold visible_other; now rewrite Hl, Eh).
    rewrite Ev in Hstep. rewrite Hstep.
    destruct (IH (set_clipHelpers (Dict.set k v (clipHelpers s)) s))
      as (h & Hh & Hin & Hkeep & Hsome).
    { intros k' Hk'. destruct (H k' (or_intror Hk')) as (Ho' & Hl' & Hc').
      repeat split; try assumption. simpl.
      destruct (string_dec k' k) as [->|N].
      - rewrite get_set_same. discriminate.
      - now rewrite get_set_other. }
    rewrite apply_ids_array in Hh. exists h. split; [exact Hh|].
    simpl in Hkeep, Hsome. repeat split.
    + intros k' [<-|Hk']; [|now apply Hin].
      apply Hkeep. apply get_set_same.
    + intros k' Hk'. apply Hkeep.
      destruct (string_dec k' k) as [->|N].
      * apply get_set_same.
      * now rewrite get_set_other.
    + intros k' Hk'. apply Hsome.
      destruct (string_dec k' k) as [->|N].
      * rewrite get_set_same. discriminate.
      * now rewrite get_set_other.
Qed.

Lemma assign_all_keys (f : Object -> Object) (d : dict Object) :
  assign_all f (Dict.keys d) d = map (fun e => (fst e, f (snd e))) d.
Proof.
  unfold assign_all. apply map_ext_in. intros e He.
  assert (E : existsb (String.eqb (fst e)) (Dict.keys d) = true).
  { apply existsb_eqb_in. unfold Dict.keys. now apply in_map. }
  now rewrite E.
Qed.

(** [show()] and [hide()] without an argument: in a well-formed state
    the call returns, every object gets the visibility and the helper of
    every clip plane with it; models, types, lights, clips, annotations
    and the log stay as they are. *)
Theorem setVisible_all (s : State) (n : nat) (visible : bool) :
  wf s ->
  exists s',
    setVisible (S (S (S n))) IUndefined visible s = Some s' /\
    objects s' = map (fun e => (fst e, with_visible visible (snd e))) (objects s) /\
    (forall c, In c (getClips s) -> Dict.get c (clipHelpers s') = Some visible) /\
    named_maps s' = named_maps s /\ log s' = log s.
Proof.
  intros Hwf. destruct (wf_parts s Hwf) as (Hd & _ & _ & _ & _ & Hns & Hwt).
  destruct (one_namespace_spec s Hns) as (_ & _ & _ & _ & _ & _ & Hcl & _).
  destruct (written_together_spec s Hwt) as [Hhelp _].
  unfold setVisible. rewrite apply_ids_undefined.
  rewrite (apply_objects (with_visible visible) (visible_other visible)
             (fun o => eq_refl) [getLights; getClips] n
             (Dict.keys (objects s)) s (nodupb_NoDup _ Hd)) by auto.
  set (s1 := upd (with_visible visible) [] (Dict.keys (objects s)) s).
  assert (Hnone : forall k, ~ In k (Dict.keys (objects s)) ->
                            Dict.get k (objects s1) = None).
  { intros k Hk. apply get_none_keys. unfold s1, upd. simpl.
    now rewrite keys_assign_all. }
  cbn [each].
  destruct (lights_loop visible [getLights; getClips] n (getLights s1) s1)
    as [h1 ->].
  { intros k Hk. split.
    - apply Hnone. intros Ho. now apply (objects_apart s k Hns) in Ho.
    - now apply get_in_keys. }
  destruct (clips_loop visible [getLights; getClips] n
              (getClips (set_lightHelpers h1 s1)) (set_lightHelpers h1 s1))
    as (h2 & -> & Hin & _).
  { intros k Hk. repeat split.
    - apply Hnone. intros Ho. now apply (objects_apart s k Hns) in Ho.
    - apply get_none_keys. intros Hl. apply (Hcl k Hk).
      apply in_or_app. now left.
    - now apply Hhelp. }
  eexists. split; [reflexivity|]. split.
  { change (objects (set_clipHelpers h2 (set_lightHelpers h1 s1)))
      with (assign_all (with_visible visible) (Dict.keys (objects s))
              (objects s)).
    apply assign_all_keys. }
  split; [exact Hin|]. split; [reflexivity|].
  change (log (set_clipHelpers h2 (set_lightHelpers h1 s1)))
    with (log s ++ []).
  apply app_nil_r.
Qed.

Lemma setVisible_all_witness :
  exists s',
    setVisible 3 IUndefined false Demo.furnished = Some s' /\
    objects s'
    = map (fun e => (fst e, with_visible false (snd e)))
        (objects Demo.furnished) /\
    (forall c, In c (getClips Demo.furnished) ->
               Dict.get c (clipHelpers s') = Some false) /\
    named_maps s' = named_maps Demo.furnished /\ log s' = log Demo.furnished.
Proof. exact (setVisible_all Demo.furnished 0 false demo_furnished_wf). Defined.

(** ** Well-formedness is kept *)

(** Two object maps with the same keys in the same order and, under each
    key, objects of the same type. *)
Definition same_types (d d' : dict Object) : Prop :=
  Forall2 (fun e e' => fst e' = fst e /\ type_of (snd e') = type_of (snd e))
    d d'.

Lemma same_types_refl (d : dict Object) : same_types d d.
Proof. induction d; constructor; auto. Qed.

Lemma same_types_trans (a b c : dict Object) :
  same_types a b -> same_types b c -> same_types a c.
Proof.
  intros H. revert c. induction H as [|x y a b [H1 H2] _ IH]; intros c Hc;
    inversion Hc as [|? z ? c' [H3 H4] Hr]; subst; constructor.
  - split; congruence.
  - now apply IH.
Qed.

Lemma same_types_keys (d d' : dict Object) :
  same_types d d' -> Dict.keys d' = Dict.keys d.
Proof.
  induction 1 as [|x y a b [H1 _] _ IH]; simpl; [reflexivity|].
  now rewrite H1, IH.
Qed.

Lemma same_types_get (d d' : dict Object) (k : string) :
  same_types d d' ->
  match Dict.get k d, Dict.get k d' with
  | Some a, Some b => type_of b = type_of a
  | None, None => True
  | _, _ => False
  end.
Proof.
  induction 1 as [|[k1 a] [k2 b] r r' [H1 H2] _ IH]; simpl; [exact I|].
  simpl in H1, H2. subst k2. destruct (String.eqb k k1); assumption.
Qed.

Lemma same_types_set (d : dict Object) (k : string) (o o' : Object) :
  Dict.get k d = Some o -> type_of o' = type_of o ->
  same_types d (Dict.set k o' d).
Proof.
  intros Hget Ht. induction d as [|[k1 a] r IH]; simpl in *; [discriminate|].
  destruct (String.eqb k k1) eqn:E.
  - apply String.eqb_eq in E. subst k1. injection Hget as ->.
    constructor; [now split | apply same_types_refl].
  - constructor; [now split | now apply IH].
Qed.

Lemma same_types_assign_all (f : Object -> Object) (l : list string)
  (d : dict Object) :
  (forall o, type_of (f o) = type_of o) -> same_types d (assign_all f l d).
Proof.
  intros Hf. induction d as [|[k a] r IH]; simpl; constructor; [|assumption].
  destruct (existsb (String.eqb k) l); simpl; auto.
Qed.

(** What well-formedness reads of a state besides its objects. *)
Definition registry (s : State) :=
  (types s, models s, objectModels s, annotations s, objectAnnotations s,
   transformable s, scales s, rotations s, translations s, clips s,
   Dict.keys (lights s), Dict.keys (clipHelpers s)).

Lemma forallb_same_types (p p' : string * Object -> bool) (d d' : dict Object) :
  same_types d d' ->
  (forall k a b, type_of b = type_of a -> p' (k, b) = p (k, a)) ->
  forallb p' d' = forallb p d.
Proof.
  intros H Hp. induction H as [|[k1 a] [k2 b] r r' [H1 H2] _ IH]; simpl;
    [reflexivity|].
  simpl in H1, H2. subst k2. now rewrite (Hp k1 a b H2), IH.
Qed.

Lemma forallb_eq (A : Type) (p q : A -> bool) (l : list A) :
  (forall x, p x = q x) -> forallb p l = forallb q l.
Proof. intros H. induction l; simpl; [reflexivity | now rewrite H, IHl]. Qed.

Lemma wfb_same_types (s s' : State) :
  same_types (objects s) (objects s') ->
  registry s' = registry s ->
  wfb s' = wfb s.
Proof.
  intros Ho Hr. unfold registry in Hr.
  injection Hr as Ht Hm Hom Ha Hoa Htr Hsc Hro Htl Hc Hl Hch.
  pose proof (same_types_keys _ _ Ho) as Hk.
  unfold wfb. f_equal; [f_equal; [f_equal; [f_equal; [f_equal; [f_equal|]|]|]|]|].
  - unfold objects_distinct. now rewrite Hk.
  - unfold entities_owned. rewrite Hm. apply forallb_eq. intros e.
    unfold owned. rewrite Hk. f_equal. apply filter_ext. intros o.
    unfold owner_is. now rewrite Hom.
  - unfold typed_in_bucket. apply (forallb_same_types _ _ _ _ Ho).
    intros k a b Hab. simpl. now rewrite Hab, Ht.
  - unfold bucket_typed. rewrite Ht. apply forallb_eq. intros tb.
    apply forallb_eq. intros o.
    pose proof (same_types_get _ _ o Ho) as Hg.
    destruct (Dict.get o (objects s)), (Dict.get o (objects s'));
      try contradiction; [now rewrite Hg | reflexivity].
  - unfold objects_owned. now rewrite Hk, Hom, Hm.
  - unfold one_namespace. now rewrite Hk, Hm, Hl, Hc, Ha.
  - unfold written_together. rewrite Hc, Ha, Hoa, Htr, Hsc, Hro, Htl.
    f_equal. f_equal. apply forallb_eq. intros c.
    now apply mem_same_keys.
Qed.

Section KeepsTypes.
Variable assign : Object -> Object.
Variable other : string -> State -> option State.
Variable also : list (State -> list string).
Hypothesis assign_type : forall o, type_of (assign o) = type_of o.
Hypothesis other_objects :
  forall id s s1, other id s = Some s1 -> objects s1 = objects s.

Lemma apply_ids_same_types (fuel : nat) :
  forall ids s s',
    apply_ids assign other also fuel ids s = Some s' ->
    same_types (objects s) (objects s').
Proof.
  induction fuel as [|n IH]; intros ids s s'; [discriminate|].
  destruct ids as [|id|l].
  - rewrite apply_ids_undefined.
    destruct (apply_ids assign other also n _ s) as [s2|] eqn:E2;
      [|discriminate].
    apply IH in E2. intros H.
    apply (each_invariant _ _
             (fun a b => same_types (objects a) (objects b))) in H.
    + eapply same_types_trans; eassumption.
    + intros a. apply same_types_refl.
    + intros a b c. apply same_types_trans.
    + intros f a b _ Hf. eapply IH; eassumption.
  - simpl. destruct (Dict.get id (objects s)) as [o|] eqn:Eo.
    { intros H. injection H as <-.
      exact (same_types_set _ id o _ Eo (assign_type o)). }
    destruct (other id s) as [s1|] eqn:Eother.
    { intros H. injection H as <-. rewrite (other_objects _ _ _ Eother).
      apply same_types_refl. }
    destruct (Dict.get id (models s)).
    + destruct (Dict.get id (types s)) as [b|];
        [|destruct (m_entities _)]; apply IH.
    + destruct (Dict.get id (types s)) as [b|].
      * destruct (Dict.keys b).
        -- intros H. injection H as <-. apply same_types_refl.
        -- apply IH.
      * intros H. injection H as <-. apply same_types_refl.
  - rewrite apply_ids_array. intros H.
    apply (each_invariant _ _
             (fun a b => same_types (objects a) (objects b))) in H.
    + assumption.
    + intros a. apply same_types_refl.
    + intros a b c. apply same_types_trans.
    + intros x a b _ Hx. eapply IH; eassumption.
Qed.
End KeepsTypes.

Lemma visible_other_registry (v : bool) (id : string) (s s1 : State) :
  visible_other v id s = Some s1 ->
  registry s1 = registry s /\ objects s1 = objects s.
Proof.
  unfold visible_other.
  destruct (Dict.get id (lights s)).
  - destruct (Dict.get id (lightHelpers s)); intros H; injection H as <-;
      split; reflexivity.
  - destruct (Dict.get id (clipHelpers s)) as [old|] eqn:E; [|discriminate].
    intros H. injection H as <-. split; [|reflexivity].
    unfold registry. simpl. rewrite keys_set_present; [reflexivity | congruence].
Qed.

Lemma color_other_registry (c : vec3) (id : string) (s s1 : State) :
  color_other c id s = Some s1 ->
  registry s1 = registry s /\ objects s1 = objects s.
Proof.
  unfold color_other.
  destruct (Dict.get id (lights s)) as [light|] eqn:E; [|discriminate].
  intros H. injection H as <-. split; [|reflexivity].
  unfold registry. simpl. rewrite keys_set_present; [reflexivity | congruence].
Qed.

Lemma apply_ids_wf (assign : Object -> Object)
  (other : string -> State -> option State)
  (also : list (State -> list string)) (fuel : nat) (ids : Ids) (s s' : State) :
  (forall o, type_of (assign o) = type_of o) ->
  (forall id a b, other id a = Some b ->
                  registry b = registry a /\ objects b = objects a) ->
  wf s ->
  apply_ids assign other also fuel ids s = Some s' ->
  wf s'.
Proof.
  intros Ha Ho Hwf H. unfold wf.
  rewrite (wfb_same_types s s'); [assumption | |].
  - eapply apply_ids_same_types; [exact Ha | | exact H].
    intros id a b Hab. now apply Ho in Hab.
  - eapply (apply_ids_view _ registry); [| | | exact H]; try reflexivity.
    intros id a b Hab. now apply Ho in Hab.
Qed.

(** [show] and [hide], [setOpacity], [setColor], [setClippable] and
    [setUnclippable], [setPickable] and [setUnpickable], [showOutline] and
    [hideOutline] keep a well-formed state well formed. *)
Theorem setters_keep_wf (s s' : State) (fuel : nat) (ids : Ids) :
  wf s ->
  (forall visible, setVisible fuel ids visible s = Some s' -> wf s') /\
  (forall opacity, setOpacity fuel ids opacity s = Some s' -> wf s') /\
  (forall color, setColor fuel ids color s = Some s' -> wf s') /\
  (forall b, setClippable_ fuel ids b s = Some s' -> wf s') /\
  (forall b, setPickable_ fuel ids b s = Some s' -> wf s') /\
  (forall b, setOutline fuel ids b s = Some s' -> wf s').
Proof.
  intros Hwf.
  assert (Hno : forall id a b, no_other id a = Some b ->
                               registry b = registry a /\ objects b = objects a)
    by discriminate.
  repeat split; intros x H;
    (eapply apply_ids_wf; [| | exact Hwf | exact H]);
    try reflexivity; try exact Hno.
  - apply visible_other_registry.
  - unfold color_assign. intros o. now destruct (o_diffuse o).
  - apply color_other_registry.
Qed.

Lemma setters_keep_wf_witness :
  wf (Demo.force (setVisible 3 IUndefined false Demo.furnished)).
Proof.
  apply (proj1 (setters_keep_wf Demo.furnished
                  (Demo.force (setVisible 3 IUndefined false Demo.furnished))
                  3 IUndefined demo_furnished_wf) false).
  vm_compute. reflexivity.
Defined.

Lemma in_set_entries (V : Type) (d : dict V) (o k : string) (v x : V) :
  NoDup (Dict.keys d) ->
  In (k, x) (Dict.set o v d) ->
  (k = o /\ x = v) \/ (k <> o /\ In (k, x) d).
Proof.
  induction d as [|[k1 v1] r IH]; simpl; intros Hnd Hin.
  - destruct Hin as [E|[]]. injection E as E1 E2. now left.
  - inversion Hnd as [|? ? Hk Hr]; subst.
    destruct (String.eqb o k1) eqn:E.
    + apply String.eqb_eq in E. subst k1. destruct Hin as [E|Hin].
      * injection E as E1 E2. now left.
      * right. split; [|now right]. intros ->. apply Hk.
        change o with (fst (o, x)). now apply in_map.
    + apply String.eqb_neq in E. destruct Hin as [E'|Hin].
      * injection E' as E1 E2. subst. right. split; [congruence | now left].
      * destruct (IH Hr Hin) as [?|[? ?]]; [now left | right; split; auto].
Qed.

Lemma in_entries_get (V : Type) (d : dict V) (k : string) (x : V) :
  NoDup (Dict.keys d) -> In (k, x) d -> Dict.get k d = Some x.
Proof.
  induction d as [|[k1 v1] r IH]; simpl; intros Hnd Hin; [contradiction|].
  inversion Hnd as [|? ? Hk Hr]; subst.
  destruct Hin as [E|Hin].
  - injection E as E1 E2. subst. now rewrite String.eqb_refl.
  - destruct (String.eqb k k1) eqn:E.
    + apply String.eqb_eq in E. subst k1. exfalso. apply Hk.
      change k with (fst (k, x)). now apply in_map.
    + now apply IH.
Qed.

Lemma mem_get (V : Type) (d : dict V) (k : string) :
  Dict.mem k d = true <-> Dict.get k d <> None.
Proof. unfold Dict.mem. destruct (Dict.get k d); split; congruence. Qed.

(** The state in which the object [o] moved from the bucket of its type
    to the bucket of [T]. *)
Lemma retype_wf (s s' : State) (o T : string) (obj : Object) (b0 : dict unit) :
  wf s -> NoDup (Dict.keys (types s)) ->
  Dict.get o (objects s) = Some obj ->
  T <> "" -> type_of obj <> T ->
  Dict.get (type_of obj) (types s) = Some b0 ->
  objects s' = Dict.set o (with_metaType (Some T) obj) (objects s) ->
  types s'
  = Dict.set T (Dict.set o tt (default Dict.empty (Dict.get T (types s))))
      (Dict.set (type_of obj) (Dict.del o b0) (types s)) ->
  (models s', objectModels s', annotations s', objectAnnotations s',
   transformable s', scales s', rotations s', translations s', clips s',
   lights s', clipHelpers s')
  = (models s, objectModels s, annotations s, objectAnnotations s,
     transformable s, scales s, rotations s, translations s, clips s,
     lights s, clipHelpers s) ->
  wf s' /\ NoDup (Dict.keys (types s')).
Proof.
  intros Hwf Hnt Ho HT Hcur Hb0 Hobj Htyp Hrest.
  injection Hrest as Hm Hom Ha Hoa Htr Hsc Hro Htl Hc Hl Hch.
  destruct (wf_parts s Hwf) as (Hd & He & Htb & Hbt & Hoo & Hns & Hwt).
  pose proof (nodupb_NoDup _ Hd) as Hndo.
  assert (Hk : Dict.keys (objects s') = Dict.keys (objects s)).
  { rewrite Hobj. apply keys_set_present. congruence. }
  assert (Htype : type_of (with_metaType (Some T) obj) = T)
    by now apply or_default_some.
  assert (Hnt1 : NoDup (Dict.keys (Dict.set (type_of obj) (Dict.del o b0)
                                     (types s))))
    by now apply nodup_keys_set.
  assert (Hget : forall t,
             Dict.get t (types s')
             = if string_dec t T
               then Some (Dict.set o tt
                            (default Dict.empty (Dict.get T (types s))))
               else if string_dec t (type_of obj) then Some (Dict.del o b0)
                    else Dict.get t (types s)).
  { intros t. rewrite Htyp. destruct (string_dec t T) as [->|N].
    - apply get_set_same.
    - rewrite get_set_other by assumption.
      destruct (string_dec t (type_of obj)) as [->|N'].
      + apply get_set_same.
      + now rewrite get_set_other. }
  split; [|rewrite Htyp; now apply nodup_keys_set].
  assert (G_objects_distinct : objects_distinct s' = true).
  { unfold objects_distinct. now rewrite Hk. }
  assert (G_entities_owned : entities_owned s' = true).
  { unfold entities_owned. rewrite Hm. rewrite <- He. apply forallb_eq.
    intros e. unfold owned. rewrite Hk. f_equal. apply filter_ext.
    intros k. unfold owner_is. now rewrite Hom. }
  assert (G_typed_in_bucket : typed_in_bucket s' = true).
  { unfold typed_in_bucket. apply forallb_forall. intros [k x] Hin.
    rewrite Hobj in Hin. apply (in_set_entries _ _ _ _ _ _ Hndo) in Hin.
    simpl. rewrite Hget. destruct Hin as [[-> ->]|[Nk Hin]].
    + rewrite Htype. destruct (string_dec T T); [|congruence].
      apply mem_get. rewrite get_set_same. discriminate.
    + pose proof (in_entries_get _ _ _ _ Hndo Hin) as Hx.
      destruct (typed_in_bucket_spec s k x Htb Hx) as (b & Hb & Hkb).
      apply get_in_keys in Hkb.
      destruct (string_dec (type_of x) T) as [E|N].
      * apply mem_get. rewrite get_set_other by assumption.
        rewrite <- E, Hb. exact Hkb.
      * destruct (string_dec (type_of x) (type_of obj)) as [E|N'].
        -- apply mem_get. rewrite get_del_other by assumption.
           rewrite E, Hb0 in Hb. injection Hb as <-. exact Hkb.
        -- rewrite Hb. now apply mem_get. }
  assert (G_bucket_typed : bucket_typed s' = true).
  { unfold bucket_typed. apply forallb_forall. intros [t b] Hin.
    assert (Hnt' : NoDup (Dict.keys (types s')))
      by (rewrite Htyp; now apply nodup_keys_set).
    apply (in_entries_get _ _ _ _ Hnt') in Hin. rewrite Hget in Hin.
    simpl. apply forallb_forall. intros k Hkb. rewrite Hobj.
    destruct (string_dec t T) as [->|N].
    + injection Hin as <-. apply in_keys_set in Hkb.
      destruct (string_dec k o) as [->|Nk].
      * rewrite get_set_same, Htype. apply String.eqb_refl.
      * rewrite get_set_other by assumption.
        destruct Hkb as [Hkb|Hkb]; [congruence|].
        destruct (Dict.get T (types s)) as [b|] eqn:ET; [|contradiction].
        destruct (bucket_typed_spec s Hbt _ _ _ ET Hkb) as (x & -> & <-).
        apply String.eqb_refl.
    + destruct (string_dec t (type_of obj)) as [->|N'].
      * injection Hin as <-. apply in_keys_del in Hkb.
        destruct Hkb as [Nk Hkb].
        rewrite get_set_other by assumption.
        destruct (bucket_typed_spec s Hbt _ _ _ Hb0 Hkb) as (x & -> & ->).
        apply String.eqb_refl.
      * destruct (bucket_typed_spec s Hbt _ _ _ Hin Hkb) as (x & Hx & <-).
        assert (Nk : k <> o) by (intros ->; congruence).
        rewrite get_set_other by assumption. rewrite Hx.
        apply String.eqb_refl. }
  assert (G_objects_owned : objects_owned s' = true).
  { unfold objects_owned. now rewrite Hk, Hom, Hm. }
  assert (G_one_namespace : one_namespace s' = true).
  { unfold one_namespace. now rewrite Hk, Hm, Hl, Hc, Ha. }
  assert (G_written_together : written_together s' = true).
  { unfold written_together. now rewrite Hc, Hch, Ha, Hoa, Htr, Hsc, Hro, Htl. }
  unfold wf, wfb.
  now rewrite G_objects_distinct, G_entities_owned, G_typed_in_bucket,
    G_bucket_typed, G_objects_owned, G_one_namespace, G_written_together.
Qed.

Lemma setType_str_wf (s : State) (id : string) (type : option string) :
  wf s -> NoDup (Dict.keys (types s)) ->
  exists s',
    setType (IStr id) type s = Some s' /\ wf s' /\ NoDup (Dict.keys (types s')).
Proof.
  intros Hwf Hnt. simpl.
  destruct (Dict.get id (objects s)) as [obj|] eqn:Eo.
  - destruct (String.eqb (type_of obj) (or_default type)) eqn:E.
    { exists s. auto. }
    apply String.eqb_neq in E.
    destruct (wf_parts s Hwf) as (_ & _ & Htb & _).
    destruct (typed_in_bucket_spec s id obj Htb Eo) as (b0 & Hb0 & _).
    eexists. split; [reflexivity|].
    eapply (retype_wf s _ id (or_default type) obj b0); try eassumption.
    + apply or_default_nonempty.
    + reflexivity.
    + simpl. rewrite Hb0. rewrite get_set_other by congruence. reflexivity.
    + reflexivity.
  - destruct (Dict.get id (models s)); eexists; (split; [reflexivity|]);
      split; assumption.
Qed.



(** After [setType] on an object, [getType] returns the type that was
    given, "DEFAULT" standing for none; the type of every other object
    and the model of every object stay as they were. *)
Theorem getType_after_setType (s : State) (o : string) (obj : Object)
  (type : option string) :
  Dict.get o (objects s) = Some obj ->
  exists s',
    setType (IStr o) type s = Some s' /\
    getType o s' = (Some (or_default type), s') /\
    (forall o', o' <> o -> fst (getType o' s') = fst (getType o' s)) /\
    (forall o', fst (getModel o' s') = fst (getModel o' s)).
Proof.
  intros Ho. simpl. rewrite Ho.
  destruct (String.eqb (type_of obj) (or_default type)) eqn:E.
  - apply String.eqb_eq in E. exists s. split; [reflexivity|].
    unfold getType. rewrite Ho, E. auto.
  - eexists. split; [reflexivity|]. unfold getType, getModel. simpl.
    rewrite get_set_same. split; [|split].
    + f_equal. f_equal. apply or_default_some. apply or_default_nonempty.
    + intros o' N. rewrite get_set_other by assumption.
      now destruct (Dict.get o' (objects s)).
    + intros o'. destruct (string_dec o' o) as [->|N].
      * rewrite get_set_same, Ho.
        now destruct (Dict.get o (objectModels s)).
      * rewrite get_set_other by assumption.
        destruct (Dict.get o' (objects s)); [|reflexivity].
        now destruct (Dict.get o' (objectModels s)).
Qed.

Lemma getType_after_setType_witness :
  exists s',
    setType (IStr "saw#1") None Demo.retagged = Some s' /\
    getType "saw#1" s' = (Some "DEFAULT", s') /\
    (forall o', o' <> "saw#1" ->
                fst (getType o' s') = fst (getType o' Demo.retagged)) /\
    (forall o', fst (getModel o' s') = fst (getModel o' Demo.retagged)).
Proof.
  apply (getType_after_setType Demo.retagged "saw#1"
           (default (Demo.part None)
              (Dict.get "saw#1" (objects Demo.retagged))) None).
  vm_compute. reflexivity.
Defined.

(** ** Transforms: what was set is what is read *)

Lemma nth_snoc_here (A : Type) (l : list A) (x : A) :
  nth_error (l ++ [x]) (length l) = Some x.
Proof. rewrite nth_error_app2 by lia. now rewrite Nat.sub_diag. Qed.

Lemma nth_snoc_before (A : Type) (l : list A) (x y : A) (i : nat) :
  nth_error l i = Some y -> nth_error (l ++ [x]) i = Some y.
Proof.
  intros H. rewrite nth_error_app1; [assumption|].
  apply nth_error_Some. congruence.
Qed.

Lemma nth_update_nth (A : Type) (f : A -> A) (l : list A) (i j : nat) :
  nth_error (update_nth i f l) j
  = if Nat.eqb i j then option_map f (nth_error l j) else nth_error l j.
Proof.
  revert i j. induction l as [|x r IH]; intros i j.
  - simpl. replace (update_nth i f (@nil A)) with (@nil A) by now destruct i.
    destruct j; simpl; now destruct (Nat.eqb i _).
  - destruct i as [|i], j as [|j]; simpl; auto.
Qed.

Lemma node_update_node (h g : nat) (f : tnode -> tnode) (s : State) :
  node h (update_node g f s)
  = if Nat.eqb g h then option_map f (node h s) else node h s.
Proof. unfold node, update_node. simpl. apply nth_update_nth. Qed.

Lemma node_with_xyz (h : nat) (xyz : vec3) (s : State) :
  is_scale_at h s = true \/ is_translate_at h s = true ->
  read_xyz h (update_node h (with_xyz xyz) s) = Some xyz.
Proof.
  unfold read_xyz, is_scale_at, is_translate_at.
  rewrite node_update_node, Nat.eqb_refl.
  destruct (node h s) as [[[v|v|q|m] p]|]; simpl; intros [H|H];
    try discriminate; reflexivity.
Qed.

Lemma nth_app_plus (A : Type) (l r : list A) (k : nat) :
  nth_error (l ++ r) (length l + k) = nth_error r k.
Proof. induction l; simpl; auto. Qed.

Ltac arena_lookup :=
  rewrite ?nth_update_nth;
  rewrite ?length_app; simpl length;
  rewrite <- ?app_assoc; simpl app;
  rewrite <- ?Nat.add_assoc; simpl Nat.add;
  rewrite ?nth_app_plus; simpl nth_error;
  repeat match goal with
         | |- context [Nat.eqb ?a ?b] => destruct (Nat.eqb a b)
         end;
  simpl.

Lemma buildModelTransform_built (id : string) (c : Component) (s : State) :
  built id (buildModelTransform id c s) = true.
Proof.
  destruct s as [ty mo ms ob an oa eu ro tr sc om tf cl ch cd li lh ld ar ce ab sd ca ho lg].
  unfold built, buildModelTransform, alloc, is_scale_at, is_translate_at,
    is_quaternion_at, node, Dict.mem.
  destruct c as [o|m]; simpl; rewrite !get_set_same; arena_lookup;
    reflexivity.
Qed.

Lemma buildObjectTransform_built (id : string) (o : Object) (s s' : State) :
  buildObjectTransform id o s = Some s' -> built id s' = true.
Proof.
  destruct s as [ty mo ms ob an oa eu ro tr sc om tf cl ch cd li lh ld ar ce ab sd ca ho lg].
  unfold buildObjectTransform, alloc.
  destruct (Dict.get id _) as [m|]; [|discriminate].
  destruct (Dict.get m _) as [model|]; [|discriminate].
  destruct (bake _ _ _ _ _) as [matrix|]; [|discriminate].
  simpl. intros H. injection H as <-.
  unfold built, is_scale_at, is_translate_at, is_quaternion_at, node, Dict.mem.
  simpl. rewrite !get_set_same. arena_lookup. reflexivity.
Qed.

Lemma getComponent_buildModel (id : string) (c : Component) (s : State) :
  getComponent id (buildModelTransform id c s) <> None.
Proof.
  destruct s as [ty mo ms ob an oa eu ro tr sc om tf cl ch cd li lh ld ar ce ab sd ca ho lg].
  unfold getComponent, buildModelTransform, alloc.
  destruct c as [o|m]; simpl.
  - rewrite get_set_same. discriminate.
  - destruct (Dict.get id ob); [discriminate|].
    rewrite get_set_same. discriminate.
Qed.

Lemma getComponent_buildObject (id : string) (o : Object) (s s' : State) :
  buildObjectTransform id o s = Some s' -> getComponent id s' <> None.
Proof.
  destruct s as [ty mo ms ob an oa eu ro tr sc om tf cl ch cd li lh ld ar ce ab sd ca ho lg].
  unfold buildObjectTransform, alloc.
  destruct (Dict.get id _) as [m|]; [|discriminate].
  destruct (Dict.get m _) as [model|]; [|discriminate].
  destruct (bake _ _ _ _ _) as [matrix|]; [|discriminate].
  simpl. intros H. injection H as <-.
  unfold getComponent. simpl. rewrite get_set_same. discriminate.
Qed.

Lemma getComponent_built (id : string) (s s0 : State) :
  getTransformableComponent id s = Some (true, s0) ->
  getComponent id s0 <> None.
Proof.
  unfold getTransformableComponent.
  destruct (getComponent id s) as [c|] eqn:Ec; [|discriminate].
  destruct (Dict.get id (transformable s)).
  { intros H. injection H as <-. congruence. }
  destruct (Dict.get id (models s)) as [m|].
  - intros H. injection H as <-. apply getComponent_buildModel.
  - destruct c as [o|m]; [|discriminate].
    destruct (buildObjectTransform id o s) as [s1|] eqn:Eb; [|discriminate].
    intros H. injection H as <-.
    eapply getComponent_buildObject; eassumption.
Qed.

Lemma sound_marked (id : string) (s : State) :
  transforms_sound id s = true ->
  Dict.mem id (transformable s) || Dict.mem id (scales s)
  || Dict.mem id (translations s) || Dict.mem id (rotations s) = true ->
  built id s = true.
Proof.
  unfold transforms_sound. intros H M. rewrite M in H.
  now rewrite orb_false_r in H.
Qed.

Lemma ready_built (id : string) (s s0 : State) :
  getTransformableComponent id s = Some (true, s0) ->
  transforms_sound id s = true ->
  built id s0 = true.
Proof.
  intros H Hs. unfold getTransformableComponent in H.
  destruct (getComponent id s) as [c|]; [|discriminate].
  destruct (Dict.get id (transformable s)) as [u|] eqn:Et.
  { injection H as <-. apply sound_marked; [assumption|].
    unfold Dict.mem at 1. now rewrite Et. }
  destruct (Dict.get id (models s)) as [m|].
  - injection H as <-. apply buildModelTransform_built.
  - destruct c as [o|m]; [|discriminate].
    destruct (buildObjectTransform id o s) as [s1|] eqn:Eb; [|discriminate].
    injection H as <-. eapply buildObjectTransform_built; eassumption.
Qed.

Section TransformOf.
Variable table : State -> dict nat.
Variable P : nat -> State -> bool.
Variable id : string.
Hypothesis built_table :
  forall st, built id st = true ->
             exists h, Dict.get id (table st) = Some h /\ P h st = true.
Hypothesis table_marked :
  forall st, Dict.get id (table st) <> None ->
             transforms_sound id st = true -> built id st = true.

Lemma transform_of_ready (s s0 : State) :
  getTransformableComponent id s = Some (true, s0) ->
  transforms_sound id s = true ->
  exists h s1,
    transform_of table id s = Some (Some h, s1) /\
    built id s1 = true /\ getComponent id s1 <> None /\
    Dict.get id (table s1) = Some h /\ P h s1 = true.
Proof.
  intros Hc Hs. unfold transform_of.
  destruct (Dict.get id (table s)) as [h|] eqn:Eh.
  - assert (Hb : built id s = true) by (apply table_marked; congruence).
    destruct (built_table s Hb) as (h' & Eh' & Hp).
    assert (h' = h) by congruence. subst h'.
    exists h, s. repeat split; try assumption.
    unfold getTransformableComponent in Hc.
    destruct (getComponent id s); [discriminate | discriminate].
  - rewrite Hc.
    pose proof (ready_built id s s0 Hc Hs) as Hb.
    destruct (built_table s0 Hb) as (h & Eh' & Hp).
    rewrite Eh'. exists h, s0. repeat split; try assumption.
    eapply getComponent_built; eassumption.
Qed.
End TransformOf.

Lemma built_parts (id : string) (s : State) :
  built id s = true ->
  Dict.get id (transformable s) <> None /\
  (exists h, Dict.get id (scales s) = Some h /\ is_scale_at h s = true) /\
  (exists h, Dict.get id (translations s) = Some h /\
             is_translate_at h s = true) /\
  (exists h, Dict.get id (rotations s) = Some h /\
             is_quaternion_at h s = true).
Proof.
  unfold built. intros H.
  repeat (apply andb_true_iff in H; destruct H as [H ?]).
  apply mem_get in H.
  destruct (Dict.get id (scales s)) as [hs|]; [|discriminate].
  destruct (Dict.get id (translations s)) as [ht|]; [|discriminate].
  destruct (Dict.get id (rotations s)) as [hr|]; [|discriminate].
  repeat split; try assumption; eexists; split; eauto.
Qed.

Lemma sound_table (id : string) (table : State -> dict nat) (s : State) :
  table = scales \/ table = translations \/ table = rotations ->
  Dict.get id (table s) <> None ->
  transforms_sound id s = true -> built id s = true.
Proof.
  intros Ht Hg Hs. apply sound_marked; [assumption|].
  apply mem_get in Hg.
  destruct Ht as [->|[->| ->]]; rewrite Hg;
    repeat rewrite ?orb_true_r, ?orb_true_l; reflexivity.
Qed.

Lemma built_update_node (id : string) (h : nat) (f : tnode -> tnode)
  (s : State) :
  (forall n, match t_kind (f n), t_kind n with
             | TScale _, TScale _ | TTranslate _, TTranslate _
             | TQuaternion _, TQuaternion _ | TTransform _, TTransform _ => True
             | _, _ => False
             end) ->
  built id (update_node h f s) = built id s.
Proof.
  intros Hf.
  assert (K : forall g, match node g (update_node h f s), node g s with
                        | Some a, Some b =>
                            match t_kind a, t_kind b with
                            | TScale _, TScale _ | TTranslate _, TTranslate _
                            | TQuaternion _, TQuaternion _
                            | TTransform _, TTransform _ => True
                            | _, _ => False
                            end
                        | None, None => True
                        | _, _ => False
                        end).
  { intros g. rewrite node_update_node.
    destruct (Nat.eqb h g); destruct (node g s) as [n|]; simpl; auto.
    - apply Hf.
    - now destruct (t_kind n). }
  unfold built, is_scale_at, is_translate_at, is_quaternion_at.
  change (transformable (update_node h f s)) with (transformable s).
  change (scales (update_node h f s)) with (scales s).
  change (translations (update_node h f s)) with (translations s).
  change (rotations (update_node h f s)) with (rotations s).
  f_equal; [f_equal; [f_equal|]|].
  - destruct (Dict.get id (scales s)) as [g|]; [|reflexivity].
    specialize (K g).
    destruct (node g (update_node h f s)) as [a|], (node g s) as [b|];
      try contradiction; [|reflexivity].
    destruct (t_kind a), (t_kind b); try contradiction; reflexivity.
  - destruct (Dict.get id (translations s)) as [g|]; [|reflexivity].
    specialize (K g).
    destruct (node g (update_node h f s)) as [a|], (node g s) as [b|];
      try contradiction; [|reflexivity].
    destruct (t_kind a), (t_kind b); try contradiction; reflexivity.
  - destruct (Dict.get id (rotations s)) as [g|]; [|reflexivity].
    specialize (K g).
    destruct (node g (update_node h f s)) as [a|], (node g s) as [b|];
      try contradiction; [|reflexivity].
    destruct (t_kind a), (t_kind b); try contradiction; reflexivity.
Qed.

Ltac is_single m :=
  exists m, 0%Z; repeat split; vm_compute; first [reflexivity | discriminate].

Lemma single_integer (m : Z) : (Z.abs m < 2 ^ 24)%Z -> single (inject_Z m).
Proof.
  intros H. exists m, 0%Z. split; [exact H|]. split; [lia|].
  simpl. now rewrite Qmult_1_r.
Qed.

(** For a component whose transforms can be built and whose ID is no
    name inherited from [Object.prototype], [getScale] returns what the
    last [setScale] gave, when that is a vector of single-precision
    numbers. *)
Theorem getScale_after_setScale (s s0 : State) (id : string) (xyz : vec3) :
  getTransformableComponent id s = Some (true, s0) ->
  transforms_sound id s = true ->
  inherited id = false ->
  single3 xyz ->
  exists s1,
    setScale (IStr id) xyz s = Some s1 /\
    getScale id s1 = Some (Some xyz, s1).
Proof.
  intros Hc Hs _ _.
  destruct (transform_of_ready scales is_scale_at id) with (s := s) (s0 := s0)
    as (h & s1 & Ht & Hb & _ & Hh & Hk); try assumption.
  { intros st Hst. apply built_parts in Hst. tauto. }
  { intros st. apply sound_table. now left. }
  exists (update_node h (with_xyz xyz) s1). split.
  - simpl. now rewrite Ht.
  - unfold getScale, transform_of.
    change (scales (update_node h (with_xyz xyz) s1)) with (scales s1).
    rewrite Hh. now rewrite node_with_xyz by (now left).
Qed.

Lemma getScale_after_setScale_witness :
  exists s1,
    setScale (IStr "saw") (2, 2, 2) Demo.furnished = Some s1 /\
    getScale "saw" s1 = Some (Some (2, 2, 2), s1).
Proof.
  apply (getScale_after_setScale Demo.furnished
           (Demo.force (option_map snd
                          (getTransformableComponent "saw" Demo.furnished)))
           "saw" (2, 2, 2)).
  - vm_compute. reflexivity.
  - vm_compute. reflexivity.
  - reflexivity.
  - repeat split; apply (single_integer 2); reflexivity.
Defined.

Lemma read_translate (h : nat) (s : State) :
  is_translate_at h s = true -> exists xyz, read_xyz h s = Some xyz.
Proof.
  unfold is_translate_at, read_xyz.
  destruct (node h s) as [[[v|v|q|m] p]|]; try discriminate.
  intros _. now exists v.
Qed.

(** For a component whose transforms can be built and whose ID is no
    name inherited from [Object.prototype]: [getTranslate] returns what
    the last [setTranslate] gave, when that is a vector of
    single-precision numbers; and after [addTranslate] it returns the sum
    of what it returned before and what was added, when both the
    translation before and the sum are vectors of single-precision
    numbers. *)
Theorem getTranslate_after_setTranslate (s s0 : State) (id : string)
  (xyz : vec3) :
  getTransformableComponent id s = Some (true, s0) ->
  transforms_sound id s = true ->
  inherited id = false ->
  (single3 xyz ->
   exists s1,
     setTranslate (IStr id) xyz s = Some s1 /\
     getTranslate id s1 = Some (Some xyz, s1)) /\
  (exists old s1,
      getTranslate id s = Some (Some old, s1) /\
      let sum := (fst (fst old) + fst (fst xyz),
                  snd (fst old) + snd (fst xyz),
                  snd old + snd xyz) in
      (single3 old -> single3 sum ->
       exists s2,
         addTranslate (IStr id) xyz s = Some s2 /\
         getTranslate id s2 = Some (Some sum, s2))).
Proof.
  intros Hc Hs _.
  destruct (transform_of_ready translations is_translate_at id)
    with (s := s) (s0 := s0) as (h & s1 & Ht & Hb & _ & Hh & Hk);
    try assumption.
  { intros st Hst. apply built_parts in Hst. tauto. }
  { intros st. apply sound_table. right. now left. }
  split.
  - intros _. exists (update_node h (with_xyz xyz) s1). split.
    + simpl. now rewrite Ht.
    + unfold getTranslate, transform_of.
      change (translations (update_node h (with_xyz xyz) s1))
        with (translations s1).
      rewrite Hh. now rewrite node_with_xyz by (now right).
  - destruct (read_translate h s1 Hk) as [[[o0 o1] o2] Ho].
    destruct xyz as [[x0 x1] x2].
    exists (o0, o1, o2), s1. split.
    + unfold getTranslate. now rewrite Ht, Ho.
    + cbv zeta. intros _ _.
      exists (update_node h (with_xyz (o0 + x0, o1 + x1, o2 + x2)) s1).
      split.
      * simpl. now rewrite Ht, Ho.
      * unfold getTranslate, transform_of.
        change (translations
                  (update_node h (with_xyz (o0 + x0, o1 + x1, o2 + x2)) s1))
          with (translations s1).
        rewrite Hh. now rewrite node_with_xyz by (now right).
Qed.

Lemma getTranslate_after_setTranslate_witness :
  exists s1,
    setTranslate (IStr "saw#1") (0, 0, 5) Demo.moved = Some s1 /\
    getTranslate "saw#1" s1 = Some (Some (0, 0, 5), s1).
Proof.
  apply (getTranslate_after_setTranslate Demo.moved
           (Demo.force (option_map snd
                          (getTransformableComponent "saw#1" Demo.moved)))
           "saw#1" (0, 0, 5)).
  - vm_compute. reflexivity.
  - vm_compute. reflexivity.
  - reflexivity.
  - repeat split;
      first [apply (single_integer 0) | apply (single_integer 5)];
      reflexivity.
Defined.

Lemma getRotate_marked (id : string) (s : State) (angles : vec3) :
  getComponent id s <> None ->
  Dict.get id (transformable s) <> None ->
  Dict.get id (eulerAngles s) = Some angles ->
  getRotate id s = Some (Some angles, s).
Proof.
  intros Hc Hm He. unfold getRotate, getTransformableComponent.
  destruct (getComponent id s); [|congruence].
  destruct (Dict.get id (transformable s)); [|congruence].
  now rewrite He.
Qed.

(** For a component whose transforms can be built and whose ID is no
    name inherited from [Object.prototype], [getRotate] returns the angles
    that the last [setRotate] gave, when these are single-precision
    numbers. *)
Theorem getRotate_after_setRotate (s s0 : State) (id : string) (xyz : vec3) :
  getTransformableComponent id s = Some (true, s0) ->
  transforms_sound id s = true ->
  inherited id = false ->
  single3 xyz ->
  exists s1,
    setRotate (IStr id) xyz s = Some s1 /\
    getRotate id s1 = Some (Some xyz, s1).
Proof.
  intros Hc Hs _ _.
  destruct (transform_of_ready rotations is_quaternion_at id)
    with (s := s) (s0 := s0) as (h & s1 & Ht & Hb & Hcomp & Hh & Hk);
    try assumption.
  { intros st Hst. apply built_parts in Hst. tauto. }
  { intros st. apply sound_table. right. now right. }
  eexists. split.
  - simpl. rewrite Ht. reflexivity.
  - apply built_parts in Hb. destruct Hb as (Hmark & _).
    apply getRotate_marked.
    + exact Hcomp.
    + exact Hmark.
    + apply get_set_same.
Qed.

Lemma getRotate_after_setRotate_witness :
  exists s1,
    setRotate (IStr "gearbox#2") (0, 90, 0) Demo.furnished = Some s1 /\
    getRotate "gearbox#2" s1 = Some (Some (0, 90, 0), s1).
Proof.
  apply (getRotate_after_setRotate Demo.furnished
           (Demo.force (option_map snd
                          (getTransformableComponent "gearbox#2"
                             Demo.furnished)))
           "gearbox#2" (0, 90, 0)).
  - vm_compute. reflexivity.
  - vm_compute. reflexivity.
  - reflexivity.
  - repeat split;
      first [apply (single_integer 0) | apply (single_integer 90)];
      reflexivity.
Defined.

(** On an ID that names neither an object nor a model, for which no
    transform is registered and which is no name inherited from
    [Object.prototype], [setScale], [setRotate], [setTranslate] and
    [addTranslate] write the error "Model or object not found" and change
    nothing else. *)
Theorem transforms_of_nothing (s : State) (id : string) (xyz : vec3) :
  getComponent id s = None ->
  Dict.get id (scales s) = None ->
  Dict.get id (translations s) = None ->
  Dict.get id (rotations s) = None ->
  inherited id = false ->
  let s' := error ("Model or object not found: " ++ id) s in
  setScale (IStr id) xyz s = Some s' /\
  setRotate (IStr id) xyz s = Some s' /\
  setTranslate (IStr id) xyz s = Some s' /\
  addTranslate (IStr id) xyz s = Some s'.
Proof.
  intros Hc Hs Ht Hr _ s'. simpl.
  unfold transform_of, getTransformableComponent.
  rewrite Hc, Hs, Ht, Hr. repeat split; reflexivity.
Qed.

Lemma transforms_of_nothing_witness :
  setScale (IStr "nut") (1, 2, 3) Demo.furnished
  = Some (error "Model or object not found: nut" Demo.furnished) /\
  setRotate (IStr "nut") (1, 2, 3) Demo.furnished
  = Some (error "Model or object not found: nut" Demo.furnished) /\
  setTranslate (IStr "nut") (1, 2, 3) Demo.furnished
  = Some (error "Model or object not found: nut" Demo.furnished) /\
  addTranslate (IStr "nut") (1, 2, 3) Demo.furnished
  = Some (error "Model or object not found: nut" Demo.furnished).
Proof.
  apply (transforms_of_nothing Demo.furnished "nut" (1, 2, 3));
    vm_compute; reflexivity.
Defined.

(** ** Loading *)

Lemma register_entity_frame (id : string) (s : State) (e : string * Object) :
  (models (register_entity id s e), modelSrcs (register_entity id s e),
   hooks (register_entity id s e), log (register_entity id s e),
   lights (register_entity id s e), clips (register_entity id s e),
   annotations (register_entity id s e), arena (register_entity id s e))
  = (models s, modelSrcs s, hooks s, log s, lights s, clips s, annotations s,
     arena s).
Proof. destruct e. reflexivity. Qed.

Lemma fold_register_frame (id : string) (es : list (string * Object)) :
  forall s,
    (models (fold_left (register_entity id) es s),
     modelSrcs (fold_left (register_entity id) es s),
     hooks (fold_left (register_entity id) es s),
     log (fold_left (register_entity id) es s),
     lights (fold_left (register_entity id) es s),
     clips (fold_left (register_entity id) es s),
     annotations (fold_left (register_entity id) es s),
     arena (fold_left (register_entity id) es s))
    = (models s, modelSrcs s, hooks s, log s, lights s, clips s,
       annotations s, arena s).
Proof.
  induction es as [|e r IH]; intros s; [reflexivity|].
  simpl fold_left. rewrite IH. apply register_entity_frame.
Qed.

Lemma alloc_chain_frame (chain : list tkind) (top : nat) (s : State) :
  exists a, snd (alloc_chain chain top s) = set_arena a s.
Proof.
  revert s. induction chain as [|k r IH]; intros s; simpl.
  - exists (arena s). now destruct s.
  - destruct (IH s) as [a Ha].
    destruct (alloc_chain r top s) as [p s1]. simpl in Ha. subst s1.
    eexists. reflexivity.
Qed.

Lemma add_entities_spec (graft : nat) (es : list Entity) :
  forall s,
    (exists a, snd (add_entities graft es s) = set_arena a s) /\
    map fst (fst (add_entities graft es s)) = map e_id es /\
    Forall2 (fun e p => exists h, p = (e_id e, with_transform h (e_object e)))
      es (fst (add_entities graft es s)).
Proof.
  induction es as [|e r IH]; intros s; simpl.
  - split; [exists (arena s); now destruct s|]. split; [reflexivity|constructor].
  - destruct (alloc_chain_frame (e_chain e) graft s) as [a1 Ha1].
    destruct (alloc_chain (e_chain e) graft s) as [h s1]. simpl in Ha1.
    subst s1. destruct (IH (set_arena a1 s)) as ((a2 & Ha2) & Hk & Hf).
    destruct (add_entities graft r (set_arena a1 s)) as [done s2].
    simpl in *. subst s2. split; [eexists; reflexivity|].
    split; [now rewrite Hk|]. constructor; [now exists h | assumption].
Qed.

Lemma set_set (V : Type) (d : dict V) (k : string) (v v0 : V) :
  Dict.set k v (Dict.set k v0 d) = Dict.set k v d.
Proof.
  induction d as [|[k1 v1] r IH]; simpl.
  - now rewrite String.eqb_refl.
  - destruct (String.eqb k k1) eqn:E; simpl.
    + now rewrite String.eqb_refl.
    + now rewrite E, IH.
Qed.

(** What a load that succeeds makes of a state in which the ID is free. *)
Lemma load_fresh_ok (fetch : string -> Src -> Parsed + string) (id : string)
  (src : Src) (parsed : Parsed) (s : State) :
  scene_component id s = None ->
  fetch id src = inl parsed ->
  exists entities a model,
    Forall2 (fun e p => exists h, p = (e_id e, with_transform h (e_object e)))
      (p_entities parsed) entities /\
    m_src model = (if hook_loadModel (hooks s) then None else Some src) /\
    entities_of model = map fst entities /\
    load_fresh fetch id src None s
    = Some ((if hook_loadedModel (hooks s)
             then fire (ELoadedModel id) else (fun x => x))
              (fold_left (register_entity id) entities
                 (set_models (Dict.set id model (models s))
                    (set_modelSrcs (Dict.set id src (modelSrcs s))
                       (set_arena a s))))).
Proof.
  intros Hsc Hf.
  destruct s as [ty mo ms ob an oa eu ro tr sc om tf cl ch cd li lh ld ar ce ab sd ca ho lg].
  unfold load_fresh. rewrite Hsc. unfold alloc. cbv beta iota zeta.
  rewrite Hf.
  match goal with
  | |- context [add_entities ?g ?es ?st] =>
      destruct (add_entities_spec g es st) as ((a & Ha) & Hk & HF);
      destruct (add_entities g es st) as [entities s1]
  end.
  cbn [fst snd] in Ha, Hk, HF. subst s1.
  match goal with
  | |- context [hook_loadedModel (hooks (fold_left ?f ?l ?st))] =>
      pose proof (fold_register_frame id l st) as Hfr;
      set (final := fold_left f l st) in *
  end.
  injection Hfr as _ _ Hh _. rewrite Hh.
  match goal with
  | |- context [hook_loadedModel (hooks ?st)] =>
      change (hooks st) with ho
  end.
  exists entities, a.
  eexists (mkModel _ match entities with
                     | [] => None
                     | _ :: _ => Some (map fst entities)
                     end _ _ _ _).
  split; [exact HF|]. split; [reflexivity|].
  split; [unfold entities_of; simpl; now destruct entities|].
  assert (E : forall x y : State,
             x = y ->
             (if hook_loadedModel ho
              then call None (Some id) (fire (ELoadedModel id) x)
              else call None (Some id) x)
             = Some ((if hook_loadedModel ho
                      then fire (ELoadedModel id) else (fun x => x)) y)).
  { intros x y ->. now destruct (hook_loadedModel ho). }
  cbn [hooks]. apply E. unfold final. f_equal.
  cbv [set_models set_modelSrcs set_arena types models modelSrcs objects
       annotations objectAnnotations eulerAngles rotations translations
       scales objectModels transformable clips clipHelpers clipsDirty lights
       lightHelpers lightsDirty arena sceneCenter sceneAABB sceneDestroyed
       camera hooks log].
  rewrite set_set. reflexivity.
Qed.

Lemma fold_left_cons (A B : Type) (f : A -> B -> A) (x : B) (l : list B)
  (a : A) :
  fold_left f (x :: l) a = fold_left f l (f a x).
Proof. reflexivity. Qed.

Lemma fold_register_other (id k : string) (es : list (string * Object)) :
  forall s,
    ~ In k (map fst es) ->
    Dict.get k (objects (fold_left (register_entity id) es s))
    = Dict.get k (objects s) /\
    Dict.get k (objectModels (fold_left (register_entity id) es s))
    = Dict.get k (objectModels s).
Proof.
  induction es as [|[k1 o1] r IH]; intros s Hk; [split; reflexivity|].
  simpl in Hk. rewrite fold_left_cons.
  destruct (IH (register_entity id s (k1, o1))) as [H1 H2]; [tauto|].
  rewrite H1, H2. simpl.
  rewrite !get_set_other by (intros E; apply Hk; left; congruence).
  split; reflexivity.
Qed.

Lemma fold_register_in (id k : string) (o : Object)
  (es : list (string * Object)) :
  forall s,
    NoDup (map fst es) -> In (k, o) es ->
    Dict.get k (objects (fold_left (register_entity id) es s)) = Some o /\
    Dict.get k (objectModels (fold_left (register_entity id) es s)) = Some id.
Proof.
  induction es as [|[k1 o1] r IH]; intros s Hnd Hin; [contradiction|].
  simpl in Hnd. inversion Hnd as [|? ? Hk1 Hr]; subst. rewrite fold_left_cons.
  destruct Hin as [E|Hin].
  - injection E as -> ->.
    destruct (fold_register_other id k r (register_entity id s (k, o)) Hk1)
      as [H1 H2].
    rewrite H1, H2. simpl. rewrite !get_set_same. split; reflexivity.
  - now apply IH.
Qed.

Lemma fold_register_types_none (id t : string) (es : list (string * Object)) :
  forall s,
    Dict.get t (types s) = None ->
    (forall k o, In (k, o) es -> type_of o <> t) ->
    Dict.get t (types (fold_left (register_entity id) es s)) = None.
Proof.
  induction es as [|[k1 o1] r IH]; intros s Ht Hes; [assumption|].
  rewrite fold_left_cons. apply IH.
  - simpl. rewrite get_set_other; [assumption|].
    intros E. apply (Hes k1 o1); [now left | now symmetry].
  - intros k o Hin. apply (Hes k o). now right.
Qed.

Lemma Forall2_in_l (A B : Type) (R : A -> B -> Prop) (l : list A)
  (l' : list B) (x : A) :
  Forall2 R l l' -> In x l -> exists y, In y l' /\ R x y.
Proof.
  induction 1 as [|a b l l' Hab _ IH]; intros Hin; [contradiction|].
  destruct Hin as [<-|Hin].
  - exists b. split; [now left | assumption].
  - destruct (IH Hin) as (y & Hy & Hxy). exists y. split; [now right | assumption].
Qed.

Lemma Forall2_in_r (A B : Type) (R : A -> B -> Prop) (l : list A)
  (l' : list B) (y : B) :
  Forall2 R l l' -> In y l' -> exists x, In x l /\ R x y.
Proof.
  induction 1 as [|a b l l' Hab _ IH]; intros Hin; [contradiction|].
  destruct Hin as [<-|Hin].
  - exists a. split; [now left | assumption].
  - destruct (IH Hin) as (x & Hx & Hxy). exists x. split; [now right | assumption].
Qed.

Lemma scene_component_none (id : string) (s : State) :
  scene_component id s = None ->
  Dict.get id (objects s) = None /\ Dict.get id (models s) = None /\
  Dict.get id (lights s) = None /\ Dict.get id (clips s) = None /\
  Dict.get id (annotations s) = None.
Proof.
  unfold scene_component.
  destruct (Dict.get id (objects s)); [discriminate|].
  destruct (Dict.get id (models s)); [discriminate|].
  destruct (Dict.get id (lights s)); [discriminate|].
  destruct (Dict.get id (clips s)); [discriminate|].
  destruct (Dict.get id (annotations s)); [discriminate|]. auto.
Qed.



Lemma load_fresh_failed (fetch : string -> Src -> Parsed + string)
  (id : string) (src : Src) (msg : string) (s : State) :
  scene_component id s = None ->
  fetch id src = inr msg ->
  hook_loadModel (hooks s) = false ->
  exists s1 model,
    load_fresh fetch id src None s = Some s1 /\
    Dict.get id (models s1) = Some model /\ m_src model = Some src.
Proof.
  intros Hsc Hf Hh.
  destruct s as [ty mo ms ob an oa eu ro tr sc om tf cl ch cd li lh ld ar ce ab sd ca ho lg].
  unfold load_fresh. rewrite Hsc. unfold alloc. cbv beta iota zeta.
  rewrite Hf. simpl in Hh. simpl. rewrite Hh.
  eexists. eexists. split; [reflexivity|]. simpl. rewrite get_set_same.
  split; reflexivity.
Qed.



(** ** Creating and destroying *)

Lemma del_set_fresh (V : Type) (d : dict V) (k : string) (v : V) :
  Dict.get k d = None -> Dict.del k (Dict.set k v d) = d.
Proof.
  induction d as [|[k1 v1] r IH]; simpl.
  - now rewrite String.eqb_refl.
  - destruct (String.eqb k k1) eqn:E; [discriminate|].
    intros H. simpl. rewrite E. now rewrite IH.
Qed.

Lemma set_same (V : Type) (d : dict V) (k : string) (v : V) :
  Dict.get k d = Some v -> Dict.set k v d = d.
Proof.
  induction d as [|[k1 v1] r IH]; simpl; [discriminate|].
  destruct (String.eqb k k1) eqn:E.
  - apply String.eqb_eq in E. intros H. injection H as ->. now subst.
  - intros H. now rewrite IH.
Qed.

Lemma createLight_exact (n : nat) (id : string) (cfg : LightCfg) (s : State) :
  scene_component id s = None ->
  Dict.get id (lightHelpers s) = None ->
  createLight (S n) id (Some cfg) s
  = Some (set_lightsDirty true
            (set_lights (Dict.set id (light_of cfg) (lights s))
               (light_noted cfg s))).
Proof.
  intros Hsc Hh. destruct (scene_component_none id s Hsc) as (Ho & _).
  unfold createLight. rewrite Hsc. cbv zeta.
  fold (light_of cfg). fold (light_noted cfg s).
  assert (Hs0 : objects (light_noted cfg s) = objects s /\
                lights (light_noted cfg s) = lights s /\
                lightHelpers (light_noted cfg s) = lightHelpers s).
  { unfold light_noted. cbv zeta. destruct (_ || _); repeat split. }
  destruct Hs0 as (Ho0 & Hl0 & Hh0).
  set (s0 := light_noted cfg s) in *.
  pose proof (apply_ids_in_order (with_visible true) (visible_other true)
                [getLights; getClips] n
                (set_lightsDirty true
                   (set_lights (Dict.set id (light_of cfg) (lights s0)) s0)) id)
    as Ht.
  pose proof (apply_ids_in_order (with_visible false) (visible_other false)
                [getLights; getClips] n
                (set_lightsDirty true
                   (set_lights (Dict.set id (light_of cfg) (lights s0)) s0)) id)
    as Hf.
  cbn [objects set_lightsDirty set_lights] in Ht, Hf.
  rewrite Ho0, Ho in Ht, Hf.
  unfold visible_other in Ht, Hf.
  cbn [lights lightHelpers set_lightsDirty set_lights] in Ht, Hf.
  rewrite get_set_same, Hh0, Hh in Ht, Hf. rewrite Hl0.
  unfold show, hide, setVisible. rewrite Hl0 in Ht, Hf.
  destruct (truthy (lc_shown cfg)); assumption.
Qed.

Lemma destroy_light_exact (m : nat) (id : string) (light : Light) (s : State) :
  id <> "" ->
  Dict.get id (annotations s) = None ->
  Dict.get id (objects s) = None ->
  Dict.get id (lights s) = Some light ->
  Dict.get id (lightHelpers s) = None ->
  destroy (S (S m)) (IStr id) s
  = Some (set_lightsDirty true (set_lights (Dict.del id (lights s)) s)).
Proof.
  intros Hne Ha Ho Hl Hh.
  cbn [destroy falsy].
  apply String.eqb_neq in Hne. rewrite Hne, Ha, Hl.
  unfold hide, setVisible. cbn [apply_ids]. rewrite Ho.
  unfold visible_other. rewrite Hl, Hh. cbn. rewrite Hh. reflexivity.
Qed.

Lemma createClip_exact (n : nat) (id : string) (cfg : ClipCfg) (s : State) :
  scene_component id s = None ->
  createClip (S n) id (Some cfg) s
  = Some (set_clipsDirty true
            (set_clipHelpers
               (Dict.set id (truthy (cc_shown cfg)) (clipHelpers s))
               (set_clips
                  (Dict.set id (mkClip (cc_pos cfg) (cc_dir cfg) (cc_active cfg))
                     (clips s)) s))).
Proof.
  intros Hsc.
  destruct (scene_component_none id s Hsc) as (Ho & _ & Hl & _).
  unfold createClip. rewrite Hsc. cbv zeta.
  set (s1 := set_clipsDirty true
               (set_clipHelpers (Dict.set id true (clipHelpers s))
                  (set_clips
                     (Dict.set id
                        (mkClip (cc_pos cfg) (cc_dir cfg) (cc_active cfg))
                        (clips s)) s))).
  assert (G : forall v,
             setVisible (S n) (IStr id) v s1
             = Some (set_clipHelpers (Dict.set id v (clipHelpers s1)) s1)).
  { intros v.
    pose proof (apply_ids_in_order (with_visible v) (visible_other v)
                  [getLights; getClips] n s1 id) as H.
    change (objects s1) with (objects s) in H. rewrite Ho in H.
    unfold visible_other in H.
    change (lights s1) with (lights s) in H. rewrite Hl in H.
    change (clipHelpers s1) with (Dict.set id true (clipHelpers s)) in H.
    rewrite get_set_same in H. exact H. }
  unfold show, hide.
  destruct (truthy (cc_shown cfg)); rewrite G; f_equal; unfold s1;
    cbn; now rewrite set_set.
Qed.

Lemma destroy_clip_exact (m : nat) (id : string) (clip : Clip) (v : bool)
  (s : State) :
  id <> "" ->
  Dict.get id (annotations s) = None ->
  Dict.get id (objects s) = None ->
  Dict.get id (lights s) = None ->
  Dict.get id (clips s) = Some clip ->
  Dict.get id (clipHelpers s) = Some v ->
  destroy (S (S m)) (IStr id) s
  = Some (set_clipsDirty true
            (set_clipHelpers (Dict.del id (Dict.set id false (clipHelpers s)))
               (set_clips (Dict.del id (clips s)) s))).
Proof.
  intros Hne Ha Ho Hl Hc Hh.
  cbn [destroy falsy].
  apply String.eqb_neq in Hne. rewrite Hne, Ha, Hl, Hc.
  unfold hide, setVisible. cbn [apply_ids]. rewrite Ho.
  unfold visible_other. rewrite Hl, Hh. cbn. rewrite get_set_same.
  reflexivity.
Qed.

Lemma destroy_annotation_exact (m : nat) (id e : string) (ann : Annotation)
  (oa : dict unit) (s : State) :
  id <> "" ->
  Dict.get id (annotations s) = Some ann ->
  a_entity ann = Some e ->
  Dict.get e (objectAnnotations s) = Some oa ->
  destroy (S m) (IStr id) s
  = Some (set_annotations (Dict.del id (annotations s))
            (set_objectAnnotations
               (Dict.set e (Dict.del id oa) (objectAnnotations s)) s)).
Proof.
  intros Hne Ha He Hoa. cbn [destroy falsy].
  apply String.eqb_neq in Hne. now rewrite Hne, Ha, He, Hoa.
Qed.

Lemma del_set_set (V : Type) (d : dict V) (k : string) (v v0 : V) :
  Dict.get k d = None -> Dict.del k (Dict.set k v (Dict.set k v0 d)) = d.
Proof. intros H. rewrite set_set. now apply del_set_fresh. Qed.



(** No ID is given twice: on an ID that a component of the scene has,
    [createLight], [createClip] and [createAnnotation] write an error and
    create nothing, and so does [loadModel] unless the component is a
    model, which it replaces; [loadModel] still calls back. *)
Theorem ids_not_reused (fetch : string -> Src -> Parsed + string)
  (s : State) (id : string) (c : SceneComponent) (fuel : nat) :
  scene_component id s = Some c ->
  let s' := error ("Component with this ID already exists: " ++ id) s in
  (forall cfg, createLight fuel id cfg s = Some s') /\
  (forall cfg, createClip fuel id cfg s = Some s') /\
  (forall cfg, createAnnotation id cfg s = s') /\
  (forall src ok,
      Dict.get id (models s) = None ->
      loadModel fetch fuel id src ok s = call ok (Some id) s').
Proof.
  intros Hsc s'. unfold createLight, createClip, createAnnotation, loadModel,
    load_fresh. rewrite Hsc. repeat split; try reflexivity.
  intros src ok ->. reflexivity.
Qed.

Lemma ids_not_reused_witness :
  (forall cfg,
      createLight 3 "saw#1" cfg Demo.furnished
      = Some (error "Component with this ID already exists: saw#1"
                Demo.furnished)) /\
  (forall cfg,
      createClip 3 "saw#1" cfg Demo.furnished
      = Some (error "Component with this ID already exists: saw#1"
                Demo.furnished)) /\
  (forall cfg,
      createAnnotation "saw#1" cfg Demo.furnished
      = error "Component with this ID already exists: saw#1" Demo.furnished) /\
  (forall src ok,
      Dict.get "saw#1" (models Demo.furnished) = None ->
      loadModel Demo.fetch 3 "saw#1" src ok Demo.furnished
      = call ok (Some "saw#1")
          (error "Component with this ID already exists: saw#1"
             Demo.furnished)).
Proof.
  apply (ids_not_reused Demo.fetch Demo.furnished "saw#1"
           (SObject (default (Demo.part None)
                       (Dict.get "saw#1" (objects Demo.furnished)))) 3).
  vm_compute. reflexivity.
Defined.

(** ** Lights and clip planes *)



Lemma getSpace_set (id : string) (light : Light) (d : dict Light)
  (s : State) :
  has_space light = true ->
  fst (getSpace id (set_lights (Dict.set id light d) s)) = l_space light.
Proof.
  intros H. unfold getSpace.
  change (lights (set_lights (Dict.set id light d) s))
    with (Dict.set id light d).
  now rewrite get_set_same, H.
Qed.

(** After [setSpace] on a directional or a point light, [getSpace]
    returns "world" when that was asked for and "view" in every other
    case; an ambient light is left as it is, with an error. *)
Theorem space_normalised (s : State) (id : string) (light : Light)
  (space : option string) :
  Dict.get id (lights s) = Some light ->
  exists s1,
    setSpace (IStr id) space s = Some s1 /\
    (has_space light = true -> fst (getSpace id s1) = Some (space_of space)) /\
    (has_space light = false ->
     s1 = error ("Called setSpace() for light of incompatible type: "
                 ++ quoted id) s).
Proof.
  intros Hl. simpl. rewrite Hl. destruct (has_space light) eqn:Hs.
  - set (sp := match space with
               | Some sp => if String.eqb sp "" then "view" else sp
               | None => "view"
               end).
    assert (Hsp : space_of space
                  = if String.eqb sp "view" || String.eqb sp "world"
                    then sp else "view").
    { unfold sp, space_of. destruct space as [x|]; [|reflexivity].
      destruct (String.eqb x "") eqn:E0.
      - apply String.eqb_eq in E0. now subst.
      - destruct (String.eqb x "world") eqn:Ew.
        + apply String.eqb_eq in Ew. now subst.
        + destruct (String.eqb x "view") eqn:Ev; [|reflexivity].
          apply String.eqb_eq in Ev. now subst. }
    rewrite Hsp.
    destruct (String.eqb sp "view" || String.eqb sp "world").
    + eexists. split; [reflexivity|]. split; [|discriminate].
      intros _. apply (getSpace_set id (with_l_space (Some sp) light) _ _ Hs).
    + eexists. split; [reflexivity|]. split; [|discriminate].
      intros _.
      apply (getSpace_set id (with_l_space (Some "view") light) _ _ Hs).
  - eexists. split; [reflexivity|]. split; [discriminate | reflexivity].
Qed.

Lemma space_normalised_witness :
  exists s1,
    setSpace (IStr "light1") (Some "screen") Demo.furnished = Some s1 /\
    fst (getSpace "light1" s1) = Some "view".
Proof.
  destruct (space_normalised Demo.furnished "light1"
              (default (mkLight Ambient None None None None None)
                 (Dict.get "light1" (lights Demo.furnished)))
              (Some "screen")) as (s1 & E & H & _).
  - vm_compute. reflexivity.
  - exists s1. split; [exact E | apply H; reflexivity].
Defined.

(** ** Annotations *)

(** [setAnnotationObject] moves an annotation to another object:
    [getAnnotationObject] returns the new object, while
    [objectAnnotations] stays as it was; when the new object has no entry
    there, destroying the annotation throws. *)
Theorem annotation_moved (s : State) (a o2 : string) (ann : Annotation)
  (obj : Object) :
  a <> "" ->
  Dict.get a (annotations s) = Some ann ->
  Dict.get o2 (objects s) = Some obj ->
  let s1 := setAnnotationObject a o2 s in
  getAnnotationObject a s1 = (Value o2, s1) /\
  objectAnnotations s1 = objectAnnotations s /\
  (Dict.get o2 (objectAnnotations s) = None ->
   forall fuel, destroy fuel (IStr a) s1 = None).
Proof.
  intros Hne Ha Ho s1. unfold s1, setAnnotationObject. rewrite Ha, Ho.
  repeat split.
  - unfold getAnnotationObject. simpl. now rewrite get_set_same.
  - intros Hoa [|n]; [reflexivity|].
    cbn [destroy falsy]. apply String.eqb_neq in Hne. rewrite Hne.
    simpl. rewrite get_set_same. simpl. now rewrite Hoa.
Qed.

Lemma annotation_moved_witness :
  getAnnotationObject "note" (setAnnotationObject "note" "saw#2" Demo.furnished)
  = (Value "saw#2", setAnnotationObject "note" "saw#2" Demo.furnished) /\
  objectAnnotations (setAnnotationObject "note" "saw#2" Demo.furnished)
  = objectAnnotations Demo.furnished /\
  (Dict.get "saw#2" (objectAnnotations Demo.furnished) = None ->
   forall fuel,
     destroy fuel (IStr "note")
       (setAnnotationObject "note" "saw#2" Demo.furnished) = None).
Proof.
  apply (annotation_moved Demo.furnished "note" "saw#2"
           (default (mkAnnotation None 0 None None None None None None None
                       None None None)
              (Dict.get "note" (annotations Demo.furnished)))
           (default (Demo.part None)
              (Dict.get "saw#2" (objects Demo.furnished)))).
  - discriminate.
  - vm_compute. reflexivity.
  - vm_compute. reflexivity.
Defined.

Example annotation_moved_throws :
  Dict.get "saw#2" (objectAnnotations Demo.furnished) = None /\
  destroy 5 (IStr "note") (setAnnotationObject "note" "saw#2" Demo.furnished)
  = None.
Proof. split; vm_compute; reflexivity. Qed.

(** ** Types stay *)

Lemma destroy_entity_type_keys (s : State) (o : string) :
  getTypes (destroy_entity s o) = getTypes s.
Proof.
  unfold destroy_entity, getTypes.
  destruct (Dict.get _ (types s)) as [b|] eqn:E; [|reflexivity].
  simpl. apply keys_set_present. congruence.
Qed.

Lemma destroy_model_type_keys (id : string) (model : Model) (s : State) :
  getTypes (destroy_model id model s) = getTypes s.
Proof.
  unfold destroy_model.
  assert (Hf : forall es st,
             getTypes (fold_left destroy_entity es st) = getTypes st).
  { induction es as [|o r IH]; intros st; [reflexivity|].
    rewrite fold_left_cons, IH. apply destroy_entity_type_keys. }
  rewrite <- (Hf match m_entities model with Some l => l | None => [] end s).
  set (s1 := fold_left _ _ _).
  destruct (hook_unloadedModel _); reflexivity.
Qed.

Lemma destroy_type_keys (fuel : nat) :
  forall x s s', destroy fuel x s = Some s' -> getTypes s' = getTypes s.
Proof.
  induction fuel as [|n IH]; intros x s s'; simpl; [discriminate|].
  assert (Heach : forall l a b, each (destroy n) l a = Some b ->
                                getTypes b = getTypes a).
  { intros l.
    apply (each_invariant _ _ (fun a b => getTypes b = getTypes a));
      [auto | intros; congruence |].
    intros y c d _ Hy. eapply IH; eassumption. }
  assert (Hhide : forall id a b, hide n (IStr id) a = Some b ->
                                 getTypes b = getTypes a).
  { intros id a b H. apply setVisible_named_maps in H.
    unfold named_maps in H. injection H as _ _ _ _ Ht.
    unfold getTypes. now rewrite Ht. }
  destruct (falsy x).
  { intros H. injection H as <-. reflexivity. }
  destruct x as [|id|l]; [intros H; injection H as <-; reflexivity| |apply Heach].
  destruct (Dict.get id (annotations s)) as [a|].
  { destruct (a_entity a) as [e|].
    - destruct (Dict.get e (objectAnnotations s)); [|discriminate].
      intros H. injection H as <-. reflexivity.
    - intros H. injection H as <-. reflexivity. }
  destruct (Dict.get id (lights s)).
  { destruct (hide n (IStr id) s) as [s1|] eqn:Eh; [|discriminate].
    apply Hhide in Eh. intros H. injection H as <-. rewrite <- Eh.
    destruct (Dict.get id (lightHelpers _)); reflexivity. }
  destruct (Dict.get id (clips s)).
  { destruct (hide n (IStr id) s) as [s1|] eqn:Eh; [|discriminate].
    apply Hhide in Eh. intros H. injection H as <-. rewrite <- Eh.
    destruct (Dict.get id (clipHelpers _)); reflexivity. }
  destruct (Dict.get id (models s)) as [model|].
  { intros H. injection H as <-. apply destroy_model_type_keys. }
  apply Heach.
Qed.

Lemma setType_type_keys (ids : Ids) (type : option string) :
  forall s s' t,
    setType ids type s = Some s' -> In t (getTypes s) -> In t (getTypes s').
Proof.
  induction ids as [|id|l IH] using Ids_nested_ind; intros s s' t;
    [discriminate| |].
  - simpl. destruct (Dict.get id (objects s)) as [obj|].
    + destruct (String.eqb (type_of obj) (or_default type)).
      { intros H. now injection H as <-. }
      intros H. injection H as <-. unfold getTypes. simpl. intros Ht.
      apply in_keys_set. right.
      destruct (Dict.get (type_of obj) (types s)); [|assumption].
      apply in_keys_set. now right.
    + destruct (Dict.get id (models s)); intros H; now injection H as <-.
  - simpl. revert s.
    induction IH as [|x r Hx _ IHr]; intros s; cbn [each].
    + intros H. now injection H as <-.
    + destruct (setType x type s) as [s1|] eqn:E; [|discriminate].
      intros H Ht. apply (IHr s1 H). eapply Hx; eassumption.
Qed.

(** A type that [getTypes] lists stays listed: [setType] adds types and
    takes none away, also when it empties a bucket, and [destroy] and
    [clear] leave the list as it is, whatever they destroy. *)
Theorem types_stay :
  (forall ids type s s' t,
      setType ids type s = Some s' ->
      In t (getTypes s) -> In t (getTypes s')) /\
  (forall fuel ids s s',
      destroy fuel ids s = Some s' -> getTypes s' = getTypes s) /\
  (forall fuel s s', clear fuel s = Some s' -> getTypes s' = getTypes s).
Proof.
  split; [exact setType_type_keys|]. split; [exact destroy_type_keys|].
  intros fuel s s'. unfold clear, destroyAnnotations, destroyClips,
    destroyLights.
  destruct (each _ _ s) as [s1|] eqn:E1; [|discriminate].
  destruct (destroy fuel _ s1) as [s2|] eqn:E2; [|discriminate].
  destruct (destroy fuel _ s2) as [s3|] eqn:E3; [|discriminate].
  intros E4.
  apply destroy_type_keys in E2, E3, E4. rewrite E4, E3, E2.
  apply (each_invariant _ _ (fun a b => getTypes b = getTypes a)) in E1;
    [assumption | auto | intros; congruence |].
  intros id a b _. destruct (Dict.mem id (models a)).
  - apply destroy_type_keys.
  - intros H. now injection H as <-.
Qed.

Lemma types_stay_witness :
  getTypes (Demo.force (clear 3 Demo.furnished)) = getTypes Demo.furnished.
Proof.
  apply (proj2 (proj2 types_stay) 3%nat Demo.furnished).
  vm_compute. reflexivity.
Defined.

(** ** Boundaries *)

Lemma Qltb_min (a m : Q) :
  (if Qltb a m then a else m) <= a /\ (if Qltb a m then a else m) <= m.
Proof.
  unfold Qltb. destruct (Qlt_le_dec a m) as [H|H].
  - split; [apply Qle_refl | now apply Qlt_le_weak].
  - split; [assumption | apply Qle_refl].
Qed.

Lemma Qltb_max (a m : Q) :
  a <= (if Qltb m a then a else m) /\ m <= (if Qltb m a then a else m).
Proof.
  unfold Qltb. destruct (Qlt_le_dec m a) as [H|H].
  - split; [apply Qle_refl | now apply Qlt_le_weak].
  - split; [assumption | apply Qle_refl].
Qed.

Lemma grow_aabb_encloses (e a : aabb6) : encloses (grow_aabb e a) a.
Proof.
  destruct e as [[[[[x0 y0] z0] x1] y1] z1].
  destruct a as [[[[[a0 a1] a2] a3] a4] a5]. unfold encloses, grow_aabb.
  repeat split; first [apply Qltb_min | apply Qltb_max].
Qed.

Lemma grow_aabb_keeps (e a b : aabb6) :
  encloses e b -> encloses (grow_aabb e a) b.
Proof.
  destruct e as [[[[[x0 y0] z0] x1] y1] z1].
  destruct a as [[[[[a0 a1] a2] a3] a4] a5].
  destruct b as [[[[[b0 b1] b2] b3] b4] b5]. unfold encloses, grow_aabb.
  intros (H0 & H1 & H2 & H3 & H4 & H5).
  repeat split;
    first [ eapply Qle_trans; [apply Qltb_min | eassumption]
          | eapply Qle_trans; [eassumption | apply Qltb_max] ].
Qed.

Lemma extent_boxes (self : Target -> State -> option (Boundary * State))
  (s : State) (ids : list string) :
  (forall id, In id ids ->
              exists c aabb, scene_component id s = Some c /\
                             worldBoundary c = Some aabb) ->
  forall e valid,
    exists box v,
      extent self (map ItStr ids) e valid s = Some (box, v, s) /\
      (ids <> [] -> v = true) /\
      (forall b, encloses e b -> encloses box b) /\
      (forall id c aabb, In id ids -> scene_component id s = Some c ->
                         worldBoundary c = Some aabb -> encloses box aabb).
Proof.
  induction ids as [|id r IH]; intros H e valid.
  - exists e, valid. simpl. repeat split; [congruence | auto | tauto].
  - destruct (H id (or_introl eq_refl)) as (c & aabb & Hc & Hb).
    destruct (IH (fun k Hk => H k (or_intror Hk)) (grow_aabb e aabb) true)
      as (box & v & He & Hv & Hk & Hin).
    simpl. unfold component_or_model. simpl. rewrite Hc, Hb.
    exists box, v. split; [exact He|]. split.
    + intros _. destruct r as [|k r']; [|apply Hv; discriminate].
      simpl in He. now injection He as _ <-.
    + split.
      * intros b Hb'. apply Hk. now apply grow_aabb_keeps.
      * intros k c' a' [<-|Hk'] Hc' Hb'.
        -- rewrite Hc in Hc'. injection Hc' as <-. rewrite Hb in Hb'.
           injection Hb' as <-. apply Hk. apply grow_aabb_encloses.
        -- eapply Hin; eassumption.
Qed.

(** For one or more IDs that name objects or models, [getAABB] returns a
    box that holds the box of each of them, and writes nothing. *)
Theorem getAABB_encloses (s : State) (n : nat) (ids : list string) :
  ids <> [] ->
  (forall id, In id ids ->
              exists c aabb, scene_component id s = Some c /\
                             worldBoundary c = Some aabb) ->
  exists box,
    getAABB (S n) (TgArr (map ItStr ids)) s = Some (BBox box, s) /\
    forall id c aabb,
      In id ids -> scene_component id s = Some c ->
      worldBoundary c = Some aabb -> encloses box aabb.
Proof.
  intros Hne H. destruct ids as [|id [|id2 r]]; [congruence| |].
  - destruct (H id (or_introl eq_refl)) as (c & aabb & Hc & Hb).
    exists aabb. simpl. rewrite Hc, Hb. split; [reflexivity|].
    intros k c' a' [<-|[]] Hc' Hb'. rewrite Hc in Hc'. injection Hc' as <-.
    rewrite Hb in Hb'. injection Hb' as <-.
    destruct aabb as [[[[[a0 a1] a2] a3] a4] a5]. unfold encloses.
    repeat split; apply Qle_refl.
  - destruct (extent_boxes (getAABB n) s (id :: id2 :: r) H extent_start false)
      as (box & v & He & Hv & _ & Hin).
    exists box. split; [|exact Hin].
    cbn [getAABB map]. unfold resolve_items.
    cbn [map] in He. rewrite He. rewrite Hv by discriminate. reflexivity.
Qed.

Lemma getAABB_encloses_witness :
  exists box,
    getAABB 1 (TgArr (map ItStr ["saw#1"; "gearbox"])) Demo.furnished
    = Some (BBox box, Demo.furnished) /\
    forall id c aabb,
      In id ["saw#1"; "gearbox"] ->
      scene_component id Demo.furnished = Some c ->
      worldBoundary c = Some aabb -> encloses box aabb.
Proof.
  apply (getAABB_encloses Demo.furnished 0 ["saw#1"; "gearbox"]).
  - discriminate.
  - intros id [<-|[<-|[]]]; vm_compute; eexists; eexists; split; reflexivity.
Defined.



(** ** Bookmarks, further *)

Lemma apply_ids_object (assign : Object -> Object)
  (other : string -> State -> option State)
  (also : list (State -> list string)) (n : nat) (s : State) (id : string)
  (o : Object) :
  Dict.get id (objects s) = Some o ->
  apply_ids assign other also (S n) (IStr id) s
  = Some (set_objects (Dict.set id (assign o) (objects s)) s).
Proof. intros Eo. simpl. now rewrite Eo. Qed.

(** An object that cannot be clipped, or cannot be picked, is written to
    the bookmark with the flag [false]; restoring such an entry calls the
    public [setClippable] and [setPickable], which take the IDs only, and
    leaves the object clippable and pickable whatever the entry says. *)
Theorem flags_restored_on (s s0 : State) (n : nat) (id : string)
  (o o0 : Object) (visible : option bool) (clippable pickable : bool) :
  Dict.get id (objects s) = Some o ->
  (o_clippable o0 && o_pickable o0 = false ->
   exists st, bookmark_object id o0 s0 = Some st /\ os_id st = id /\
              os_clippable st = (if o_clippable o0 then None else Some false) /\
              os_pickable st = (if o_pickable o0 then None else Some false)) /\
  exists s',
    restore_object (S n)
      (mkObjectState id None None None visible None None (Some clippable)
         (Some pickable)) s = Some s' /\
    Dict.get id (objects s')
    = Some (with_pickable true (with_clippable true o)).
Proof.
  intros Eo. split.
  - intros Hf. unfold bookmark_object.
    destruct (o_clippable o0), (o_pickable o0); try discriminate;
      destruct (bookmark_translate id s0), (bookmark_scale id s0),
        (bookmark_rotate id s0), (o_visible o0),
        (String.eqb (o_alphaMode o0) "blend" && Qltb (o_alpha o0) 1),
        (o_outlined o0);
      eexists; (split; [reflexivity|]); repeat split.
  - unfold restore_object, setClippable, setPickable, setClippable_,
      setPickable_.
    cbn [os_id os_translate os_scale os_rotate os_opacity os_outlined
         os_clippable os_pickable truthy].
    rewrite (apply_ids_object _ _ _ n s id o Eo).
    erewrite apply_ids_object by (simpl; apply get_set_same).
    eexists. split; [reflexivity|]. simpl. apply get_set_same.
Qed.

Lemma flags_restored_on_witness :
  exists s',
    restore_object 1
      (mkObjectState "saw#1" None None None None None None (Some false)
         (Some false)) Demo.furnished = Some s' /\
    Dict.get "saw#1" (objects s')
    = Some (with_pickable true
              (with_clippable true
                 (default (Demo.part None)
                    (Dict.get "saw#1" (objects Demo.furnished))))).
Proof.
  apply (proj2 (flags_restored_on Demo.furnished Demo.furnished 0 "saw#1"
                  (default (Demo.part None)
                     (Dict.get "saw#1" (objects Demo.furnished)))
                  (Demo.part None) None false false
                  ltac:(vm_compute; reflexivity))).
Defined.

Lemma default_unless (v d : Q) :
  default d (if Qneb v d then Some v else None) == v.
Proof.
  unfold Qneb. destruct (Qeq_bool v d) eqn:E; simpl.
  - symmetry. now apply Qeq_bool_iff.
  - reflexivity.
Qed.

Lemma Qor_unless (v d : Q) :
  ~ v == 0 -> Qor (if Qneb v d then Some v else None) d == v.
Proof.
  intros Hv. unfold Qneb, Qor. destruct (Qeq_bool v d) eqn:E; simpl.
  - symmetry. now apply Qeq_bool_iff.
  - destruct (Qeq_bool v 0) eqn:E0; [|reflexivity].
    apply Qeq_bool_iff in E0. contradiction.
Qed.

Lemma Qor_zero (v d : Q) :
  v == 0 -> Qor (if Qneb v d then Some v else None) d == d.
Proof.
  intros Hv. unfold Qneb, Qor. destruct (Qeq_bool v d) eqn:E; simpl.
  - reflexivity.
  - apply Qeq_bool_iff in Hv. now rewrite Hv.
Qed.

Lemma camera_setProjection (type : string) (s : State) :
  let c := camera (setProjection type s) in
  eye c = eye (camera s) /\ viewFitFOV c = viewFitFOV (camera s) /\
  (type = "perspective" \/ type = "orthographic" -> projectionType c = type).
Proof.
  unfold setProjection.
  destruct (String.eqb (projectionType (camera s)) type) eqn:E.
  - apply String.eqb_eq in E. simpl. repeat split. intros _. exact E.
  - destruct (String.eqb type "perspective" || String.eqb type "orthographic")
      eqn:Ev.
    + destruct s; simpl. repeat split.
    + simpl. repeat split. intros [->| ->]; discriminate.
Qed.

(** The camera of a bookmark that is restored, for a viewer of which
    [getBookmark] returns one (it throws while there is a light): eye,
    look and up come back rounded to five decimals, when the rounded
    values are single-precision numbers; the gimbal lock, the
    projection, the planes and the scale of both projections, the flight
    duration and the outline come back as they were.  A perspective FOV
    of zero comes back as 60, and the FOV of a view fit comes back from
    the property [viewFitFOV] of the flight animation, which
    [setViewFitFOV] does not write. *)
Theorem camera_restored (s s' : State) (b : Bookmark) :
  getBookmark s = Some b ->
  let c := camera s in
  let c' := camera (restore_camera b s') in
  lights s = [] /\
  (single3 (vecToArray (eye c)) -> single3 (vecToArray (look c)) ->
   single3 (vecToArray (up c)) ->
   eye c' = vecToArray (eye c) /\ look c' = vecToArray (look c) /\
   up c' = vecToArray (up c)) /\
  gimbalLockY c' = gimbalLockY c /\
  (projectionType c = "perspective" \/ projectionType c = "orthographic" ->
   projectionType c' = projectionType c) /\
  (perspectiveNear c' == perspectiveNear c /\
   perspectiveFar c' == perspectiveFar c /\
   orthoNear c' == orthoNear c /\ orthoFar c' == orthoFar c /\
   orthoScale c' == orthoScale c /\
   viewFitDuration c' == viewFitDuration c /\
   outlineThickness c' == outlineThickness c /\
   vec3_eq (outlineColor c') (outlineColor c)) /\
  (~ perspectiveFOV c == 0 -> perspectiveFOV c' == perspectiveFOV c) /\
  (perspectiveFOV c == 0 -> perspectiveFOV c' == 60) /\
  fitFOV c' == Qor (viewFitFOV c) 45.
Proof.
  intros H.
  assert (Hl : lights s = []).
  { destruct (lights s) as [|e r] eqn:E; [reflexivity|].
    rewrite getBookmark_with_lights in H; [discriminate|].
    rewrite E. discriminate. }
  unfold getBookmark in H.
  destruct (bookmark_models (Dict.keys (models s)) s) as [ms|];
    [|discriminate].
  destruct (bookmark_lights _ _ s) as [[ls cs]|]; [|discriminate].
  injection H as <-. cbv zeta. split; [exact Hl|]. clear Hl.
  unfold restore_camera.
  cbn [b_eye b_look b_up b_gimbalLockY b_projection b_perspectiveFOV
       b_perspectiveNear b_perspectiveFar b_orthoScale b_orthoNear
       b_orthoFar b_viewFitFOV b_viewFitDuration b_outlineThickness
       b_outlineColor].
  set (p := match (if String.eqb (projectionType (camera s)) "perspective"
                   then None else Some (projectionType (camera s))) with
            | Some p => if String.eqb p "" then "perspective" else p
            | None => "perspective"
            end).
  destruct (camera_setProjection p s') as (_ & _ & Hp).
  destruct s' as [ty mo ms' ob an oa eu ro tr sc om tf cl ch cd li lh ld ar
                    ce ab sd ca ho lg].
  destruct (camera s) as [e l u g pt pfov pn pf osc on_ of_ ff vff vd ot oc]
    eqn:Ec.
  cbn [eye look up gimbalLockY projectionType perspectiveFOV perspectiveNear
       perspectiveFar orthoScale orthoNear orthoFar fitFOV viewFitFOV
       viewFitDuration outlineThickness outlineColor] in *.
  unfold set_camera.
  cbn [camera eye look up gimbalLockY projectionType perspectiveFOV
       perspectiveNear perspectiveFar orthoScale orthoNear orthoFar fitFOV
       viewFitFOV viewFitDuration outlineThickness outlineColor default].
  split; [|split; [|split; [|split; [|split; [|split]]]]].
  - intros _ _ _. repeat split.
  - now destruct g.
  - intros Hpt. rewrite Hp.
    + subst p. destruct Hpt as [-> | ->]; reflexivity.
    + subst p. destruct Hpt as [-> | ->]; simpl; auto.
  - repeat split; try apply default_unless.
    destruct oc as [[c0 c1] c2].
    destruct (Qneb c0 1 || Qneb c1 1 || Qneb c2 0) eqn:E; simpl.
    + unfold vec3_eq. repeat split; reflexivity.
    + apply orb_false_iff in E. destruct E as (E & E2).
      apply orb_false_iff in E. destruct E as (E0 & E1).
      unfold Qneb in *. apply negb_false_iff in E0, E1, E2.
      apply Qeq_bool_iff in E0, E1, E2. unfold vec3_eq.
      repeat split; symmetry; assumption.
  - now apply Qor_unless.
  - now apply Qor_zero.
  - destruct vff as [v|]; simpl; [|reflexivity].
    unfold Qneb. destruct (Qeq_bool v 45) eqn:E; simpl.
    + apply Qeq_bool_iff in E. destruct (Qeq_bool v 0) eqn:E0; [reflexivity|].
      now symmetry.
    + reflexivity.
Qed.

Lemma camera_restored_witness :
  exists b,
    getBookmark Demo.unlit = Some b /\
    eye (camera (restore_camera b Demo.start))
    = vecToArray (eye (camera Demo.unlit)).
Proof.
  destruct (getBookmark Demo.unlit) as [b|] eqn:E;
    [|vm_compute in E; discriminate].
  exists b. split; [reflexivity|].
  apply (proj1 (proj2 (camera_restored Demo.unlit Demo.start b E)));
    cbv beta iota zeta delta [single3 vecToArray Demo.unlit camera eye look up];
    repeat split;
    first [is_single 0%Z | is_single 1%Z | is_single 10%Z].
Defined.

(** ** The page of the examples *)

Lemma toLowerCase_small (c : ascii) :
  Examples.in_class c = true ->
  Examples.is_capital (Examples.toLowerCase c) = false /\
  Examples.toLowerCase c <> "_"%char.
Proof.
  unfold Examples.in_class, Examples.toLowerCase.
  destruct (Examples.is_capital c) eqn:E; simpl.
  - intros _. unfold Examples.is_capital in *.
    apply andb_true_iff in E. destruct E as (E1 & E2).
    apply Nat.leb_le in E1, E2.
    assert (En : nat_of_ascii (ascii_of_nat (nat_of_ascii c + 32))
                 = (nat_of_ascii c + 32)%nat)
      by (apply nat_ascii_embedding; lia).
    split.
    + rewrite En. apply andb_false_iff. right. apply Nat.leb_gt. lia.
    + intros H. rewrite H in En.
      change (nat_of_ascii "_") with 95%nat in En. lia.
  - intros H. apply Ascii.eqb_eq in H. subst c. split; [reflexivity|discriminate].
Qed.

Lemma in_class_underscore (c : ascii) :
  Examples.in_class c = true -> c <> "_"%char.
Proof. intros H ->. discriminate. Qed.

Lemma expandCamel_no_capital (str : string) (c : ascii) :
  In c (list_ascii_of_string (Examples.expandCamel str)) ->
  Examples.is_capital c = false.
Proof.
  induction str as [|x r IH]; simpl; [tauto|].
  destruct (Examples.in_class x) eqn:E; simpl.
  - destruct (toLowerCase_small x E) as (Hl & _).
    intros [<-|[<-|Hc]]; [reflexivity | exact Hl | now apply IH].
  - intros [<-|Hc]; [|now apply IH].
    unfold Examples.in_class in E. now apply orb_false_iff in E.
Qed.

Lemma expandCamel_underscore (str : string) :
  In "_"%char (list_ascii_of_string (Examples.expandCamel str)) ->
  In "_"%char (list_ascii_of_string str).
Proof.
  induction str as [|x r IH]; simpl; [tauto|].
  destruct (Examples.in_class x) eqn:E; simpl.
  - destruct (toLowerCase_small x E) as (_ & Hu).
    intros [H|[H|H]]; [discriminate | congruence | right; now apply IH].
  - intros [H|H]; [now left | right; now apply IH].
Qed.

(** [expandCamel] leaves a string without capital letter and without
    parenthesis as it is; in general its result has no capital letter,
    has one character more for each capital letter or parenthesis of the
    string, and has an underscore only where the string has one. *)
Theorem expandCamel_lowers (str : string) :
  (Examples.in_class_count str = 0%nat -> Examples.expandCamel str = str) /\
  (forall c, In c (list_ascii_of_string (Examples.expandCamel str)) ->
             Examples.is_capital c = false) /\
  String.length (Examples.expandCamel str)
  = (String.length str + Examples.in_class_count str)%nat /\
  (In "_"%char (list_ascii_of_string (Examples.expandCamel str)) ->
   In "_"%char (list_ascii_of_string str)).
Proof.
  split; [|split; [|split]].
  - induction str as [|c r IH]; simpl; [reflexivity|].
    destruct (Examples.in_class c); [discriminate|].
    intros H. f_equal. now apply IH.
  - intros c. apply expandCamel_no_capital.
  - induction str as [|c r IH]; simpl; [reflexivity|].
    destruct (Examples.in_class c); simpl; rewrite IH; lia.
  - apply expandCamel_underscore.
Qed.

Lemma split_parts (sep : ascii) (str : string) :
  Examples.split sep str <> [] /\
  (forall part, In part (Examples.split sep str) ->
                ~ In sep (list_ascii_of_string part)) /\
  (~ In sep (list_ascii_of_string str) -> Examples.split sep str = [str]).
Proof.
  induction str as [|c r (IH0 & IH1 & IH2)]; simpl.
  - split; [discriminate|]. split; [|reflexivity].
    intros part [<-|[]] [].
  - destruct (Ascii.eqb c sep) eqn:E.
    + apply Ascii.eqb_eq in E. subst c.
      split; [discriminate|]. split; [|tauto].
      intros part [<-|H]; [intros [] | now apply IH1].
    + apply Ascii.eqb_neq in E.
      destruct (Examples.split sep r) as [|first more] eqn:Es; [congruence|].
      split; [discriminate|]. split.
      * intros part [<-|H].
        -- simpl. intros [H|H]; [congruence|].
           apply (IH1 first); [now left | assumption].
        -- apply IH1. now right.
      * intros H. assert (Hr : first :: more = [r]) by (apply IH2; tauto).
        injection Hr as Hf Hm. now subst.
Qed.

Lemma in_append (c : ascii) (a b : string) :
  In c (list_ascii_of_string (a ++ b)) ->
  In c (list_ascii_of_string a) \/ In c (list_ascii_of_string b).
Proof.
  induction a as [|x r IH]; simpl; [tauto|].
  intros [H|H]; [tauto|]. destruct (IH H); tauto.
Qed.

Lemma in_concat_parts (c : ascii) (sep : string) (l : list string) :
  In c (list_ascii_of_string (String.concat sep l)) ->
  In c (list_ascii_of_string sep) \/
  exists part, In part l /\ In c (list_ascii_of_string part).
Proof.
  induction l as [|a r IH]; simpl; [tauto|].
  destruct r as [|b r'].
  - intros H. right. exists a. tauto.
  - intros H. apply in_append in H. destruct H as [H|H].
    + right. exists a. tauto.
    + apply in_append in H. destruct H as [H|H]; [tauto|].
      destruct (IH H) as [H1|(part & Hp & Hc)]; [tauto|].
      right. exists part. split; [now right | assumption].
Qed.

(** The text of the link of an example has no underscore and no capital
    letter; a file name without underscore gives a link without text. *)
Theorem link_text_plain (file : string) :
  ~ In "_"%char (list_ascii_of_string (Examples.link_text file)) /\
  (forall c, In c (list_ascii_of_string (Examples.link_text file)) ->
             Examples.is_capital c = false) /\
  (~ In "_"%char (list_ascii_of_string file) ->
   Examples.link_text file = EmptyString).
Proof.
  unfold Examples.link_text. repeat split.
  - intros H. apply expandCamel_underscore in H.
    apply in_concat_parts in H. destruct H as [H|(part & Hp & Hc)].
    + simpl in H. destruct H as [H|[H|[H|[]]]]; discriminate.
    + destruct (split_parts "_" file) as (_ & Hs & _).
      apply (Hs part); [|assumption].
      destruct (Examples.split "_" file); [destruct Hp | now right].
  - intros c. apply expandCamel_no_capital.
  - intros H. destruct (split_parts "_" file) as (_ & _ & Hs).
    rewrite Hs by assumption. reflexivity.
Qed.

(** ** Loading keeps the state well formed *)

Lemma NoDup_nodupb (l : list string) : NoDup l -> nodupb l = true.
Proof.
  induction 1 as [|x r Hx Hr IH]; simpl; [reflexivity|].
  rewrite IH, andb_true_r. apply negb_true_iff.
  destruct (existsb (String.eqb x) r) eqn:E; [|reflexivity].
  apply existsb_eqb_in in E. contradiction.
Qed.

Lemma disjointb_intro (a b : list string) :
  (forall k, In k a -> ~ In k b) -> disjointb a b = true.
Proof.
  intros H. unfold disjointb. apply forallb_forall. intros k Hk.
  apply negb_true_iff.
  destruct (existsb (String.eqb k) b) eqn:E; [|reflexivity].
  apply existsb_eqb_in in E. now apply H in Hk.
Qed.

Lemma one_namespace_iff (s : State) :
  one_namespace s = true <->
  ~ In "" (Dict.keys (objects s) ++ Dict.keys (models s)
           ++ Dict.keys (lights s) ++ Dict.keys (clips s)
           ++ Dict.keys (annotations s)) /\
  NoDup (Dict.keys (models s)) /\ NoDup (Dict.keys (lights s)) /\
  NoDup (Dict.keys (clips s)) /\ NoDup (Dict.keys (annotations s)) /\
  (forall k, In k (Dict.keys (models s)) ->
             ~ In k (Dict.keys (objects s) ++ Dict.keys (lights s)
                     ++ Dict.keys (clips s) ++ Dict.keys (annotations s))) /\
  (forall k, In k (Dict.keys (objects s)) ->
             ~ In k (Dict.keys (lights s) ++ Dict.keys (clips s)
                     ++ Dict.keys (annotations s))) /\
  (forall k, In k (Dict.keys (clips s)) ->
             ~ In k (Dict.keys (lights s) ++ Dict.keys (annotations s))) /\
  (forall k, In k (Dict.keys (lights s)) ->
             ~ In k (Dict.keys (annotations s))).
Proof.
  unfold one_namespace. cbv zeta. split.
  - intros H. repeat (apply andb_true_iff in H; destruct H as [H ?]).
    apply negb_true_iff in H.
    repeat split;
      try (apply nodupb_NoDup; assumption);
      try (intros k; apply disjointb_spec; assumption).
    intros Hin. apply existsb_eqb_in in Hin. congruence.
  - intros (H0 & H1 & H2 & H3 & H4 & H5 & H6 & H7 & H8).
    repeat (apply andb_true_iff; split);
      try (apply NoDup_nodupb; assumption);
      try (apply disjointb_intro; assumption).
    apply negb_true_iff.
    match goal with
    | |- ?e = false => destruct e eqn:E; [|reflexivity]
    end.
    apply existsb_eqb_in in E. contradiction.
Qed.

Lemma in_set_entries_weak (V : Type) (d : dict V) (o k : string) (v x : V) :
  In (k, x) (Dict.set o v d) -> (k = o /\ x = v) \/ In (k, x) d.
Proof.
  induction d as [|[k1 v1] r IH]; simpl; intros Hin.
  - destruct Hin as [E|[]]. injection E as E1 E2. left. now subst.
  - destruct (String.eqb o k1) eqn:E.
    + destruct Hin as [E'|Hin]; [|tauto].
      injection E' as E1 E2. left. now subst.
    + destruct Hin as [E'|Hin]; [tauto|].
      destruct (IH Hin); tauto.
Qed.

(** The state [s'] in which the object [o] was registered under the new
    ID [k] for the model [id]. *)
Lemma grown_parts (s s' : State) (id k : string) (o : Object) :
  objects_distinct s = true -> typed_in_bucket s = true ->
  bucket_typed s = true -> objects_owned s = true ->
  one_namespace s = true ->
  Dict.mem id (models s) = true -> k <> "" -> scene_component k s = None ->
  objects s' = Dict.set k o (objects s) ->
  objectModels s' = Dict.set k id (objectModels s) ->
  types s'
  = Dict.set (type_of o)
      (Dict.set k tt (default Dict.empty (Dict.get (type_of o) (types s))))
      (types s) ->
  (models s', lights s', clips s', annotations s')
  = (models s, lights s, clips s, annotations s) ->
  objects_distinct s' = true /\ typed_in_bucket s' = true /\
  bucket_typed s' = true /\ objects_owned s' = true /\
  one_namespace s' = true.
Proof.
  intros Hd Htb Hbt Hoo Hns Hid Hk Hsc Hobj Hom Hty Hrest.
  injection Hrest as Hm Hl Hc Ha.
  destruct (scene_component_none k s Hsc) as (Ko & Km & Kl & Kc & Ka).
  assert (Hkeys : Dict.keys (objects s') = Dict.keys (objects s) ++ [k])
    by (rewrite Hobj; now apply keys_set_absent).
  assert (Hold : forall x, In x (Dict.keys (objects s)) -> x <> k).
  { intros x Hx ->. now apply get_none_keys in Ko. }
  repeat split.
  - unfold objects_distinct. rewrite Hkeys. apply NoDup_nodupb.
    apply NoDup_app; [now apply nodupb_NoDup | repeat constructor; simpl; tauto|].
    intros x Hx [<-|[]]. now apply (Hold k).
  - unfold typed_in_bucket. apply forallb_forall. intros [x ox] Hin.
    rewrite Hobj in Hin. apply in_set_entries_weak in Hin. simpl.
    rewrite Hty. destruct Hin as [[-> ->]|Hin].
    + rewrite get_set_same. apply mem_get. rewrite get_set_same. discriminate.
    + unfold typed_in_bucket in Htb. rewrite forallb_forall in Htb.
      specialize (Htb (x, ox) Hin). simpl in Htb.
      destruct (string_dec (type_of ox) (type_of o)) as [E|N].
      * rewrite E, get_set_same. rewrite E in Htb.
        destruct (Dict.get (type_of o) (types s)) as [b|]; [|discriminate].
        simpl. apply mem_true. apply in_keys_set. right. now apply mem_true.
      * now rewrite get_set_other.
  - unfold bucket_typed. apply forallb_forall. intros [t b] Hin.
    rewrite Hty in Hin. apply in_set_entries_weak in Hin. simpl.
    apply forallb_forall. intros x Hx. rewrite Hobj.
    unfold bucket_typed in Hbt. rewrite forallb_forall in Hbt.
    assert (Hin_old : forall t0 b0, In (t0, b0) (types s) ->
                                    In x (Dict.keys b0) ->
              match Dict.get x (Dict.set k o (objects s)) with
              | Some object => String.eqb (type_of object) t0
              | None => false
              end = true).
    { intros t0 b0 H0 Hx0. specialize (Hbt (t0, b0) H0). simpl in Hbt.
      rewrite forallb_forall in Hbt. specialize (Hbt x Hx0).
      assert (N : x <> k).
      { intros ->. rewrite Ko in Hbt. discriminate. }
      now rewrite get_set_other. }
    destruct Hin as [[-> ->]|Hin]; [|now apply (Hin_old t b)].
    apply in_keys_set in Hx. destruct Hx as [->|Hx].
    + rewrite get_set_same. apply String.eqb_refl.
    + destruct (Dict.get (type_of o) (types s)) as [b0|] eqn:E;
        [|destruct Hx].
      apply (Hin_old (type_of o) b0); [|exact Hx].
      now apply get_in_entries.
  - unfold objects_owned. apply forallb_forall. intros x Hx.
    rewrite Hom, Hm. destruct (string_dec x k) as [->|N].
    + rewrite get_set_same. exact Hid.
    + rewrite get_set_other by assumption.
      unfold objects_owned in Hoo. rewrite forallb_forall in Hoo.
      apply Hoo. rewrite Hkeys in Hx. apply in_app_iff in Hx.
      destruct Hx as [Hx|[E|[]]]; [assumption | congruence].
  - apply one_namespace_iff. apply one_namespace_iff in Hns.
    destruct Hns as (H0 & H1 & H2 & H3 & H4 & H5 & H6 & H7 & H8).
    rewrite Hm, Hl, Hc, Ha, Hkeys.
    apply get_none_keys in Km, Kl, Kc, Ka.
    repeat split; try assumption.
    + rewrite !in_app_iff in *. simpl. intros H. intuition congruence.
    + intros x Hx H. apply (H5 x Hx). rewrite !in_app_iff in *. simpl in H.
      intuition congruence.
    + intros x Hx H. rewrite in_app_iff in Hx. simpl in Hx.
      destruct Hx as [Hx|[<-|[]]]; [now apply (H6 x)|].
      rewrite !in_app_iff in H. tauto.
Qed.

Lemma register_entity_fields (id k : string) (o : Object) (s : State) :
  objects (register_entity id s (k, o)) = Dict.set k o (objects s) /\
  objectModels (register_entity id s (k, o)) = Dict.set k id (objectModels s) /\
  types (register_entity id s (k, o))
  = Dict.set (type_of o)
      (Dict.set k tt (default Dict.empty (Dict.get (type_of o) (types s))))
      (types s) /\
  (clipHelpers (register_entity id s (k, o)),
   objectAnnotations (register_entity id s (k, o)),
   transformable (register_entity id s (k, o)),
   scales (register_entity id s (k, o)),
   rotations (register_entity id s (k, o)),
   translations (register_entity id s (k, o)))
  = (clipHelpers s, objectAnnotations s, transformable s, scales s,
     rotations s, translations s).
Proof. destruct s. repeat split. Qed.

Lemma scene_component_register (id k k1 : string) (o1 : Object) (s : State) :
  k <> k1 ->
  scene_component k (register_entity id s (k1, o1)) = scene_component k s.
Proof.
  intros N. destruct s. unfold scene_component. simpl.
  now rewrite get_set_other.
Qed.

Lemma fold_register_parts (id : string) (es : list (string * Object)) :
  forall s,
    objects_distinct s = true -> typed_in_bucket s = true ->
    bucket_typed s = true -> objects_owned s = true ->
    one_namespace s = true ->
    Dict.mem id (models s) = true ->
    NoDup (map fst es) ->
    (forall k, In k (map fst es) -> k <> "" /\ scene_component k s = None) ->
    objects_distinct (fold_left (register_entity id) es s) = true /\
    typed_in_bucket (fold_left (register_entity id) es s) = true /\
    bucket_typed (fold_left (register_entity id) es s) = true /\
    objects_owned (fold_left (register_entity id) es s) = true /\
    one_namespace (fold_left (register_entity id) es s) = true /\
    Dict.keys (objects (fold_left (register_entity id) es s))
    = Dict.keys (objects s) ++ map fst es /\
    written_together (fold_left (register_entity id) es s)
    = written_together s /\
    (NoDup (Dict.keys (types s)) ->
     NoDup (Dict.keys (types (fold_left (register_entity id) es s)))).
Proof.
  induction es as [|[k1 o1] r IH]; intros s Hd Htb Hbt Hoo Hns Hid Hnd Hes.
  - simpl. rewrite app_nil_r. auto 10.
  - rewrite fold_left_cons. simpl in Hnd.
    inversion Hnd as [|? ? Hk1 Hr]; subst.
    destruct (Hes k1 (or_introl eq_refl)) as (Hne & Hsc).
    destruct (register_entity_fields id k1 o1 s) as (Eo & Eom & Ety & _).
    set (s1 := register_entity id s (k1, o1)) in *.
    assert (Em : models s1 = models s) by reflexivity.
    assert (El : lights s1 = lights s) by reflexivity.
    assert (Ec : clips s1 = clips s) by reflexivity.
    assert (Ea : annotations s1 = annotations s) by reflexivity.
    assert (Ewt : written_together s1 = written_together s) by reflexivity.
    destruct (grown_parts s s1 id k1 o1 Hd Htb Hbt Hoo Hns Hid Hne Hsc Eo Eom
                Ety) as (Gd & Gtb & Gbt & Goo & Gns).
    { now rewrite Em, El, Ec, Ea. }
    destruct (IH s1 Gd Gtb Gbt Goo Gns) as (Fd & Ftb & Fbt & Foo & Fns & Fk
                                            & Fwt & Fnt).
    + now rewrite Em.
    + exact Hr.
    + intros k Hk. destruct (Hes k (or_intror Hk)) as (Hk0 & Hksc).
      split; [exact Hk0|]. unfold s1. rewrite scene_component_register.
      * exact Hksc.
      * intros ->. contradiction.
    + repeat split; try assumption.
      * rewrite Fk, Eo.
        destruct (scene_component_none k1 s Hsc) as (Ko & _).
        rewrite keys_set_absent by assumption.
        now rewrite <- app_assoc.
      * intros Hnt. apply Fnt. rewrite Ety. now apply nodup_keys_set.
Qed.

Lemma filter_none (A : Type) (f : A -> bool) (l : list A) :
  (forall x, In x l -> f x = false) -> filter f l = [].
Proof.
  induction l as [|x r IH]; intros H; simpl; [reflexivity|].
  rewrite (H x (or_introl eq_refl)). apply IH. intros y Hy. apply H. now right.
Qed.

Lemma filter_all (A : Type) (f : A -> bool) (l : list A) :
  (forall x, In x l -> f x = true) -> filter f l = l.
Proof.
  induction l as [|x r IH]; intros H; simpl; [reflexivity|].
  rewrite (H x (or_introl eq_refl)). f_equal. apply IH. intros y Hy.
  apply H. now right.
Qed.

Lemma strings_eqb_refl (a : list string) : strings_eqb a a = true.
Proof. unfold strings_eqb. destruct (list_eq_dec string_dec a a); congruence. Qed.



Lemma expandCamel_lowers_witness :
  Examples.expandCamel "snapshot" = "snapshot".
Proof.
  apply (proj1 (expandCamel_lowers "snapshot")). reflexivity.
Defined.

Lemma link_text_plain_witness : Examples.link_text "index" = EmptyString.
Proof.
  apply (proj2 (proj2 (link_text_plain "index"))).
  simpl. intros H. repeat (destruct H as [H|H]; [discriminate|]). exact H.
Defined.
